(** * Resilient image/content acquisition pipeline: a shallow embedding

    The development follows the TypeScript sources of the carousel
    generator: the TTL cache ([lib/cache.ts]), the relay chain and the
    reachability resolver ([lib/corsProxy.ts]), the page extractor
    ([hooks/useImageExtractor.ts]), the image service facade
    ([services/imageService.ts]) and the AI content generator
    ([lib/ai.ts]).

    Conventions.
    - JavaScript numbers that hold times, sizes and pixel counts are
      integers of [Z]; [Date.now()] is an explicit argument or a clock
      oracle of the world.
    - A JavaScript string is the sequence of its UTF-16 code units.  The
      model has the strings whose code units are all below 256: a
      [string] holds one code unit per character, the character with
      code [n] standing for the code unit [n] (U+0000 to U+00FF).  So
      [String.length] is [.length], and [includes], [startsWith], [===]
      and the regular expressions work on code units as they do in the
      sources.  On these strings [toLowerCase] lowers A-Z and the
      capital letters U+00C0 to U+00DE (the multiplication sign U+00D7
      left alone), and [trim] and [\s] take U+00A0 for white space
      beside U+0009 to U+000D and the space.  A letter of a message that
      is not ASCII is written by its code unit ([cu 227] for a with
      tilde); strings with larger code units are outside the model.
    - A value of type [any] (the result of [JSON.parse]) is a [jsval].
    - Network and browser services are oracles collected in a [World]
      record; mutable module state (the three caches) and the ghost logs
      are threaded through a state-and-error monad. *)

From Stdlib Require Import ZArith String Ascii List Bool Lia DecimalString.
From stdpp Require Import base gmap strings list.
Import ListNotations.

Set Warnings "-register-all".

Local Open Scope string_scope.
Local Open Scope Z_scope.

(* ===================================================================== *)
(** ** JavaScript values, strings and control effects *)
(* ===================================================================== *)

Module JS.

(** A value of type [any]: what [JSON.parse] returns, plus [undefined].
    An object is the list of its own properties in [Object.keys] order. *)
Inductive jsval : Type :=
| VUndefined
| VNull
| VBool (b : bool)
| VNum (n : Z)
| VStr (s : string)
| VArr (items : list jsval)
| VObj (props : list (string * jsval)).

(** Outcome of a promise or of a call that may throw; every value thrown
    in the sources is an [Error], represented by its [message]. *)
Inductive outcome (A : Type) : Type :=
| Resolved (a : A)
| Rejected (message : string).
Arguments Resolved {A} a.
Arguments Rejected {A} message.

(** [String.prototype.includes] *)
Fixpoint includes (s needle : string) : bool :=
  String.prefix needle s ||
  match s with
  | EmptyString => false
  | String _ s' => includes s' needle
  end.

(** [String.prototype.startsWith] *)
Definition startsWith (s p : string) : bool := String.prefix p s.

(** The one-character string of the code unit [n]. *)
Definition cu (n : nat) : string := String (ascii_of_nat n) EmptyString.

(** The lower case of a code unit below 256: A-Z, and the capital
    letters U+00C0 to U+00DE without the multiplication sign U+00D7,
    are 32 below their small letters; no other code unit below 256 has
    a lower case of its own, and none of them depends on its
    neighbours. *)
Definition lower_unit (c : ascii) : ascii :=
  let n := nat_of_ascii c in
  if (((65 <=? n) && (n <=? 90))
      || ((192 <=? n) && (n <=? 222) && negb (n =? 215)))%nat
  then ascii_of_nat (n + 32) else c.

(** [String.prototype.toLowerCase] *)
Fixpoint toLowerCase (s : string) : string :=
  match s with
  | EmptyString => EmptyString
  | String c s' => String (lower_unit c) (toLowerCase s')
  end.

(** The decimal digits of an integer, with its sign: what a template
    literal and [toString] give for an integer up to 2^53 in absolute
    value.  Beyond that the digits JavaScript prints are the shortest
    that identify the number, which [numberToString] below leaves to
    the world. *)
Definition string_of_Z (z : Z) : string :=
  NilEmpty.string_of_int (Z.to_int z).

(** [a || b] on strings: the empty string is falsy. *)
Definition str_or (a b : string) : string :=
  if String.eqb a "" then b else a.

(** Truthiness of a value. *)
Definition truthy (v : jsval) : bool :=
  match v with
  | VUndefined | VNull => false
  | VBool b => b
  | VNum n => negb (n =? 0)
  | VStr s => negb (String.eqb s "")
  | VArr _ | VObj _ => true
  end.

(** Truthiness of an optional number ([number | undefined]). *)
Definition truthy_num (n : option Z) : bool :=
  match n with
  | Some x => negb (x =? 0)
  | None => false
  end.

Fixpoint lookup_prop (props : list (string * jsval)) (key : string)
    : jsval :=
  match props with
  | [] => VUndefined
  | (k, v) :: rest => if String.eqb k key then v else lookup_prop rest key
  end.

(** The message of the [TypeError] for a property read of [undefined]
    or [null], in the wording of V8. *)
Definition cannotRead (what key : string) : string :=
  "Cannot read properties of " +:+ what +:+ " (reading '" +:+ key +:+ "')".

(** Property read [v.key] for the keys the sources read by name; reading
    a property of [null] or [undefined] throws a [TypeError].  The
    [length] of a string is the number of its code units. *)
Definition get_prop (v : jsval) (key : string) : outcome jsval :=
  match v with
  | VUndefined => Rejected (cannotRead "undefined" key)
  | VNull => Rejected (cannotRead "null" key)
  | VObj props => Resolved (lookup_prop props key)
  | VStr s =>
      Resolved (if String.eqb key "length"
                then VNum (Z.of_nat (String.length s)) else VUndefined)
  | VArr items =>
      Resolved (if String.eqb key "length"
                then VNum (Z.of_nat (length items)) else VUndefined)
  | VBool _ | VNum _ => Resolved VUndefined
  end.

End JS.
Export JS.

(* ===================================================================== *)
(** ** The TTL cache ([lib/cache.ts]) *)
(* ===================================================================== *)

Module SimpleCache.

Section WithValue.
Context {T : Type}.

(** [interface CacheEntry<T>] *)
Record CacheEntry := mkEntry {
  data : T;
  timestamp : Z;
  expiry : Z;
}.

(** [class SimpleCache<T>]: the private [Map] and the default TTL. *)
Record t := mkCache {
  cache : gmap string CacheEntry;
  defaultTTL : Z;
}.

(** [new SimpleCache(defaultTTL)]; the source's default is 300000. *)
Definition new (ttl : option Z) : t :=
  {| cache := ∅; defaultTTL := default 300000 ttl |}.

(** [ttl || this.defaultTTL]: an absent or zero [ttl] is falsy. *)
Definition ttl_or_default (ttl : option Z) (dflt : Z) : Z :=
  match ttl with
  | Some x => if x =? 0 then dflt else x
  | None => dflt
  end.

(** [set(key, value, ttl?)], [now] being the value of [Date.now()]. *)
Definition set (c : t) (key : string) (value : T) (ttl : option Z)
    (now : Z) : t :=
  let expiry := ttl_or_default ttl (defaultTTL c) in
  {| cache := <[key := mkEntry value now expiry]> (cache c);
     defaultTTL := defaultTTL c |}.

(** [get(key)]: the value read ([None] is the source's [null]) and the
    cache after the read, which has lost the entry when it was stale. *)
Definition get (c : t) (key : string) (now : Z) : option T * t :=
  match cache c !! key with
  | None => (None, c)
  | Some entry =>
      if now - timestamp entry >? expiry entry
      then (None, {| cache := delete key (cache c);
                     defaultTTL := defaultTTL c |})
      else (Some (data entry), c)
  end.


Definition clear (c : t) : t :=
  {| cache := ∅; defaultTTL := defaultTTL c |}.

Definition size (c : t) : nat := base.size (cache c).

End WithValue.

Arguments CacheEntry : clear implicits.
Arguments t : clear implicits.

End SimpleCache.

(** The three exported instances. *)
(** [htmlCache] is declared over [string]; the parameter is erased at run
    time and the relay chain stores whatever the relay's unwrapper returned. *)
Definition htmlCache : SimpleCache.t jsval := SimpleCache.new (Some 600000).
Definition imageUrlCache : SimpleCache.t bool := SimpleCache.new (Some 1800000).
Definition imageDimensionsCache : SimpleCache.t (Z * Z) :=
  SimpleCache.new (Some 3600000).

(* ===================================================================== *)
(** ** Pattern matching on strings *)
(* ===================================================================== *)

(** A small matcher for the regular expressions of [getWorkingImageUrl]:
    literal characters and [\d+].  In every pattern of the source [\d+] is
    followed by a non-digit literal or ends the pattern, so the greedy
    reading below is the regular expression's. *)
Module Regex.

Inductive atom := Lit (c : ascii) | Digits.

Fixpoint lits (s : string) : list atom :=
  match s with
  | EmptyString => []
  | String c s' => Lit c :: lits s'
  end.

Definition is_digit (c : ascii) : bool :=
  let n := nat_of_ascii c in ((48 <=? n) && (n <=? 57))%nat.

Fixpoint skip_digits (s : string) : string :=
  match s with
  | String c s' => if is_digit c then skip_digits s' else s
  | EmptyString => EmptyString
  end.

(** The rest of [s] after a match of [pat] at its start. *)
Fixpoint match_here (pat : list atom) (s : string) : option string :=
  match pat with
  | [] => Some s
  | Lit c :: pat' =>
      match s with
      | String d s' => if Ascii.eqb c d then match_here pat' s' else None
      | EmptyString => None
      end
  | Digits :: pat' =>
      match s with
      | String d s' =>
          if is_digit d then match_here pat' (skip_digits s') else None
      | EmptyString => None
      end
  end.

(** [s.replace(/pat/g, rep)]; [skip] counts the characters of the
    current match still to be dropped. *)
Fixpoint replace_from (pat : list atom) (rep : string) (s : string)
    (skip : nat) : string :=
  match s with
  | EmptyString => EmptyString
  | String c s' =>
      match skip with
      | S k => replace_from pat rep s' k
      | O =>
          match match_here pat s with
          | Some rest =>
              rep +:+ replace_from pat rep s'
                        (String.length s - String.length rest - 1)
          | None => String c (replace_from pat rep s' 0)
          end
      end
  end.

Definition replace_all (pat : list atom) (rep : string) (s : string)
    : string :=
  replace_from pat rep s 0.

(** [s.replace(/^lit/g, rep)] *)
Definition replace_prefix (lit rep s : string) : string :=
  if String.prefix lit s
  then rep +:+ String.substring (String.length lit)
                 (String.length s - String.length lit) s
  else s.

(** [s.split(sep)[0]] for a one-character separator. *)
Fixpoint before_first (sep : ascii) (s : string) : string :=
  match s with
  | EmptyString => EmptyString
  | String c s' =>
      if Ascii.eqb c sep then EmptyString else String c (before_first sep s')
  end.

End Regex.

(* ===================================================================== *)
(** ** The parsed page *)
(* ===================================================================== *)

Module Dom.

(** An element of the parsed document, as far as the sources read it:
    the [src] and [alt] properties (empty when the element has none),
    its attributes, the intrinsic size and the text content. *)
Record Element := mkElement {
  prop_src : string;
  prop_alt : string;
  attributes : list (string * string);
  naturalWidth : Z;
  naturalHeight : Z;
  textContent : string;
}.

Fixpoint assoc (l : list (string * string)) (key : string)
    : option string :=
  match l with
  | [] => None
  | (k, v) :: rest => if String.eqb k key then Some v else assoc rest key
  end.

(** [el.getAttribute(name)]; [None] is [null]. *)
Definition getAttribute (el : Element) (attr : string) : option string :=
  assoc (attributes el) attr.

(** [el.getAttribute(name)] used as an operand of [||]: [null] and the
    empty string are both falsy. *)
Definition attr_or_empty (el : Element) (attr : string) : string :=
  default "" (getAttribute el attr).

(** The document answers selector queries in document order. *)
Record Document := mkDocument {
  querySelectorAll : string -> list Element;
}.

(** [new URL(url)], as far as it is read. *)
Record URL := mkURL {
  protocol : string;
  host : string;
}.

(** White space among the code units below 256, for [trim] and for
    [\s]: U+0009 to U+000D, the space and the no-break space U+00A0. *)
Definition is_space (c : ascii) : bool :=
  let n := nat_of_ascii c in
  ((n =? 32) || ((9 <=? n) && (n <=? 13)) || (n =? 160))%nat.

Fixpoint trim_left (s : string) : string :=
  match s with
  | String c s' => if is_space c then trim_left s' else s
  | EmptyString => EmptyString
  end.

Fixpoint trim_right (s : string) : string :=
  match s with
  | EmptyString => EmptyString
  | String c s' =>
      let r := trim_right s' in
      if is_space c && String.eqb r "" then EmptyString else String c r
  end.

(** [String.prototype.trim] *)
Definition trim (s : string) : string := trim_right (trim_left s).

(** [s.split(sep).pop()]: what follows the last separator. *)
Fixpoint after_last (sep : ascii) (s : string) : string :=
  match s with
  | EmptyString => EmptyString
  | String c s' =>
      if JS.includes s' (String sep EmptyString)
      then after_last sep s'
      else if Ascii.eqb c sep then s' else s
  end.

(** [url.split('/').pop()?.split('.')[0]] *)
Definition baseName (u : string) : string :=
  Regex.before_first "." (after_last "/" u).

(** [attr?.split(',')[0]?.trim().split(' ')[0]] on [data-srcset]. *)
Definition firstOfSrcset (v : string) : string :=
  Regex.before_first " " (trim (Regex.before_first "," v)).

(** The source selection of an [<img>]:
    [img.src || data-src || data-lazy-src || data-original ||
     first entry of data-srcset]. *)
Definition imgSource (img : Element) : string :=
  str_or (prop_src img)
    (str_or (attr_or_empty img "data-src")
       (str_or (attr_or_empty img "data-lazy-src")
          (str_or (attr_or_empty img "data-original")
             (match getAttribute img "data-srcset" with
              | Some v => firstOfSrcset v
              | None => ""
              end)))).

(** [img.alt || title || data-alt || ''] *)
Definition imgAlt (img : Element) : string :=
  str_or (prop_alt img)
    (str_or (attr_or_empty img "title") (attr_or_empty img "data-alt")).

(** [convertToAbsoluteUrl]; the same text in both sources.  Nothing in
    its [try] block throws, so the [null] of the [catch] never arises. *)
Definition convertToAbsoluteUrl (s : string) (baseUrl : URL) : string :=
  if startsWith s "//" then "https:" +:+ s
  else if startsWith s "/"
  then protocol baseUrl +:+ "//" +:+ host baseUrl +:+ s
  else if negb (startsWith s "http")
  then protocol baseUrl +:+ "//" +:+ host baseUrl +:+ "/" +:+ s
  else s.

(** The capture group of the background-image pattern of the sources:
    the literal text background-image: and optional white space, then
    url and an opening parenthesis, an optional single or double quote,
    one or more characters that are neither quotes nor parentheses (the
    capture), an optional quote and the closing parenthesis. *)
Definition is_quote (c : ascii) : bool :=
  Ascii.eqb c "'" || Ascii.eqb c (ascii_of_nat 34).

Definition is_delim (c : ascii) : bool :=
  is_quote c || Ascii.eqb c "(" || Ascii.eqb c ")".

Fixpoint take_plain (s : string) : string * string :=
  match s with
  | EmptyString => (EmptyString, EmptyString)
  | String c s' =>
      if is_delim c then (EmptyString, s)
      else let '(g, rest) := take_plain s' in (String c g, rest)
  end.

Definition drop_quote (s : string) : string :=
  match s with
  | String c s' => if is_quote c then s' else s
  | EmptyString => s
  end.

Definition strip_prefix (p s : string) : option string :=
  if String.prefix p s
  then Some (String.substring (String.length p)
               (String.length s - String.length p) s)
  else None.

Definition bgMatch_here (s : string) : option string :=
  match strip_prefix "background-image:" s with
  | None => None
  | Some s1 =>
      match strip_prefix "url(" (trim_left s1) with
      | None => None
      | Some s2 =>
          let '(g, rest) := take_plain (drop_quote s2) in
          if String.eqb g "" then None
          else if String.prefix ")" (drop_quote rest) then Some g
          else None
      end
  end.

(** [style.match(...)]: the capture of the leftmost match. *)
Fixpoint bgMatch (s : string) : option string :=
  match bgMatch_here s with
  | Some g => Some g
  | None =>
      match s with
      | EmptyString => None
      | String _ s' => bgMatch s'
      end
  end.

(** [key.toLowerCase().includes('image') || key === 'url' ||
     key === 'contentUrl'] *)
Definition imageKey (key : string) : bool :=
  JS.includes (toLowerCase key) "image" || String.eqb key "url"
  || String.eqb key "contentUrl".

(** The shared step of every pass:
    [if (absoluteSrc && !foundUrls.has(absoluteSrc))
       { foundUrls.add(absoluteSrc); candidateImages.push(c) }],
    where [c] is built from [absoluteSrc]. *)
Definition pushNew {A : Type} (absoluteSrc : string) (c : A)
    (acc : gset string * list A) : gset string * list A :=
  let '(foundUrls, candidateImages) := acc in
  if negb (String.eqb absoluteSrc "")
     && negb (bool_decide (absoluteSrc ∈ foundUrls))
  then ({[absoluteSrc]} ∪ foundUrls, (candidateImages ++ [c])%list)
  else acc.

End Dom.

(* ===================================================================== *)
(** ** The environment: network, browser services and module state *)
(* ===================================================================== *)

(** An HTTP response as far as the sources look at it. *)
Record Response := mkResponse {
  ok : bool;
  status : Z;
  statusText : string;
  text : outcome string;      (* [await response.text()] *)
  json : outcome jsval;       (* [await response.json()] *)
}.

(** [await response.text()], under a name no later record hides. *)
Definition responseBody (r : Response) : outcome string := text r.

(** Everything the program obtains from outside.  Oracles that stand for
    an [await] are indexed by the number of awaits that came before, so
    the same request may be answered differently at different moments. *)
Record World := mkWorld {
  clock : nat -> Z;                                   (* [Date.now()] *)
  fetch : nat -> string -> string -> outcome Response; (* method, URL *)
  loadImage : nat -> string -> option (Z * Z);        (* [new Image()] *)
  JSON_parse : string -> option jsval;                (* [None]: throws *)
  syntaxError : string -> string;   (* message of that [SyntaxError] *)
  encodeURIComponent : string -> string;
  validUrl : string -> bool;                          (* [new URL(s)] *)
  urlProtocol : string -> string;                     (* [new URL(s).protocol] *)
  urlHost : string -> string;                         (* [new URL(s).host] *)
  looseGt : jsval -> Z -> bool;   (* [v > n] for v a string, array, object *)
  parseInt : string -> option Z;                      (* [None]: [NaN] *)
  parseFromString : jsval -> Dom.Document;               (* [DOMParser] *)
  urlSearchParams : list (string * string) -> string;
  showMegabytes : Z -> string;   (* [(n / 1024 / 1024).toFixed(2)] *)
  megabytesToString : Z -> string;    (* [`${n / 1024 / 1024}`] *)
  readAsDataURL : nat -> string -> option string;     (* [FileReader] *)
  env : string -> option string;        (* [import.meta.env.NAME] *)
  zodUrl : string -> bool;              (* zod's [.url()] check *)
  ToString : jsval -> string;           (* coercion of a non-string *)
}.

(** A number in a template literal: the digits of an integer up to 2^53
    in absolute value; beyond it the shortest digits that identify the
    number, in exponent notation from 10^21, are the world's. *)
Definition numberToString (W : World) (n : Z) : string :=
  if Z.abs n <=? 9007199254740992 then string_of_Z n
  else ToString W (VNum n).

(** One pass through the body of the retry loop of the relay chain. *)
Record Attempt := mkAttempt {
  serviceIndex : nat;
  retry : Z;
  serviceName : string;
  attemptResult : outcome jsval;
}.

(** Module state: the three caches, the await counter, and four ghost
    logs (relay attempts, [fetch] calls as method and URL, the URLs for
    which a HEAD probe resolved, and the queries handed to the generator's
    image search). *)
Record State := mkState {
  st_html : SimpleCache.t jsval;
  st_urls : SimpleCache.t bool;
  st_dims : SimpleCache.t (Z * Z);
  st_tick : nat;
  st_attempts : list Attempt;
  st_fetches : list (string * string);
  st_probes : list string;
  st_searches : list string;
}.

Definition initialState : State :=
  mkState htmlCache imageUrlCache imageDimensionsCache 0 [] [] [] [].

Module Eff.

(** Computations that read and write the module state and may throw. *)
Definition M (A : Type) : Type := State -> outcome A * State.

Definition ret {A} (a : A) : M A := fun st => (Resolved a, st).

Definition throw {A} (message : string) : M A :=
  fun st => (Rejected message, st).

Definition bind {A B} (m : M A) (k : A -> M B) : M B :=
  fun st =>
    match m st with
    | (Resolved a, st') => k a st'
    | (Rejected e, st') => (Rejected e, st')
    end.

(** [try { m } catch (err) { h err.message }] *)
Definition try_catch {A} (m : M A) (h : string -> M A) : M A :=
  fun st =>
    match m st with
    | (Resolved a, st') => (Resolved a, st')
    | (Rejected e, st') => h e st'
    end.

(** Lift a call that may throw. *)
Definition lift {A} (o : outcome A) : M A := fun st => (o, st).

Definition get_state : M State := fun st => (Resolved st, st).
Definition put_state (st : State) : M unit := fun _ => (Resolved tt, st).

End Eff.
Import Eff.

Declare Scope eff_scope.
Delimit Scope eff_scope with eff.
Notation "x <- c ;; k" := (bind c (fun x => k))
  (at level 100, c at next level, right associativity) : eff_scope.
Notation "c ;;; k" := (bind c (fun _ => k))
  (at level 100, right associativity) : eff_scope.
Local Open Scope eff_scope.

Section Primitives.
Variable W : World.

(** [Date.now()] *)
Definition now : M Z := fun st => (Resolved (clock W (st_tick st)), st).

Definition tick : M unit := fun st =>
  (Resolved tt,
   mkState (st_html st) (st_urls st) (st_dims st) (S (st_tick st))
           (st_attempts st) (st_fetches st) (st_probes st) (st_searches st)).

(** [await sleep(ms)]: time passes. *)
Definition sleep : M unit := tick.

(** [await fetch(url, {method})]: logged, answered by the world. *)
Definition do_fetch (method url : string) : M Response := fun st =>
  (fetch W (st_tick st) method url,
   mkState (st_html st) (st_urls st) (st_dims st) (S (st_tick st))
           (st_attempts st) (st_fetches st ++ [(method, url)])
           (st_probes st) (st_searches st)).

(** Decoding an image with [new Image()]; [None] covers both [onerror]
    and the five-second timeout. *)
Definition do_loadImage (src : string) : M (option (Z * Z)) := fun st =>
  (Resolved (loadImage W (st_tick st) src),
   mkState (st_html st) (st_urls st) (st_dims st) (S (st_tick st))
           (st_attempts st) (st_fetches st) (st_probes st) (st_searches st)).

Definition log_attempt (a : Attempt) : M unit := fun st =>
  (Resolved tt,
   mkState (st_html st) (st_urls st) (st_dims st) (st_tick st)
           (st_attempts st ++ [a]) (st_fetches st) (st_probes st) (st_searches st)).

Definition log_search (query : string) : M unit := fun st =>
  (Resolved tt,
   mkState (st_html st) (st_urls st) (st_dims st) (st_tick st)
           (st_attempts st) (st_fetches st) (st_probes st)
           (st_searches st ++ [query])).

Definition log_probe (url : string) : M unit := fun st =>
  (Resolved tt,
   mkState (st_html st) (st_urls st) (st_dims st) (st_tick st)
           (st_attempts st) (st_fetches st) (st_probes st ++ [url]) (st_searches st)).

(** The three cache instances, read and written at the current time. *)
Definition htmlCache_get (key : string) : M (option jsval) := fun st =>
  let '(r, c) := SimpleCache.get (st_html st) key (clock W (st_tick st)) in
  (Resolved r,
   mkState c (st_urls st) (st_dims st) (st_tick st)
           (st_attempts st) (st_fetches st) (st_probes st) (st_searches st)).

Definition htmlCache_set (key : string) (v : jsval) : M unit := fun st =>
  (Resolved tt,
   mkState (SimpleCache.set (st_html st) key v None (clock W (st_tick st)))
           (st_urls st) (st_dims st) (st_tick st)
           (st_attempts st) (st_fetches st) (st_probes st) (st_searches st)).

Definition imageUrlCache_get (key : string) : M (option bool) := fun st =>
  let '(r, c) := SimpleCache.get (st_urls st) key (clock W (st_tick st)) in
  (Resolved r,
   mkState (st_html st) c (st_dims st) (st_tick st)
           (st_attempts st) (st_fetches st) (st_probes st) (st_searches st)).

Definition imageUrlCache_set (key : string) (v : bool) : M unit := fun st =>
  (Resolved tt,
   mkState (st_html st)
           (SimpleCache.set (st_urls st) key v None (clock W (st_tick st)))
           (st_dims st) (st_tick st)
           (st_attempts st) (st_fetches st) (st_probes st) (st_searches st)).

Definition imageDimensionsCache_get (key : string) : M (option (Z * Z)) :=
  fun st =>
  let '(r, c) := SimpleCache.get (st_dims st) key (clock W (st_tick st)) in
  (Resolved r,
   mkState (st_html st) (st_urls st) c (st_tick st)
           (st_attempts st) (st_fetches st) (st_probes st) (st_searches st)).

Definition imageDimensionsCache_set (key : string) (v : Z * Z) : M unit :=
  fun st =>
  (Resolved tt,
   mkState (st_html st) (st_urls st)
           (SimpleCache.set (st_dims st) key v None (clock W (st_tick st)))
           (st_tick st)
           (st_attempts st) (st_fetches st) (st_probes st) (st_searches st)).

End Primitives.

Section DeclaredSize.
Variable W : World.

(** [natural || parseInt(el.getAttribute(attr) || '0') || undefined] *)
Definition declaredSize (natural : Z) (el : Dom.Element) (attr : string)
    : option Z :=
  if negb (natural =? 0) then Some natural
  else match parseInt W (str_or (Dom.attr_or_empty el attr) "0") with
       | Some n => if n =? 0 then None else Some n
       | None => None
       end.
End DeclaredSize.

(* ===================================================================== *)
(** ** The relay chain and the reachability resolver ([lib/corsProxy.ts]) *)
(* ===================================================================== *)

Module CorsProxy.

(** [interface CorsProxyService]; the request headers do not reach any
    decision of the program and are left out. *)
Record CorsProxyService := mkService {
  name : string;
  url : string -> string;
  parseResponse : jsval -> outcome jsval;
}.

(** The texts of the errors, their letters that are not ASCII written
    by code unit. *)
Definition contentTooSmall : string :=
  "Conte" +:+ cu 250 +:+ "do HTML muito pequeno ou vazio".
Definition allFailed : string :=
  "Todos os servi" +:+ cu 231 +:+ "os CORS falharam ap" +:+ cu 243
  +:+ "s ".
Definition lastErrorWas : string :=
  " tentativas. " +:+ cu 218 +:+ "ltimo erro: ".

Section WithWorld.
Variable W : World.

Definition corsProxyServices : list CorsProxyService := [
  mkService "AllOrigins"
    (fun targetUrl => "https://api.allorigins.win/get?url="
                      +:+ encodeURIComponent W targetUrl)
    (fun data => get_prop data "contents");
  mkService "CORS.SH"
    (fun targetUrl => "https://cors.sh/" +:+ targetUrl)
    Resolved;
  mkService "Proxy CORS"
    (fun targetUrl => "https://api.codetabs.com/v1/proxy?quest="
                      +:+ encodeURIComponent W targetUrl)
    Resolved;
  mkService "CORS Proxy"
    (fun targetUrl => "https://corsproxy.io/?"
                      +:+ encodeURIComponent W targetUrl)
    Resolved;
  mkService "Proxy.rs"
    (fun targetUrl => "https://proxy.cors.sh/" +:+ targetUrl)
    Resolved;
  mkService "Crossorigin.me"
    (fun targetUrl => "https://crossorigin.me/" +:+ targetUrl)
    Resolved;
  mkService "ThingProxy"
    (fun targetUrl => "https://thingproxy.freeboard.io/fetch/"
                      +:+ encodeURIComponent W targetUrl)
    Resolved
].

(** The inner [try]/[catch]: parse as JSON and unwrap, or unwrap the
    raw text when either step throws. *)
Definition unwrap (service : CorsProxyService) (responseText : string)
    : outcome jsval :=
  match JSON_parse W responseText with
  | Some jsonData =>
      match parseResponse service jsonData with
      | Resolved v => Resolved v
      | Rejected _ => parseResponse service (VStr responseText)
      end
  | None => parseResponse service (VStr responseText)
  end.

(** [x > 100] for the value of a [length] property. *)
Definition gt_100 (len : jsval) : bool :=
  match len with
  | VNum n => n >? 100
  | VUndefined | VNull | VBool _ => false
  | VStr _ | VArr _ | VObj _ => looseGt W len 100
  end.

(** [htmlContent && htmlContent.length > 100] *)
Definition acceptable (htmlContent : jsval) : bool :=
  truthy htmlContent &&
  match get_prop htmlContent "length" with
  | Resolved len => gt_100 len
  | Rejected _ => false
  end.

(** The body of the [try] block of one attempt. *)
Definition attempt (service : CorsProxyService) (target : string)
    : M jsval :=
  response <- do_fetch W "GET" (url service target) ;;
  if negb (ok response)
  then throw ("HTTP " +:+ numberToString W (status response) +:+ ": "
              +:+ statusText response)
  else
    responseText <- lift (text response) ;;
    if String.eqb responseText ""
    then throw "Resposta vazia"
    else
      htmlContent <- lift (unwrap service responseText) ;;
      if acceptable htmlContent
      then htmlCache_set W target htmlContent ;;; ret htmlContent
      else throw contentTooSmall.

(** One pass through the body of the inner loop: the [try] block with
    its [catch].  The result is the returned body, or the new value of
    [lastError]. *)
Definition tryOnce (service : CorsProxyService) (idx : nat)
    (target : string) (maxRetries : Z) (retry : Z)
    : M (jsval + string) :=
  try_catch
    (htmlContent <- attempt service target ;;
     log_attempt (mkAttempt idx retry (name service)
                    (Resolved htmlContent)) ;;;
     ret (inl htmlContent))
    (fun errorMsg =>
       log_attempt (mkAttempt idx retry (name service)
                      (Rejected errorMsg)) ;;;
       (if retry <? maxRetries - 1 then sleep else ret tt) ;;;
       ret (inr (name service +:+ ": " +:+ errorMsg))).

(** The inner [for] loop over [retry]; [n] iterations remain.  The
    result is the returned body, or [lastError] when the loop ends. *)
Fixpoint retries (service : CorsProxyService) (idx : nat)
    (target : string) (maxRetries : Z) (n : nat) (retry : Z)
    (lastError : option string) : M (jsval + option string) :=
  match n with
  | O => ret (inr lastError)
  | S n' =>
      r <- tryOnce service idx target maxRetries retry ;;
      match r with
      | inl htmlContent => ret (inl htmlContent)
      | inr e => retries service idx target maxRetries n' (retry + 1)
                   (Some e)
      end
  end.

(** The outer [for] loop over the services. *)
Fixpoint relays (services : list CorsProxyService) (idx : nat)
    (target : string) (maxRetries : Z) (lastError : option string)
    : M (jsval + option string) :=
  match services with
  | [] => ret (inr lastError)
  | service :: rest =>
      r <- retries service idx target maxRetries (Z.to_nat maxRetries) 0
             lastError ;;
      match r with
      | inl htmlContent => ret (inl htmlContent)
      | inr e => relays rest (S idx) target maxRetries e
      end
  end.

Definition exhausted (maxRetries : Z) (lastError : option string)
    : string :=
  allFailed +:+ numberToString W maxRetries
  +:+ lastErrorWas +:+ default "null" lastError.

(** [fetchWithCorsProxy(url, maxRetries = 3)] *)
Definition fetchWithCorsProxy (target : string) (maxRetries : Z)
    : M jsval :=
  cached <- htmlCache_get W target ;;
  if truthy (default VUndefined cached)
  then ret (default VUndefined cached)
  else
    r <- relays corsProxyServices 0 target maxRetries None ;;
    match r with
    | inl htmlContent => ret htmlContent
    | inr lastError => throw (exhausted maxRetries lastError)
    end.

(** [testImageUrl]: the cached verdict, or one HEAD request whose
    promise resolving counts as reachable. *)
Definition testImageUrl (imageUrl : string) : M bool :=
  cached <- imageUrlCache_get W imageUrl ;;
  match cached with
  | Some verdict => ret verdict
  | None =>
      try_catch
        (_ <- do_fetch W "HEAD" imageUrl ;;
         log_probe imageUrl ;;;
         imageUrlCache_set W imageUrl true ;;;
         ret true)
        (fun _ =>
           imageUrlCache_set W imageUrl false ;;;
           ret false)
  end.

Definition urlVariations (originalUrl : string) : list string := [
  originalUrl;
  Regex.before_first "?" originalUrl;
  Regex.replace_all
    (Regex.lits "/w_" ++ [Regex.Digits] ++ Regex.lits ",h_"
     ++ [Regex.Digits]) "/w_800,h_600" originalUrl;
  Regex.replace_all
    (Regex.lits "/resize/" ++ [Regex.Digits] ++ Regex.lits "x"
     ++ [Regex.Digits]) "/resize/800x600" originalUrl;
  Regex.replace_all
    (Regex.lits "&w=" ++ [Regex.Digits] ++ Regex.lits "&h="
     ++ [Regex.Digits]) "&w=800&h=600" originalUrl;
  Regex.replace_all (Regex.lits ".webp") ".jpg" originalUrl;
  Regex.replace_all (Regex.lits ".avif") ".jpg" originalUrl;
  Regex.replace_all
    (Regex.lits "cdn" ++ [Regex.Digits] ++ Regex.lits ".") "cdn."
    originalUrl;
  Regex.replace_all
    (Regex.lits "img" ++ [Regex.Digits] ++ Regex.lits ".") "img."
    originalUrl;
  Regex.replace_prefix "http://" "https://" originalUrl
].

(** The [for ... of] loop of [getWorkingImageUrl]. *)
Fixpoint firstWorking (variations : list string) : M (option string) :=
  match variations with
  | [] => ret None
  | variation :: rest =>
      works <- testImageUrl variation ;;
      if works then ret (Some variation) else firstWorking rest
  end.

Definition getWorkingImageUrl (originalUrl : string)
    : M (option string) :=
  firstWorking (urlVariations originalUrl).

End WithWorld.

End CorsProxy.

(* ===================================================================== *)
(** ** The image service facade ([services/imageService.ts]) *)
(* ===================================================================== *)

Module ImageService.
Import Dom CorsProxy.

Inductive Source := unsplash | upload | url | web_extraction.

(** [interface ImageSource] *)
Record ImageSource := mkImage {
  src : string;
  alt : string;
  width : option Z;
  height : option Z;
  source : option Source;
}.

Definition set_src (img : ImageSource) (s : string) : ImageSource :=
  mkImage s (alt img) (width img) (height img) (source img).
Definition set_size (img : ImageSource) (d : Z * Z) : ImageSource :=
  mkImage (src img) (alt img) (Some (fst d)) (Some (snd d)) (source img).
Definition set_source (img : ImageSource) (s : Source) : ImageSource :=
  mkImage (src img) (alt img) (width img) (height img) (Some s).

(** [interface ImageSearchOptions] *)
Record ImageSearchOptions := mkSearch {
  query : string;
  page : option Z;
  perPage : option Z;
  orientation : option string;
}.

(** [interface ImageExtractionOptions] *)
Record ImageExtractionOptions := mkExtraction {
  ex_url : string;
  minWidth : option Z;
  minHeight : option Z;
  maxResults : option Z;
}.

(** A [File], and [interface ImageUploadOptions]. *)
Record File := mkFile {
  file_type : string;
  file_size : Z;
  file_name : string;
}.

Record ImageUploadOptions := mkUpload {
  file : File;
  maxSize : option Z;
  allowedTypes : option (list string);
}.

Definition DEFAULT_MIN_WIDTH : Z := 300.
Definition DEFAULT_MIN_HEIGHT : Z := 200.
Definition DEFAULT_MAX_RESULTS : Z := 15.
Definition DEFAULT_MAX_FILE_SIZE : Z := 10 * 1024 * 1024.
Definition DEFAULT_ALLOWED_TYPES : list string :=
  ["image/jpeg"; "image/jpg"; "image/png"; "image/gif"; "image/webp"].

(** The texts of the errors, their letters that are not ASCII written
    by code unit. *)
Definition missingUnsplashKey : string :=
  "Chave de acesso do Unsplash n" +:+ cu 227 +:+ "o configurada".
Definition unsupportedType : string :=
  "Tipo de arquivo n" +:+ cu 227 +:+ "o suportado: ".
Definition maximumAllowed : string :=
  "MB. M" +:+ cu 225 +:+ "ximo permitido: ".
Definition invalidUrlError : string := "URL inv" +:+ cu 225 +:+ "lida".
Definition notAnImageError : string :=
  "URL n" +:+ cu 227 +:+ "o parece ser uma imagem v" +:+ cu 225
  +:+ "lida".
Definition unreachableError : string :=
  "Imagem n" +:+ cu 227 +:+ "o acess" +:+ cu 237 +:+ "vel".

(** [isDirectImageUrl] *)
Definition isDirectImageUrl (u : string) : bool :=
  existsb (fun ext => JS.includes (toLowerCase u) ext)
    [".jpg"; ".jpeg"; ".png"; ".webp"; ".gif"; ".bmp"; ".svg"].

Definition qualityFormats : list string :=
  [".jpg"; ".jpeg"; ".png"; ".webp"].

Definition lowQualityKeywords : list string :=
  ["thumb"; "thumbnail"; "icon"; "logo"; "sprite"; "avatar";
   "banner"; "ads"; "tracking"; "pixel"; "beacon"; "button";
   "social"; "widget"; "placeholder"; "loading"; "spinner"].

(** [isQualityImage(img, minWidth, minHeight)] *)
Definition isQualityImage (img : ImageSource) (minWidth minHeight : Z)
    : bool :=
  let srcLower := toLowerCase (src img) in
  let altLower := toLowerCase (alt img) in
  let hasQualityFormat :=
    existsb (fun ext => JS.includes srcLower ext) qualityFormats in
  let hasLowQualityKeyword :=
    existsb (fun keyword => JS.includes srcLower keyword
                            || JS.includes altLower keyword)
      lowQualityKeywords in
  let meetsSize :=
    if truthy_num (width img) && truthy_num (height img)
    then (default 0 (width img) >=? minWidth)
         && (default 0 (height img) >=? minHeight)
    else true in
  hasQualityFormat && negb hasLowQualityKeyword && meetsSize.

(** [file.name.replace(/\.[^/.]+$/, '')]: drop a final extension. *)
Fixpoint stripExtension (s : string) : string :=
  match s with
  | EmptyString => EmptyString
  | String c s' =>
      if Ascii.eqb c "."
         && negb (String.eqb s' "")
         && negb (JS.includes s' ".") && negb (JS.includes s' "/")
      then EmptyString
      else String c (stripExtension s')
  end.

(** The accumulator of the collection passes: [foundUrls] and
    [candidateImages]. *)
Definition Candidates : Type := gset string * list ImageSource.

Section WithWorld.
Variable W : World.

(** [extractFromImgTags] *)
Definition extractFromImgTags (doc : Document) (baseUrl : URL)
    (acc : Candidates) : Candidates :=
  fold_left
    (fun acc img =>
       let s := imgSource img in
       if negb (String.eqb s "")
       then
         let absoluteSrc := convertToAbsoluteUrl s baseUrl in
         pushNew absoluteSrc
           (mkImage absoluteSrc (imgAlt img)
              (declaredSize W (naturalWidth img) img "width")
              (declaredSize W (naturalHeight img) img "height")
              None)
           acc
       else acc)
    (querySelectorAll doc "img") acc.

(** [extractFromBackgroundImages] *)
Definition extractFromBackgroundImages (doc : Document) (baseUrl : URL)
    (acc : Candidates) : Candidates :=
  let elementsWithBg :=
    filter (fun el => JS.includes (attr_or_empty el "style")
                        "background-image" = true)
      (querySelectorAll doc "*") in
  fold_left
    (fun acc el =>
       match bgMatch (attr_or_empty el "style") with
       | Some captured =>
           let absoluteSrc := convertToAbsoluteUrl captured baseUrl in
           pushNew absoluteSrc
             (mkImage absoluteSrc
                (str_or (attr_or_empty el "alt")
                   (str_or (attr_or_empty el "title")
                      "Background Image"))
                None None None)
             acc
       | None => acc
       end)
    elementsWithBg acc.

(** Attribute values of selectors are written without their
    quotation marks. *)
Definition metaSelector : string :=
  "meta[property^=og:image], meta[name=twitter:image], meta[property=twitter:image]".

(** [extractFromMetaTags] *)
Definition extractFromMetaTags (doc : Document) (baseUrl : URL)
    (acc : Candidates) : Candidates :=
  fold_left
    (fun acc meta =>
       let content := attr_or_empty meta "content" in
       if negb (String.eqb content "")
       then
         let absoluteSrc := convertToAbsoluteUrl content baseUrl in
         pushNew absoluteSrc
           (mkImage absoluteSrc "Social Media Image" None None None)
           acc
       else acc)
    (querySelectorAll doc metaSelector) acc.

(** [extractImagesFromJson]: a string that looks like an image is a
    candidate; of an object only the values under image-like keys are
    visited.  The keys of an array are its indices, none of which is
    image-like, so an array contributes nothing. *)
Fixpoint extractImagesFromJson (obj : jsval) (baseUrl : URL)
    (acc : Candidates) : Candidates :=
  match obj with
  | VStr s =>
      if isDirectImageUrl s
      then
        let absoluteSrc := convertToAbsoluteUrl s baseUrl in
        pushNew absoluteSrc
          (mkImage absoluteSrc "Structured Data Image" None None None)
          acc
      else acc
  | VObj props =>
      (fix each (props : list (string * jsval)) (acc : Candidates)
         : Candidates :=
         match props with
         | [] => acc
         | (key, v) :: rest =>
             each rest
               (if imageKey key
                then extractImagesFromJson v baseUrl acc
                else acc)
         end) props acc
  | _ => acc
  end.

(** [extractFromStructuredData] *)
Definition extractFromStructuredData (doc : Document) (baseUrl : URL)
    (acc : Candidates) : Candidates :=
  fold_left
    (fun acc script =>
       match JSON_parse W (textContent script) with
       | Some data => extractImagesFromJson data baseUrl acc
       | None => acc
       end)
    (querySelectorAll doc "script[type=application/ld+json]") acc.

(** The four passes of [extractImagesFromPage], from empty
    [foundUrls] and [candidateImages]. *)
Definition collectCandidates (doc : Document) (baseUrl : URL)
    : Candidates :=
  extractFromStructuredData doc baseUrl
    (extractFromMetaTags doc baseUrl
       (extractFromBackgroundImages doc baseUrl
          (extractFromImgTags doc baseUrl (∅, [])))).

(** [loadImageDimensions] *)
Definition loadImageDimensions (s : string) : M (option (Z * Z)) :=
  cached <- imageDimensionsCache_get W s ;;
  match cached with
  | Some d => ret (Some d)
  | None =>
      loaded <- do_loadImage W s ;;
      match loaded with
      | Some dimensions =>
          imageDimensionsCache_set W s dimensions ;;;
          ret (Some dimensions)
      | None => ret None
      end
  end.

(** [searchUnsplash].  The reply of the search API is read without
    validation.  The model follows it on replies of the API's shape:
    [urls.regular] a string, [alt_description] and [description]
    strings or absent, [width] and [height] numbers or absent.  For
    a photo of another shape the source builds a descriptor around
    the ill-typed value, which [ImageSource] cannot hold; the model
    stops there with an error of its own, and no theorem is about that
    case. *)
Definition outsideModel : string := "ill-typed photo record".

(** A string, or [null] or [undefined], which [||] passes over as it
    does the empty string. *)
Definition typedText (v : jsval) : option string :=
  match v with
  | VStr s => Some s
  | VNull | VUndefined => Some ""
  | _ => None
  end.

Definition typedNumber (v : jsval) : option (option Z) :=
  match v with
  | VNum n => Some (Some n)
  | VNull | VUndefined => Some None
  | _ => None
  end.

Definition photoToImage (img : jsval) : outcome ImageSource :=
  match get_prop img "urls" with
  | Rejected e => Rejected e
  | Resolved urls =>
      match get_prop urls "regular" with
      | Rejected e => Rejected e
      | Resolved (VStr regular) =>
          match get_prop img "alt_description",
                get_prop img "description",
                get_prop img "width", get_prop img "height" with
          | Resolved a, Resolved d, Resolved w, Resolved h =>
              match typedText a, typedText d,
                    typedNumber w, typedNumber h with
              | Some a, Some d, Some w, Some h =>
                  Resolved
                    (mkImage regular
                       (str_or a (str_or d "Imagem do Unsplash"))
                       w h (Some unsplash))
              | _, _, _, _ => Rejected outsideModel
              end
          | _, _, _, _ => Rejected outsideModel
          end
      | Resolved _ => Rejected outsideModel
      end
  end.

Fixpoint mapPhotos (items : list jsval) : outcome (list ImageSource) :=
  match items with
  | [] => Resolved []
  | img :: rest =>
      match photoToImage img with
      | Rejected e => Rejected e
      | Resolved i =>
          match mapPhotos rest with
          | Rejected e => Rejected e
          | Resolved more => Resolved (i :: more)
          end
      end
  end.

Definition searchUrl (key : string) (options : ImageSearchOptions)
    : string :=
  "https://api.unsplash.com/search/photos?"
  +:+ urlSearchParams W
        ([("query", trim (query options));
          ("page", numberToString W (default 1 (page options)));
          ("per_page", numberToString W (default 30 (perPage options)));
          ("client_id", key)]
         ++ match orientation options with
            | Some o => if String.eqb o "" then [] else [("orientation", o)]
            | None => []
            end)%list.

Definition searchUnsplash (options : ImageSearchOptions)
    : M (list ImageSource) :=
  match env W "VITE_UNSPLASH_ACCESS_KEY" with
  | None => throw missingUnsplashKey
  | Some key =>
      if String.eqb key ""
      then throw missingUnsplashKey
      else
        response <- do_fetch W "GET" (searchUrl key options) ;;
        if negb (ok response)
        then throw ("Erro na API do Unsplash: " +:+ statusText response)
        else
          data <- lift (json response) ;;
          results <- lift (get_prop data "results") ;;
          match results with
          | VArr items => lift (mapPhotos items)
          | VUndefined => throw (cannotRead "undefined" "map")
          | VNull => throw (cannotRead "null" "map")
          | _ => throw "data.results.map is not a function"
          end
  end.

(** [uploadImage] *)
Definition uploadImage (options : ImageUploadOptions) : M ImageSource :=
  let f := file options in
  let maxSize := default DEFAULT_MAX_FILE_SIZE (maxSize options) in
  let allowedTypes :=
    default DEFAULT_ALLOWED_TYPES (allowedTypes options) in
  if negb (existsb (String.eqb (file_type f)) allowedTypes)
  then throw (unsupportedType +:+ file_type f)
  else if file_size f >? maxSize
  then throw ("Arquivo muito grande: " +:+ showMegabytes W (file_size f)
              +:+ maximumAllowed +:+ megabytesToString W maxSize
              +:+ "MB")
  else
    st <- get_state ;;
    tick ;;;
    match readAsDataURL W (st_tick st) (file_name f) with
    | None => throw "Erro ao ler arquivo"
    | Some dataUrl =>
        loaded <- do_loadImage W dataUrl ;;
        match loaded with
        | None => throw "Erro ao carregar imagem"
        | Some d =>
            ret (mkImage dataUrl (stripExtension (file_name f))
                   (Some (fst d)) (Some (snd d)) (Some upload))
        end
    end.

(** What [if (!workingUrl)] lets through: [null] and the empty string
    are both falsy. *)
Definition usable (working : option string) : option string :=
  match working with
  | Some workingUrl =>
      if String.eqb workingUrl "" then None else Some workingUrl
  | None => None
  end.

(** [processImageUrl] *)
Definition processImageUrl (u : string) : M ImageSource :=
  if negb (validUrl W u) then throw invalidUrlError
  else if negb (existsb (fun ext => JS.includes (toLowerCase u) ext)
                  [".jpg"; ".jpeg"; ".png"; ".webp"; ".gif"; ".bmp"])
  then throw notAnImageError
  else
    working <- getWorkingImageUrl W u ;;
    match usable working with
    | None => throw unreachableError
    | Some workingUrl =>
        dimensions <- loadImageDimensions workingUrl ;;
        ret (mkImage workingUrl (str_or (baseName u) "Imagem")
               (fst <$> dimensions) (snd <$> dimensions) (Some url))
    end.

(** The [for ... of] loop that resolves and filters the candidates. *)
Fixpoint filterQuality (candidateImages : list ImageSource)
    (minWidth minHeight maxResults : Z)
    (qualityImages : list ImageSource) : M (list ImageSource) :=
  match candidateImages with
  | [] => ret qualityImages
  | img :: rest =>
      working <- getWorkingImageUrl W (src img) ;;
      match usable working with
      | None =>
          filterQuality rest minWidth minHeight maxResults qualityImages
      | Some workingUrl =>
          let img := set_src img workingUrl in
          img <- (if negb (truthy_num (width img))
                     || negb (truthy_num (height img))
                  then
                    dimensions <- loadImageDimensions (src img) ;;
                    match dimensions with
                    | Some d => ret (set_size img d)
                    | None => ret img
                    end
                  else ret img) ;;
          let qualityImages :=
            if isQualityImage img minWidth minHeight
            then (qualityImages ++ [set_source img web_extraction])%list
            else qualityImages in
          if Z.of_nat (length qualityImages) >=? maxResults
          then ret qualityImages
          else filterQuality rest minWidth minHeight maxResults
                 qualityImages
      end
  end.

(** [extractImagesFromPage]; the relay chain runs with its default of
    three retries. *)
Definition extractImagesFromPage (options : ImageExtractionOptions)
    : M (list ImageSource) :=
  let u := ex_url options in
  let minWidth := default DEFAULT_MIN_WIDTH (minWidth options) in
  let minHeight := default DEFAULT_MIN_HEIGHT (minHeight options) in
  let maxResults := default DEFAULT_MAX_RESULTS (maxResults options) in
  if negb (validUrl W u) then throw invalidUrlError
  else if isDirectImageUrl u
  then imageResult <- processImageUrl u ;; ret [imageResult]
  else
    htmlContent <- fetchWithCorsProxy W u 3 ;;
    let doc := parseFromString W htmlContent in
    let baseUrl := mkURL (urlProtocol W u) (urlHost W u) in
    let '(_, candidateImages) := collectCandidates doc baseUrl in
    filterQuality candidateImages minWidth minHeight maxResults [].

End WithWorld.

End ImageService.

(* ===================================================================== *)
(** ** The page extractor hook ([hooks/useImageExtractor.ts]) *)
(* ===================================================================== *)

Module ImageExtractor.
Import Dom.

(** [interface ExtractedImage] *)
Record ExtractedImage := mkExtracted {
  src : string;
  alt : string;
  width : option Z;
  height : option Z;
}.

Definition qualityFormats : list string :=
  [".jpg"; ".jpeg"; ".png"; ".webp"].

Definition lowQualityKeywords : list string :=
  ["thumb-"; "thumbnail"; "icon-"; "logo-"; "sprite-"; "avatar-";
   "banner-"; "ads-"; "tracking-"; "pixel-"; "beacon-"; "button-";
   "social-"; "widget-"; "placeholder-"; "loading-"; "spinner-";
   "separator-"; "divider-"; "watermark-"; "copyright-"; "signature-";
   "badge-"; "medal-"; "flag-"; "emoji-"; "emoticon-"; "smiley-"].

(** [isQualityImage(img)], without its console output. *)
Definition isQualityImage (img : ExtractedImage) : bool :=
  let srcLower := toLowerCase (src img) in
  let altLower := toLowerCase (alt img) in
  let hasQualityFormat :=
    existsb (fun ext => JS.includes srcLower ext) qualityFormats in
  let matchedKeywords :=
    List.filter (fun keyword => JS.includes srcLower keyword
                                || JS.includes altLower keyword)
      lowQualityKeywords in
  let hasLowQualityKeyword := (0 <? length matchedKeywords)%nat in
  let minWidth := 300 in
  let minHeight := 200 in
  let meetsSize :=
    if truthy_num (width img) && truthy_num (height img)
    then (default 0 (width img) >=? minWidth)
         && (default 0 (height img) >=? minHeight)
    else true in
  hasQualityFormat && negb hasLowQualityKeyword && meetsSize.

(** [isDirectImageUrl] *)
Definition isDirectImageUrl (u : string) : bool :=
  existsb (fun ext => JS.includes (toLowerCase u) ext)
    [".jpg"; ".jpeg"; ".png"; ".webp"; ".gif"; ".bmp"; ".svg"].

Definition Candidates : Type := gset string * list ExtractedImage.

(** The selectors of the fifth pass (attribute values are written
    without their quotation marks here and in the other selectors). *)
Definition ecommerceSelectors : list string :=
  ["picture img"; "[data-src]"; ".product-image img";
   ".gallery-image img"; ".carousel-item img"; ".slider-item img";
   ".zoom-image"; "[class*=image] img"; "[id*=image] img"].

Section WithWorld.
Variable W : World.

(** Pass 1: [<img>] elements. *)
Definition fromImgTags (doc : Document) (baseUrl : URL)
    (acc : Candidates) : Candidates :=
  fold_left
    (fun acc img =>
       let s := imgSource img in
       if negb (String.eqb s "")
       then
         let absoluteSrc := convertToAbsoluteUrl s baseUrl in
         pushNew absoluteSrc
           (mkExtracted absoluteSrc (imgAlt img)
              (declaredSize W (naturalWidth img) img "width")
              (declaredSize W (naturalHeight img) img "height"))
           acc
       else acc)
    (querySelectorAll doc "img") acc.

(** Pass 2: inline [background-image] declarations. *)
Definition fromBackgroundImages (doc : Document) (baseUrl : URL)
    (acc : Candidates) : Candidates :=
  let elementsWithBg :=
    filter (fun el => JS.includes (attr_or_empty el "style")
                        "background-image" = true)
      (querySelectorAll doc "*") in
  fold_left
    (fun acc el =>
       match bgMatch (attr_or_empty el "style") with
       | Some captured =>
           let absoluteSrc := convertToAbsoluteUrl captured baseUrl in
           pushNew absoluteSrc
             (mkExtracted absoluteSrc
                (str_or (attr_or_empty el "alt")
                   (str_or (attr_or_empty el "title")
                      "Background Image"))
                None None)
             acc
       | None => acc
       end)
    elementsWithBg acc.

Definition metaSelector : string :=
  "meta[property^=og:image], meta[name=twitter:image], meta[property=twitter:image]".

(** Pass 3: OpenGraph and Twitter meta tags. *)
Definition fromMetaTags (doc : Document) (baseUrl : URL)
    (acc : Candidates) : Candidates :=
  fold_left
    (fun acc meta =>
       let content := attr_or_empty meta "content" in
       if negb (String.eqb content "")
       then
         let absoluteSrc := convertToAbsoluteUrl content baseUrl in
         pushNew absoluteSrc
           (mkExtracted absoluteSrc "Social Media Image" None None)
           acc
       else acc)
    (querySelectorAll doc metaSelector) acc.

(** Pass 4: the local [extractImagesFromJson(obj, path)]. *)
Fixpoint extractImagesFromJson (obj : jsval) (path : string)
    (baseUrl : URL) (acc : Candidates) : Candidates :=
  match obj with
  | VStr s =>
      if JS.includes s ".jpg" || JS.includes s ".jpeg"
         || JS.includes s ".png" || JS.includes s ".webp"
      then
        let absoluteSrc := convertToAbsoluteUrl s baseUrl in
        pushNew absoluteSrc
          (mkExtracted absoluteSrc
             ("Structured Data Image (" +:+ path +:+ ")") None None)
          acc
      else acc
  | VObj props =>
      (fix each (props : list (string * jsval)) (acc : Candidates)
         : Candidates :=
         match props with
         | [] => acc
         | (key, v) :: rest =>
             each rest
               (if imageKey key
                then extractImagesFromJson v key baseUrl acc
                else acc)
         end) props acc
  | _ => acc
  end.

Definition fromStructuredData (doc : Document) (baseUrl : URL)
    (acc : Candidates) : Candidates :=
  fold_left
    (fun acc script =>
       match JSON_parse W (textContent script) with
       | Some data => extractImagesFromJson data "" baseUrl acc
       | None => acc
       end)
    (querySelectorAll doc "script[type=application/ld+json]") acc.

(** Pass 5: the e-commerce selectors. *)
Definition fromEcommerceSelectors (doc : Document) (baseUrl : URL)
    (acc : Candidates) : Candidates :=
  fold_left
    (fun acc selector =>
       fold_left
         (fun acc el =>
            let s := str_or (prop_src el)
                       (str_or (attr_or_empty el "data-src")
                          (attr_or_empty el "data-original")) in
            if negb (String.eqb s "")
            then
              let absoluteSrc := convertToAbsoluteUrl s baseUrl in
              pushNew absoluteSrc
                (mkExtracted absoluteSrc
                   (str_or (prop_alt el)
                      (str_or (attr_or_empty el "title")
                         "Product Image"))
                   (declaredSize W (naturalWidth el) el "width")
                   (declaredSize W (naturalHeight el) el "height"))
                acc
            else acc)
         (querySelectorAll doc selector) acc)
    ecommerceSelectors acc.

(** The candidate collection of [extractImages], from empty
    [foundUrls] and [candidateImages]. *)
Definition collectCandidates (doc : Document) (baseUrl : URL)
    : Candidates :=
  fromEcommerceSelectors doc baseUrl
    (fromStructuredData doc baseUrl
       (fromMetaTags doc baseUrl
          (fromBackgroundImages doc baseUrl
             (fromImgTags doc baseUrl (∅, []))))).

End WithWorld.

End ImageExtractor.


(* ===================================================================== *)
(** ** The hook's pipeline ([useImageExtractor], [extractImages]) *)
(* ===================================================================== *)

Module UseImageExtractor.
Import Dom CorsProxy ImageExtractor.

(** The hook's React state, [loading] and [error]. *)
Record HookState := mkHook {
  loading : bool;
  error : option string;
}.

Definition qualityError : string :=
  "A imagem n" +:+ cu 227 +:+ "o atende aos crit" +:+ cu 233
  +:+ "rios de qualidade (m" +:+ cu 237
  +:+ "nimo 300x200px, formato JPG/PNG/WebP)".

Definition set_src (img : ExtractedImage) (s : string) : ExtractedImage :=
  mkExtracted s (alt img) (width img) (height img).

Definition set_size (img : ExtractedImage) (d : Z * Z) : ExtractedImage :=
  mkExtracted (src img) (alt img) (Some (fst d)) (Some (snd d)).

Section WithWorld.
Variable W : World.

(** The message of the [TypeError] thrown by [new URL(url)]. *)
Variable invalidUrlMessage : string.

(** [loadImageDimensions]; [None] of the decoder covers [onerror] and
    the five-second timeout. *)
Definition loadImageDimensions (s : string) : M (option (Z * Z)) :=
  cached <- imageDimensionsCache_get W s ;;
  match cached with
  | Some d => ret (Some d)
  | None =>
      loaded <- do_loadImage W s ;;
      match loaded with
      | Some dimensions =>
          imageDimensionsCache_set W s dimensions ;;;
          ret (Some dimensions)
      | None => ret None
      end
  end.

(** The [for ... of] loop over the candidates. *)
Fixpoint filterQuality (candidateImages : list ExtractedImage)
    (qualityImages : list ExtractedImage) : M (list ExtractedImage) :=
  match candidateImages with
  | [] => ret qualityImages
  | img :: rest =>
      workingUrl <- getWorkingImageUrl W (src img) ;;
      match ImageService.usable workingUrl with
      | None => filterQuality rest qualityImages
      | Some workingUrl =>
          let img := set_src img workingUrl in
          img <- (if negb (truthy_num (width img))
                     || negb (truthy_num (height img))
                  then
                    dimensions <- loadImageDimensions (src img) ;;
                    match dimensions with
                    | Some d => ret (set_size img d)
                    | None => ret img
                    end
                  else ret img) ;;
          let qualityImages :=
            if isQualityImage img
            then (qualityImages ++ [img])%list
            else qualityImages in
          if Z.of_nat (length qualityImages) >=? 15
          then ret qualityImages
          else filterQuality rest qualityImages
      end
  end.

(** The [try] block: the images returned and the error it set, if
    it set one. *)
Definition tryBlock (u : string)
    : M (list ExtractedImage * option string) :=
  if negb (validUrl W u) then throw invalidUrlMessage
  else if isDirectImageUrl u
  then
    dimensions <- loadImageDimensions u ;;
    let directImage :=
      mkExtracted u (str_or (baseName u) "Direct Image")
        (fst <$> dimensions) (snd <$> dimensions) in
    if isQualityImage directImage
    then ret ([directImage], None)
    else ret ([], Some qualityError)
  else
    htmlContent <- fetchWithCorsProxy W u 3 ;;
    let doc := parseFromString W htmlContent in
    let baseUrl := mkURL (urlProtocol W u) (urlHost W u) in
    let '(_, candidateImages) := collectCandidates W doc baseUrl in
    images <- filterQuality candidateImages [] ;;
    ret (images, None).

(** [extractImages(url)]: the images and the hook's state once the
    call has settled.  [setLoading(true)] and [setError(null)] come
    first, the [catch] turns a failure into the empty list and its
    message, and the [finally] clears [loading]. *)
Definition extractImages (u : string)
    : M (list ExtractedImage * HookState) :=
  try_catch
    (r <- tryBlock u ;; ret (fst r, mkHook false (snd r)))
    (fun errorMessage => ret ([], mkHook false (Some errorMessage))).

End WithWorld.

End UseImageExtractor.

(* ===================================================================== *)
(** ** The service hook ([hooks/useImageService.ts]) and the page state *)
(* ===================================================================== *)

Module UseImageService.
Import ImageService.

(** The eight pieces of React state of [useImageService]. *)
Record HookState := mkHook {
  searchResults : list ImageSource;
  isSearching : bool;
  searchError : option string;
  extractedImages : list ImageSource;
  isExtracting : bool;
  extractionError : option string;
  isUploading : bool;
  uploadError : option string;
}.

Definition initialHook : HookState :=
  mkHook [] false None [] false None false None.

(** The state setters. *)
Definition setSearch (h : HookState) (results : list ImageSource)
    (busy : bool) (err : option string) : HookState :=
  mkHook results busy err (extractedImages h) (isExtracting h)
    (extractionError h) (isUploading h) (uploadError h).

Definition setExtraction (h : HookState) (images : list ImageSource)
    (busy : bool) (err : option string) : HookState :=
  mkHook (searchResults h) (isSearching h) (searchError h) images busy err
    (isUploading h) (uploadError h).

Definition setUpload (h : HookState) (busy : bool) (err : option string)
    : HookState :=
  mkHook (searchResults h) (isSearching h) (searchError h)
    (extractedImages h) (isExtracting h) (extractionError h) busy err.

Definition noQualityImage : string :=
  "Nenhuma imagem de qualidade encontrada nesta p" +:+ cu 225
  +:+ "gina".

Section WithWorld.
Variable W : World.

(** [searchUnsplash(options)]: the state once the call has settled. *)
Definition searchUnsplash (options : ImageSearchOptions)
    (h : HookState) : M HookState :=
  try_catch
    (results <- ImageService.searchUnsplash W options ;;
     ret (setSearch h results false None))
    (fun errorMessage =>
       ret (setSearch h [] false (Some errorMessage))).

(** [extractFromPage(options)] *)
Definition extractFromPage (options : ImageExtractionOptions)
    (h : HookState) : M HookState :=
  try_catch
    (results <- ImageService.extractImagesFromPage W options ;;
     ret (setExtraction h results false
            (if (length results =? 0)%nat then Some noQualityImage
             else None)))
    (fun errorMessage =>
       ret (setExtraction h [] false (Some errorMessage))).

(** [processImageUrl(url)]: the returned image, [None] for [null]. *)
Definition processImageUrl (u : string) (h : HookState)
    : M (option ImageSource * HookState) :=
  try_catch
    (result <- ImageService.processImageUrl W u ;;
     ret (Some result,
          setExtraction h (extractedImages h) false None))
    (fun errorMessage =>
       ret (None,
            setExtraction h (extractedImages h) false
              (Some errorMessage))).

(** [uploadImage(options)] *)
Definition uploadImage (options : ImageUploadOptions) (h : HookState)
    : M (option ImageSource * HookState) :=
  try_catch
    (result <- ImageService.uploadImage W options ;;
     ret (Some result, setUpload h false None))
    (fun errorMessage =>
       ret (None, setUpload h false (Some errorMessage))).

End WithWorld.

(** [clearSearchResults] and [clearExtractedImages] *)
Definition clearSearchResults (h : HookState) : HookState :=
  setSearch h [] (isSearching h) None.

Definition clearExtractedImages (h : HookState) : HookState :=
  setExtraction h [] (isExtracting h) None.

End UseImageService.

(** The slides of the page ([pages/Home.tsx]). *)
Module Home.

(** A slide as the object it is at run time. *)
Definition Slide : Type := gmap string jsval.

(** [{ ...s, ...newProps }] *)
Definition spread (s newProps : Slide) : Slide := newProps ∪ s.

(** [s.id === slideId] *)
Definition hasId (s : Slide) (slideId : Z) : bool :=
  match s !! "id" with
  | Some (VNum n) => n =? slideId
  | _ => false
  end.

(** The updater that [handleSlideUpdate] passes to [setSlides]. *)
Definition handleSlideUpdate (slideId : Z) (newProps : Slide)
    (prevSlides : list Slide) : list Slide :=
  map (fun s => if hasId s slideId then spread s newProps else s)
    prevSlides.

End Home.
(* ===================================================================== *)
(** ** The AI content generator ([lib/ai.ts]) *)
(* ===================================================================== *)

Module AI.

(** The output type of [aiSlideSchema]. *)
Record Slide := mkSlide {
  text : string;
  imageQuery : string;
}.

(** An element of the generator's result. *)
Record SlideWithImage := mkSlideWithImage {
  id : Z;
  slideText : string;
  imageUrl : string;
}.

(** zod's [z.string()]: any string, the empty one included. *)
Definition z_string (v : jsval) : option string :=
  match v with
  | VStr s => Some s
  | _ => None
  end.

(** zod's [z.array(item)] *)
Fixpoint z_array {A} (item : jsval -> option A) (items : list jsval)
    : option (list A) :=
  match items with
  | [] => Some []
  | v :: rest =>
      match item v, z_array item rest with
      | Some a, Some more => Some (a :: more)
      | _, _ => None
      end
  end.

(** [aiSlideSchema = z.object({ text: z.string(), imageQuery: z.string() })];
    unknown keys are dropped. *)
Definition aiSlideSchema (v : jsval) : option Slide :=
  match v with
  | VObj props =>
      match z_string (lookup_prop props "text"),
            z_string (lookup_prop props "imageQuery") with
      | Some t, Some q => Some (mkSlide t q)
      | _, _ => None
      end
  | _ => None
  end.

(** [aiResponseSchema(slideCount)]:
    [z.object({ slides: z.array(aiSlideSchema).min(n).max(n) })];
    the result of [safeParse], [None] when [success] is false. *)
Definition aiResponseSchema (slideCount : Z) (content : jsval)
    : option (list Slide) :=
  match content with
  | VObj props =>
      match lookup_prop props "slides" with
      | VArr items =>
          if (Z.of_nat (length items) >=? slideCount)
             && (Z.of_nat (length items) <=? slideCount)
          then z_array aiSlideSchema items
          else None
      | _ => None
      end
  | _ => None
  end.

Definition placeholderNoKey : string :=
  "https://images.pexels.com/photos/3184418/pexels-photo-3184418.jpeg?auto=compress&cs=tinysrgb&w=1260&h=750&dpr=2".
Definition fallbackNoResults : string :=
  "https://images.pexels.com/photos/3183197/pexels-photo-3183197.jpeg?auto=compress&cs=tinysrgb&w=1260&h=750&dpr=2".
Definition fallbackOnError : string :=
  "https://images.pexels.com/photos/3184339/pexels-photo-3184339.jpeg?auto=compress&cs=tinysrgb&w=1260&h=750&dpr=2".

Definition schemaError : string :=
  "A resposta da IA n" +:+ cu 227
  +:+ "o corresponde ao formato esperado.".

(** The text after the name of the model in the missing-key error. *)
Definition notFound : string := " n" +:+ cu 227 +:+ "o foi encontrada.".

(** [arr[0]] *)
Definition first_item (v : jsval) : outcome jsval :=
  match v with
  | VUndefined => Rejected (cannotRead "undefined" "0")
  | VNull => Rejected (cannotRead "null" "0")
  | VArr items => Resolved (hd VUndefined items)
  | VObj props => Resolved (lookup_prop props "0")
  | VStr s =>
      Resolved (match s with
                | EmptyString => VUndefined
                | String c _ => VStr (String c EmptyString)
                end)
  | VBool _ | VNum _ => Resolved VUndefined
  end.

Definition andThen {A B} (o : outcome A) (k : A -> outcome B)
    : outcome B :=
  match o with
  | Resolved a => k a
  | Rejected e => Rejected e
  end.

Section WithWorld.
Variable W : World.

Definition UNSPLASH_ACCESS_KEY : string :=
  default "" (env W "VITE_UNSPLASH_ACCESS_KEY").

(** [unsplashResponseSchema]: the [urls.regular] of every result. *)
Definition unsplashImageSchema (v : jsval) : option string :=
  match v with
  | VObj props =>
      match lookup_prop props "urls" with
      | VObj urls =>
          match lookup_prop urls "regular" with
          | VStr regular => if zodUrl W regular then Some regular else None
          | _ => None
          end
      | _ => None
      end
  | _ => None
  end.

Definition unsplashResponseSchema (data : jsval) : option (list string) :=
  match data with
  | VObj props =>
      match lookup_prop props "results" with
      | VArr items => z_array unsplashImageSchema items
      | _ => None
      end
  | _ => None
  end.

Definition searchUrl (query : string) : string :=
  "https://api.unsplash.com/search/photos?query="
  +:+ encodeURIComponent W query +:+ "&per_page=1&client_id="
  +:+ UNSPLASH_ACCESS_KEY.

(** [fetchImageForQuery] *)
Definition fetchImageForQuery (query : string) : M string :=
  log_search query ;;;
  if String.eqb UNSPLASH_ACCESS_KEY ""
  then ret placeholderNoKey
  else
    try_catch
      (response <- do_fetch W "GET" (searchUrl query) ;;
       if negb (ok response)
       then throw ("Unsplash API error: " +:+ statusText response)
       else
         data <- lift (json response) ;;
         match unsplashResponseSchema data with
         | Some (regular :: _) => ret regular
         | _ => ret fallbackNoResults
         end)
      (fun _ => ret fallbackOnError).

(** [getApiConfig]: the endpoint of the provider, or [None] when the
    provider is unknown or its key is missing.  The request body,
    which carries the prompt, reaches the provider only. *)
Definition keyPresent (variable : string) : option string :=
  match env W variable with
  | Some k => if String.eqb k "" then None else Some k
  | None => None
  end.

Definition getApiConfig (model : string) : option string :=
  if String.eqb model "OpenAI" then
    match keyPresent "VITE_OPENAI_API_KEY" with
    | Some _ => Some "https://api.openai.com/v1/chat/completions"
    | None => None
    end
  else if String.eqb model "Groq" then
    match keyPresent "VITE_GROQ_API_KEY" with
    | Some _ => Some "https://api.groq.com/openai/v1/chat/completions"
    | None => None
    end
  else if String.eqb model "Gemini" then
    match keyPresent "VITE_GEMINI_API_KEY" with
    | Some k =>
        Some ("https://generativelanguage.googleapis.com/v1beta/models/gemini-1.5-flash-latest:generateContent?key="
              +:+ k)
    | None => None
    end
  else None.

(** [JSON.parse(v)]; a value that is not a string is converted first. *)
Definition parseAny (v : jsval) : outcome jsval :=
  let s := match v with VStr s => s | _ => ToString W v end in
  match JSON_parse W s with
  | Some content => Resolved content
  | None => Rejected (syntaxError W s)
  end.

(** The provider-specific unwrapping of the reply. *)
Definition replyContent (model : string) (reply : jsval)
    : outcome jsval :=
  if String.eqb model "Gemini"
  then
    andThen (get_prop reply "candidates") (fun candidates =>
    andThen (first_item candidates) (fun candidate =>
    andThen (get_prop candidate "content") (fun content =>
    andThen (get_prop content "parts") (fun parts =>
    andThen (first_item parts) (fun part =>
    andThen (get_prop part "text") parseAny)))))
  else
    andThen (get_prop reply "choices") (fun choices =>
    andThen (first_item choices) (fun choice =>
    andThen (get_prop choice "message") (fun message =>
    andThen (get_prop message "content") parseAny))).

(** [generatedSlides.map(async (slide, index) => ...)] under
    [Promise.all]: the lookups are started in index order, and each
    result depends on the answer to its own request only. *)
Fixpoint resolveImages (slides : list Slide) (index : Z)
    : M (list SlideWithImage) :=
  match slides with
  | [] => ret []
  | slide :: rest =>
      image <- fetchImageForQuery (imageQuery slide) ;;
      more <- resolveImages rest (index + 1) ;;
      ret (mkSlideWithImage (index + 1) (text slide) image :: more)
  end.

(** [generateCarouselContent(carouselTheme, model, slideCount = 5)] *)
Definition generateCarouselContent (carouselTheme model : string)
    (slideCount : Z) : M (list SlideWithImage) :=
  match getApiConfig model with
  | None =>
      throw ("A chave de API para o modelo " +:+ model
             +:+ notFound)
  | Some endpoint =>
      response <- do_fetch W "POST" endpoint ;;
      if negb (ok response)
      then
        errorBody <- lift (responseBody response) ;;
        throw ("Erro na API de IA (" +:+ model +:+ "): "
               +:+ statusText response +:+ " - " +:+ errorBody)
      else
        reply <- lift (json response) ;;
        content <- lift (replyContent model reply) ;;
        match aiResponseSchema slideCount content with
        | None => throw schemaError
        | Some generatedSlides => resolveImages generatedSlides 0
        end
  end.

End WithWorld.

End AI.

(* ===================================================================== *)
(** ** Auxiliary definitions for the statements *)
(* ===================================================================== *)

(** A world in which nothing outside answers: every request fails, no
    image decodes, no text is JSON, and no key is configured. *)
Definition silentWorld : World := {|
  clock := fun n => Z.of_nat n;
  fetch := fun _ _ _ => Rejected "Failed to fetch";
  loadImage := fun _ _ => None;
  JSON_parse := fun _ => None;
  syntaxError := fun _ => "Unexpected token";
  encodeURIComponent := fun s => s;
  validUrl := fun s => startsWith s "http";
  urlProtocol := fun _ => "https:";
  urlHost := fun _ => "site.org";
  looseGt := fun _ _ => false;
  parseInt := fun _ => None;
  parseFromString := fun _ => Dom.mkDocument (fun _ => []);
  urlSearchParams := fun _ => "";
  showMegabytes := fun _ => "";
  megabytesToString := fun _ => "";
  readAsDataURL := fun _ _ => None;
  env := fun _ => None;
  zodUrl := fun s => startsWith s "http";
  ToString := fun _ => "";
|}.

(** Replacing single oracles of a world. *)
Definition with_fetch (W : World)
    (f : nat -> string -> string -> outcome Response) : World := {|
  clock := clock W; fetch := f; loadImage := loadImage W;
  JSON_parse := JSON_parse W; syntaxError := syntaxError W;
  encodeURIComponent := encodeURIComponent W;
  validUrl := validUrl W; urlProtocol := urlProtocol W;
  urlHost := urlHost W; looseGt := looseGt W; parseInt := parseInt W;
  parseFromString := parseFromString W;
  urlSearchParams := urlSearchParams W; showMegabytes := showMegabytes W;
  megabytesToString := megabytesToString W;
  readAsDataURL := readAsDataURL W; env := env W; zodUrl := zodUrl W;
  ToString := ToString W;
|}.

Definition with_env (W : World) (e : string -> option string) : World := {|
  clock := clock W; fetch := fetch W; loadImage := loadImage W;
  JSON_parse := JSON_parse W; syntaxError := syntaxError W;
  encodeURIComponent := encodeURIComponent W;
  validUrl := validUrl W; urlProtocol := urlProtocol W;
  urlHost := urlHost W; looseGt := looseGt W; parseInt := parseInt W;
  parseFromString := parseFromString W;
  urlSearchParams := urlSearchParams W; showMegabytes := showMegabytes W;
  megabytesToString := megabytesToString W;
  readAsDataURL := readAsDataURL W; env := e; zodUrl := zodUrl W;
  ToString := ToString W;
|}.

Definition with_JSON_parse (W : World) (p : string -> option jsval)
    : World := {|
  clock := clock W; fetch := fetch W; loadImage := loadImage W;
  JSON_parse := p; syntaxError := syntaxError W;
  encodeURIComponent := encodeURIComponent W;
  validUrl := validUrl W; urlProtocol := urlProtocol W;
  urlHost := urlHost W; looseGt := looseGt W; parseInt := parseInt W;
  parseFromString := parseFromString W;
  urlSearchParams := urlSearchParams W; showMegabytes := showMegabytes W;
  megabytesToString := megabytesToString W;
  readAsDataURL := readAsDataURL W; env := env W; zodUrl := zodUrl W;
  ToString := ToString W;
|}.

Definition with_document (W : World) (d : jsval -> Dom.Document)
    : World := {|
  clock := clock W; fetch := fetch W; loadImage := loadImage W;
  JSON_parse := JSON_parse W; syntaxError := syntaxError W;
  encodeURIComponent := encodeURIComponent W;
  validUrl := validUrl W; urlProtocol := urlProtocol W;
  urlHost := urlHost W; looseGt := looseGt W; parseInt := parseInt W;
  parseFromString := d;
  urlSearchParams := urlSearchParams W; showMegabytes := showMegabytes W;
  megabytesToString := megabytesToString W;
  readAsDataURL := readAsDataURL W; env := env W; zodUrl := zodUrl W;
  ToString := ToString W;
|}.

Definition with_loadImage (W : World)
    (l : nat -> string -> option (Z * Z)) : World := {|
  clock := clock W; fetch := fetch W; loadImage := l;
  JSON_parse := JSON_parse W; syntaxError := syntaxError W;
  encodeURIComponent := encodeURIComponent W;
  validUrl := validUrl W; urlProtocol := urlProtocol W;
  urlHost := urlHost W; looseGt := looseGt W; parseInt := parseInt W;
  parseFromString := parseFromString W;
  urlSearchParams := urlSearchParams W; showMegabytes := showMegabytes W;
  megabytesToString := megabytesToString W;
  readAsDataURL := readAsDataURL W; env := env W; zodUrl := zodUrl W;
  ToString := ToString W;
|}.

(** A successful response carrying the given text and JSON value. *)
Definition okResponse (body : string) (value : jsval) : Response :=
  mkResponse true 200 "OK" (Resolved body) (Resolved value).

Module AISpec.
Import AI.

(** What the specification asks of one element of [slides], with
    non-emptiness left out: an object with a string [text] and a string
    [imageQuery]. *)
Definition slide_shaped (v : jsval) : Prop :=
  exists props t q,
    v = VObj props /\ lookup_prop props "text" = VStr t
    /\ lookup_prop props "imageQuery" = VStr q.

(** The specification's shape of a reply: an object whose [slides] is an
    array of exactly [slideCount] slide-shaped elements. *)
Definition reply_shaped (slideCount : Z) (content : jsval) : Prop :=
  exists props items,
    content = VObj props /\ lookup_prop props "slides" = VArr items
    /\ Z.of_nat (length items) = slideCount
    /\ Forall slide_shaped items.

(** The specification's wording, with non-emptiness. *)
Definition nonempty_slide_shaped (v : jsval) : Prop :=
  exists props t q,
    v = VObj props /\ lookup_prop props "text" = VStr t
    /\ lookup_prop props "imageQuery" = VStr q
    /\ t <> "" /\ q <> "".

Definition reply_shaped_nonempty (slideCount : Z) (content : jsval)
    : Prop :=
  exists props items,
    content = VObj props /\ lookup_prop props "slides" = VArr items
    /\ Z.of_nat (length items) = slideCount
    /\ Forall nonempty_slide_shaped items.

Section WithWorld.
Variable W : World.

(** The image [fetchImageForQuery] settles on, as a function of the
    answer to its one request. *)
Definition imageOfAnswer (answer : outcome Response) : string :=
  match answer with
  | Rejected _ => fallbackOnError
  | Resolved response =>
      if negb (ok response) then fallbackOnError
      else match json response with
           | Rejected _ => fallbackOnError
           | Resolved data =>
               match unsplashResponseSchema W data with
               | Some (regular :: _) => regular
               | _ => fallbackNoResults
               end
           end
  end.

(** The image for [query] when the lookup starts at await [n]. *)
Definition imageFor (n : nat) (query : string) : string :=
  if String.eqb (UNSPLASH_ACCESS_KEY W) "" then placeholderNoKey
  else imageOfAnswer (fetch W n "GET" (searchUrl W query)).

(** Awaits taken by one lookup. *)
Definition lookupAwaits : nat :=
  if String.eqb (UNSPLASH_ACCESS_KEY W) "" then 0 else 1.

(** The slides the generator returns when the lookups start at
    await [n]. *)
Fixpoint expectedSlides (slides : list Slide) (index : Z) (n : nat)
    : list SlideWithImage :=
  match slides with
  | [] => []
  | slide :: rest =>
      mkSlideWithImage (index + 1) (text slide)
        (imageFor n (imageQuery slide))
      :: expectedSlides rest (index + 1) (n + lookupAwaits)
  end.

(** The provider answers the request made in state [st] with a
    successful response whose unwrapped, parsed payload is
    [content]. *)
Definition provider_replies (model : string) (st : State)
    (content : jsval) : Prop :=
  exists endpoint response reply,
    getApiConfig W model = Some endpoint
    /\ fetch W (st_tick st) "POST" endpoint = Resolved response
    /\ ok response = true
    /\ json response = Resolved reply
    /\ replyContent W model reply = Resolved content.

(** The stock-photo search started at await [n] throws or returns
    nothing: the request fails, or its response is not [ok], or its
    body is not JSON, or the validated reply has no results. *)
Definition search_fails (n : nat) (query : string) : Prop :=
  match fetch W n "GET" (searchUrl W query) with
  | Rejected _ => True
  | Resolved response =>
      ok response = false
      \/ match json response with
         | Rejected _ => True
         | Resolved data => unsplashResponseSchema W data = Some []
         end
  end.

End WithWorld.

Definition isFallback (u : string) : Prop :=
  u = placeholderNoKey \/ u = fallbackNoResults \/ u = fallbackOnError.

End AISpec.

(** A world for the generator: the OpenAI and Unsplash keys are set, the
    provider answers with a chat completion whose message parses to
    [content], and the photo search fails for the query [boom] and finds
    one photo for any other. *)
Definition generatorWorld (content : jsval) : World :=
  with_JSON_parse
    (with_env
       (with_fetch silentWorld
          (fun _ method u =>
             if String.eqb method "POST"
             then Resolved
                    (okResponse ""
                       (VObj [("choices",
                               VArr [VObj [("message",
                                            VObj [("content",
                                                   VStr "payload")])]])]))
             else if includes u "query=boom"
             then Rejected "Failed to fetch"
             else Resolved
                    (okResponse ""
                       (VObj [("results",
                               VArr [VObj [("urls",
                                            VObj [("regular",
                                                   VStr "https://images.unsplash.com/photo-1")])]])]))))
       (fun variable =>
          if String.eqb variable "VITE_OPENAI_API_KEY" then Some "sk-test"
          else if String.eqb variable "VITE_UNSPLASH_ACCESS_KEY"
          then Some "u-test"
          else None))
    (fun s => if String.eqb s "payload" then Some content else None).

Definition slideJson (t q : string) : jsval :=
  VObj [("text", VStr t); ("imageQuery", VStr q)].

(** A page with two [<img>] elements for one picture, the first naming it
    by [src] and the second by a root-relative [data-src], and a third
    element for another picture. *)
Definition twoTagsPage : Dom.Document :=
  Dom.mkDocument (fun selector =>
    if String.eqb selector "img"
    then [Dom.mkElement "https://site.org/a.jpg" "first" [] 0 0 "";
          Dom.mkElement "" "" [("data-src", "/a.jpg")] 0 0 "";
          Dom.mkElement "https://site.org/b.jpg" "other" [] 0 0 ""]
    else []).

Definition siteBase : Dom.URL := Dom.mkURL "https:" "site.org".

Module RelaySpec.
Import CorsProxy.

(** Where in the double loop an attempt was made, and on which relay. *)
Definition position (a : Attempt) : nat * Z * string :=
  (serviceIndex a, retry a, serviceName a).

Definition failed (a : Attempt) : Prop :=
  exists e, attemptResult a = Rejected e.

(** The text [lastError] holds after a failed attempt. *)
Definition describe (a : Attempt) : option string :=
  match attemptResult a with
  | Rejected e => Some (serviceName a +:+ ": " +:+ e)
  | Resolved _ => None
  end.

Definition lastErrorOf (before : option string) (new : list Attempt)
    : option string :=
  match last new with
  | Some a => describe a
  | None => before
  end.

(** The retries of one relay, from [retry] on. *)
Definition combos (idx : nat) (service : CorsProxyService) (retry : Z)
    (n : nat) : list (nat * Z * string) :=
  map (fun k => (idx, retry + Z.of_nat k, name service)) (seq 0 n).

(** Every relay/retry combination, in the order of the loops. *)
Fixpoint allCombinations (services : list CorsProxyService) (idx : nat)
    (maxRetries : Z) : list (nat * Z * string) :=
  match services with
  | [] => []
  | service :: rest =>
      (combos idx service 0 (Z.to_nat maxRetries)
       ++ allCombinations rest (S idx) maxRetries)%list
  end.

(** Between two states the relay chain only touched the HTML cache, the
    await counter and its logs. *)
Definition relay_frame (st st' : State) : Prop :=
  st_probes st' = st_probes st /\ st_urls st' = st_urls st
  /\ st_dims st' = st_dims st /\ st_searches st' = st_searches st.

(** Every entry of the HTML cache of [st'] was there in [st] or is an
    acceptable body stored under [target]. *)
Definition only_acceptable_stored (W : World) (target : string)
    (st st' : State) : Prop :=
  forall k e,
    SimpleCache.cache (st_html st') !! k = Some e ->
    SimpleCache.cache (st_html st) !! k = Some e
    \/ (k = target /\ acceptable W (SimpleCache.data e) = true).

(** At await [n] the relay [service] answers the request for [target]
    with a successful, non-empty response whose unwrapped body is
    [body]. *)
Definition answers_at (W : World) (n : nat) (service : CorsProxyService)
    (target : string) (body : jsval) : Prop :=
  exists response responseText,
    fetch W n "GET" (url service target) = Resolved response
    /\ ok response = true
    /\ text response = Resolved responseText
    /\ responseText <> ""
    /\ unwrap W service responseText = Resolved body.

Definition tooSmall : string :=
  "Conte" +:+ cu 250 +:+ "do HTML muito pequeno ou vazio".

Definition exhaustedPrefix (W : World) (maxRetries : Z) : string :=
  "Todos os servi" +:+ cu 231 +:+ "os CORS falharam ap" +:+ cu 243
  +:+ "s " +:+ numberToString W maxRetries
  +:+ " tentativas. " +:+ cu 218 +:+ "ltimo erro: ".

End RelaySpec.

(** A world for the relay chain: the first relay wraps a short page in its
    JSON envelope, the second passes a long page through, every other
    request fails. *)
Definition longPage : string :=
  "<html><head><title>Gallery</title></head><body><h1>Gallery</h1><img src=/a.jpg><img src=/b.jpg><p>Photographs.</p></body></html>".

(** Sixty times the letter e with acute accent, the code unit U+00E9: a
    body of 60 code units. *)
Definition sixtyAccents : string :=
  string_of_list_ascii (repeat (ascii_of_nat 233) 60).

Definition relayWorld : World :=
  with_JSON_parse
    (with_fetch silentWorld
       (fun _ method u =>
          if String.eqb u "https://api.allorigins.win/get?url=https://site.org/page"
          then Resolved (okResponse "envelope" VNull)
          else if String.eqb u "https://cors.sh/https://site.org/page"
          then Resolved (okResponse longPage VNull)
          else Rejected "Failed to fetch"))
    (fun s => if String.eqb s "envelope"
              then Some (VObj [("contents", VStr "<html>blocked</html>")])
              else None).

(** A world for the page extraction: the relays answer as in
    [relayWorld], the page parses to [twoTagsPage], every HEAD probe
    resolves, and every image decodes to 800 by 600 except the second
    picture of the page, which decodes to 120 by 90. *)
Definition galleryWorld : World :=
  with_loadImage
    (with_document
       (with_fetch relayWorld
          (fun n method u =>
             if String.eqb method "HEAD" then Resolved (okResponse "" VNull)
             else fetch relayWorld n method u))
       (fun _ => twoTagsPage))
    (fun _ s => if String.eqb s "https://site.org/b.jpg"
                then Some (120, 90) else Some (800, 600)).

(** A state whose HTML cache holds a page for [target], stored at time
    0 with the default TTL. *)
Definition pageCached (target : string) (body : jsval) : State :=
  mkState (SimpleCache.set htmlCache target body None 0)
    imageUrlCache imageDimensionsCache 0 [] [] [] [].

Module ProbeSpec.

(** Every positive verdict in the reachability cache stems from a HEAD
    probe that resolved. *)
Definition probes_recorded (st : State) : Prop :=
  forall u e,
    SimpleCache.cache (st_urls st) !! u = Some e ->
    SimpleCache.data e = true ->
    In u (st_probes st).

(** The HEAD probe of [u] has resolved at least once. *)
Definition probed (st : State) (u : string) : Prop := In u (st_probes st).

End ProbeSpec.

(** A world in which every HEAD request resolves and nothing else
    answers. *)
Definition reachableWorld : World :=
  with_fetch silentWorld
    (fun _ method _ =>
       if String.eqb method "HEAD" then Resolved (okResponse "" VNull)
       else Rejected "Failed to fetch").

(** Induction on values. *)
Module JsvalFacts.

Section Induction.
Variable P : jsval -> Prop.
Hypothesis HUndefined : P VUndefined.
Hypothesis HNull : P VNull.
Hypothesis HBool : forall b, P (VBool b).
Hypothesis HNum : forall n, P (VNum n).
Hypothesis HStr : forall s, P (VStr s).
Hypothesis HArr : forall items, Forall P items -> P (VArr items).
Hypothesis HObj :
  forall props, Forall (fun kv => P (snd kv)) props -> P (VObj props).

(** Induction on values that reaches into arrays and objects. *)
Fixpoint jsval_nested_ind (v : jsval) : P v :=
  match v with
  | VUndefined => HUndefined
  | VNull => HNull
  | VBool b => HBool b
  | VNum n => HNum n
  | VStr s => HStr s
  | VArr items =>
      HArr items
        ((fix go (l : list jsval) : Forall P l :=
            match l with
            | [] => @List.Forall_nil _ P
            | x :: r =>
                @List.Forall_cons _ P x r (jsval_nested_ind x) (go r)
            end) items)
  | VObj props =>
      HObj props
        ((fix go (l : list (string * jsval))
            : Forall (fun kv => P (snd kv)) l :=
            match l with
            | [] => @List.Forall_nil _ _
            | (k, x) :: r =>
                @List.Forall_cons _ (fun kv => P (snd kv)) (k, x) r
                  (jsval_nested_ind x) (go r)
            end) props)
  end.
End Induction.

End JsvalFacts.

(** [p] holds of every character of [s]. *)
Fixpoint all_chars (p : ascii -> bool) (s : string) : bool :=
  match s with
  | EmptyString => true
  | String c s' => p c && all_chars p s'
  end.

(* ===================================================================== *)
(** ** Theorems *)
(* ===================================================================== *)

Module CacheFacts.
Import SimpleCache.

Section WithValue.
Context {T : Type}.
Implicit Types (c : SimpleCache.t T) (k : string) (v : T).

Lemma get_miss_absent c k now :
  cache c !! k = None -> get c k now = (None, c).
Proof. unfold get. intros ->. reflexivity. Qed.

Lemma get_fresh c k e now :
  cache c !! k = Some e -> now - timestamp e <= expiry e ->
  get c k now = (Some (data e), c).
Proof.
  unfold get. intros -> Hle.
  destruct (Z.gtb_spec (now - timestamp e) (expiry e)); [lia | reflexivity].
Qed.

Lemma get_stale c k e now :
  cache c !! k = Some e -> expiry e < now - timestamp e ->
  get c k now = (None, mkCache (delete k (cache c)) (defaultTTL c)).
Proof.
  unfold get. intros -> Hlt.
  destruct (Z.gtb_spec (now - timestamp e) (expiry e)); [reflexivity | lia].
Qed.

Lemma get_size_le c k now : (size (snd (get c k now)) <= size c)%nat.
Proof.
  unfold get, size. destruct (cache c !! k) as [e|] eqn:He; simpl; [|lia].
  destruct (now - timestamp e >? expiry e); simpl; [|lia].
  rewrite map_size_delete_Some by (rewrite He; eauto). lia.
Qed.

Lemma get_keeps_others c k k' now :
  k <> k' -> cache (snd (get c k now)) !! k' = cache c !! k'.
Proof.
  intros Hne. unfold get. destruct (cache c !! k) as [e|]; simpl; [|done].
  destruct (now - timestamp e >? expiry e); simpl; [|done].
  by rewrite lookup_delete_ne.
Qed.

Lemma get_subset c k k' e now :
  cache (snd (get c k now)) !! k' = Some e -> cache c !! k' = Some e.
Proof.
  unfold get. destruct (cache c !! k) as [e0|]; simpl; [|done].
  destruct (now - timestamp e0 >? expiry e0); simpl; [|done].
  intros H. apply lookup_delete_Some in H. tauto.
Qed.

End WithValue.
End CacheFacts.

Module CacheClaims.
Import SimpleCache CacheFacts.

(** C5, as stated, fails for the ttl 0: [set] then stores the default
    TTL, so a read past [storedAt + 0] is still a hit and nothing is
    purged. *)
Lemma cache_zero_ttl_read_is_hit :
  let c := set imageUrlCache "k" true (Some 0) 1000 in
  1000 + 0 < 1001 /\
  fst (get c "k" 1001) = Some true /\
  size (snd (get c "k" 1001)) = 1%nat.
Proof. vm_compute. repeat split. Qed.

(** C5 (amended): for every key, value and non-zero ttl [t], after
    [set(k,v,t)] at time [ts] a [get(k)] at a time [now] with
    [now - ts <= t] returns [v] and leaves the cache as it is; a [get(k)]
    past [ts + t] returns a miss and deletes the entry, after which the
    cache is strictly smaller and further reads of [k] are misses that
    change nothing; and no [get] ever grows the cache. *)
Theorem cache_set_get_ttl {T} (c : SimpleCache.t T) (k : string) (v : T)
    (t ts now : Z) :
  t <> 0 ->
  let c1 := set c k v (Some t) ts in
  (now - ts <= t -> get c1 k now = (Some v, c1)) /\
  (ts + t < now ->
     fst (get c1 k now) = None /\
     cache (snd (get c1 k now)) !! k = None /\
     (size (snd (get c1 k now)) < size c1)%nat /\
     forall now', get (snd (get c1 k now)) k now'
                  = (None, snd (get c1 k now))) /\
  (forall (c0 : SimpleCache.t T) k0 n0,
     (size (snd (get c0 k0 n0)) <= size c0)%nat).
Proof.
  intros Ht c1.
  assert (He : cache c1 !! k = Some (mkEntry v ts t)).
  { unfold c1, set, ttl_or_default; simpl.
    destruct (Z.eqb_spec t 0); [contradiction|]. apply lookup_insert_eq. }
  clearbody c1. split; [|split].
  - intros Hle. rewrite (get_fresh c1 k _ now He); [reflexivity|simpl; lia].
  - intros Hlt.
    rewrite (get_stale c1 k _ now He) by (simpl; lia). simpl.
    split; [reflexivity|]. split; [apply lookup_delete_eq|]. split.
    + unfold size; simpl.
      rewrite map_size_delete_Some by (rewrite He; eauto).
      assert (base.size (cache c1) <> 0%nat).
      { intros H0. apply map_size_empty_inv in H0. rewrite H0 in He.
        by rewrite lookup_empty in He. }
      lia.
    + intros now'. apply get_miss_absent. simpl. apply lookup_delete_eq.
  - intros c0 k0 n0. apply get_size_le.
Qed.

Lemma cache_set_get_ttl_witness :
  60000 <> 0 /\
  fst (get (set imageUrlCache "k" true (Some 60000) 1000) "k" 61000)
    = Some true /\
  fst (get (set imageUrlCache "k" true (Some 60000) 1000) "k" 61001)
    = None.
Proof.
  split; [lia|]. split.
  - destruct (cache_set_get_ttl imageUrlCache "k" true 60000 1000 61000
                ltac:(lia)) as [H _].
    rewrite H by lia. reflexivity.
  - destruct (cache_set_get_ttl imageUrlCache "k" true 60000 1000 61001
                ltac:(lia)) as [_ [H _]].
    apply H. lia.
Defined.

(** C10, as stated, fails for a negative ttl: it is truthy, is stored as
    given, and the entry reads as a miss at the very instant it was
    stored. *)
Lemma cache_negative_ttl_reads_as_miss :
  fst (get (set imageUrlCache "k" true (Some (-1)) 1000) "k" 1000) = None.
Proof. vm_compute. reflexivity. Qed.

(** C10 (amended): [set] treats the ttl 0 as absent: [set(k,v,0)] stores
    the entry with the instance's default TTL, exactly as [set(k,v)]
    does; and on an instance whose default TTL is not negative, a [set]
    whose ttl is absent or not negative inserts an entry that a [get] at
    the same instant returns.  A negative ttl is kept as it is, and the
    entry reads as a miss at the instant it was stored. *)
Theorem cache_falsy_ttl_is_default {T} (c : SimpleCache.t T) (k : string)
    (v : T) (ttl : option Z) (now : Z) :
  0 <= defaultTTL c ->
  match ttl with Some t => 0 <= t | None => True end ->
  cache (set c k v (Some 0) now) !! k
    = Some (mkEntry v now (defaultTTL c)) /\
  set c k v (Some 0) now = set c k v None now /\
  get (set c k v ttl now) k now = (Some v, set c k v ttl now) /\
  (forall t,
     t < 0 ->
     cache (set c k v (Some t) now) !! k = Some (mkEntry v now t)
     /\ fst (get (set c k v (Some t) now) k now) = None).
Proof.
  intros Hd Httl. split; [|split; [|split]].
  4:{ intros t Ht.
      assert (He : cache (set c k v (Some t) now) !! k
                   = Some (mkEntry v now t)).
      { unfold set, ttl_or_default; simpl.
        destruct (Z.eqb_spec t 0); [lia|]. apply lookup_insert_eq. }
      split; [exact He|].
      rewrite (get_stale _ k _ now He); [reflexivity|]. simpl. lia. }
  - unfold set; simpl. apply lookup_insert_eq.
  - reflexivity.
  - apply (get_fresh _ k (mkEntry v now (ttl_or_default ttl (defaultTTL c)))).
    + unfold set; simpl. apply lookup_insert_eq.
    + simpl. unfold ttl_or_default. destruct ttl as [t|]; [|lia].
      destruct (Z.eqb_spec t 0); lia.
Qed.

Lemma cache_falsy_ttl_is_default_witness :
  0 <= defaultTTL htmlCache /\
  cache (set htmlCache "k" (VStr "v") (Some 0) 7) !! "k"
    = Some (mkEntry (VStr "v") 7 600000) /\
  fst (get (set htmlCache "k" (VStr "v") (Some 0) 7) "k" 7)
    = Some (VStr "v").
Proof.
  destruct (cache_falsy_ttl_is_default htmlCache "k" (VStr "v") (Some 0) 7)
    as [H1 [_ [H3 _]]]; [vm_compute; discriminate | simpl; lia |].
  split; [vm_compute; discriminate|]. split; [exact H1|].
  rewrite H3. reflexivity.
Defined.

End CacheClaims.

(** *** Facts about strings *)

Module StringFacts.

Lemma prefix_app (p s : string) : String.prefix p (p +:+ s) = true.
Proof.
  induction p as [|c p IH]; simpl.
  - destruct s; reflexivity.
  - destruct (ascii_dec c c); [exact IH | contradiction].
Qed.

Lemma prefix_inv (p s : string) :
  String.prefix p s = true -> exists r, s = p +:+ r.
Proof.
  revert s. induction p as [|c p IH]; intros s H.
  - exists s. reflexivity.
  - destruct s as [|d s]; simpl in H; [discriminate|].
    destruct (ascii_dec c d) as [->|]; [|discriminate].
    destruct (IH s H) as [r ->]. exists r. reflexivity.
Qed.

Lemma append_assoc (a b c : string) : (a +:+ b) +:+ c = a +:+ (b +:+ c).
Proof.
  induction a as [|x a IH]; [reflexivity|].
  change (String x ((a +:+ b) +:+ c) = String x (a +:+ (b +:+ c))).
  f_equal. exact IH.
Qed.

Lemma includes_unfold (s k : string) :
  includes s k
  = String.prefix k s
    || match s with
       | EmptyString => false
       | String _ s' => includes s' k
       end.
Proof. destruct s; reflexivity. Qed.

Lemma includes_app (a k b : string) : includes (a +:+ k +:+ b) k = true.
Proof.
  induction a as [|c a IH].
  - change (includes (k +:+ b) k = true).
    rewrite includes_unfold, prefix_app. reflexivity.
  - change (includes (String c (a +:+ k +:+ b)) k = true).
    rewrite includes_unfold, IH. apply orb_true_r.
Qed.

Lemma includes_inv (s k : string) :
  includes s k = true -> exists a b, s = a +:+ k +:+ b.
Proof.
  induction s as [|c s IH]; rewrite includes_unfold; intros H.
  - rewrite orb_false_r in H. destruct (prefix_inv _ _ H) as [r Hr].
    exists EmptyString, r. exact Hr.
  - apply orb_true_iff in H. destruct H as [H|H].
    + destruct (prefix_inv _ _ H) as [r Hr]. exists EmptyString, r. exact Hr.
    + destruct (IH H) as (a & b & ->). exists (String c a), b. reflexivity.
Qed.

Lemma toLowerCase_app (a b : string) :
  toLowerCase (a +:+ b) = toLowerCase a +:+ toLowerCase b.
Proof.
  induction a as [|c a IH]; [reflexivity|].
  change (String (lower_unit c) (toLowerCase (a +:+ b))
          = String (lower_unit c) (toLowerCase a +:+ toLowerCase b)).
  f_equal. exact IH.
Qed.

(** Containment survives lower-casing. *)
Lemma includes_toLowerCase (s k : string) :
  includes s k = true -> includes (toLowerCase s) (toLowerCase k) = true.
Proof.
  intros H. destruct (includes_inv _ _ H) as (a & b & ->).
  rewrite !toLowerCase_app. apply includes_app.
Qed.

(** Containment is transitive. *)
Lemma includes_trans (s k k' : string) :
  includes s k = true -> includes k k' = true -> includes s k' = true.
Proof.
  intros H1 H2. destruct (includes_inv _ _ H1) as (a & b & ->).
  destruct (includes_inv _ _ H2) as (a' & b' & ->).
  rewrite !append_assoc. rewrite <- (append_assoc a a').
  apply includes_app.
Qed.

End StringFacts.

Module QualityClaims.
Import StringFacts.

Definition service_no_keyword (img : ImageService.ImageSource) : Prop :=
  Forall (fun keyword =>
            includes (toLowerCase (ImageService.src img)) keyword = false
            /\ includes (toLowerCase (ImageService.alt img)) keyword = false)
    ImageService.lowQualityKeywords.

Definition hook_no_keyword (img : ImageExtractor.ExtractedImage) : Prop :=
  Forall (fun keyword =>
            includes (toLowerCase (ImageExtractor.src img)) keyword = false
            /\ includes (toLowerCase (ImageExtractor.alt img)) keyword
               = false)
    ImageExtractor.lowQualityKeywords.

Lemma existsb_false_Forall {A} (f : A -> bool) (l : list A) :
  Forall (fun x => f x = false) l -> existsb f l = false.
Proof.
  induction 1 as [|x l Hx _ IH]; simpl; [reflexivity|].
  by rewrite Hx, IH.
Qed.

Lemma filter_nil_Forall {A} (f : A -> bool) (l : list A) :
  Forall (fun x => f x = false) l -> List.filter f l = [].
Proof.
  induction 1 as [|x l Hx _ IH]; simpl; [reflexivity|].
  by rewrite Hx, IH.
Qed.

Lemma service_logo_rejected img minWidth minHeight :
  includes (ImageService.src img) "logo-nav.png" = true ->
  ImageService.isQualityImage img minWidth minHeight = false.
Proof.
  intros H. apply includes_toLowerCase in H.
  assert (Hk : includes (toLowerCase (ImageService.src img)) "logo" = true).
  { eapply includes_trans; [exact H | reflexivity]. }
  unfold ImageService.isQualityImage.
  cbn [ImageService.lowQualityKeywords existsb].
  rewrite Hk. cbn [orb negb]. rewrite !orb_true_r.
  cbn [negb]. rewrite andb_false_r. reflexivity.
Qed.

Lemma hook_logo_rejected img :
  includes (ImageExtractor.src img) "logo-nav.png" = true ->
  ImageExtractor.isQualityImage img = false.
Proof.
  intros H. apply includes_toLowerCase in H.
  assert (Hk : includes (toLowerCase (ImageExtractor.src img)) "logo-"
               = true).
  { eapply includes_trans; [exact H | reflexivity]. }
  unfold ImageExtractor.isQualityImage. lazy zeta.
  match goal with
  | |- context [List.filter ?f ImageExtractor.lowQualityKeywords] =>
      assert (Hin : In "logo-"
                      (List.filter f ImageExtractor.lowQualityKeywords))
  end.
  { apply filter_In. split; [|rewrite Hk; reflexivity].
    unfold ImageExtractor.lowQualityKeywords. simpl. tauto. }
  match goal with
  | |- context [List.filter ?f ImageExtractor.lowQualityKeywords] =>
      destruct (List.filter f ImageExtractor.lowQualityKeywords)
        as [|x l]
  end; [destruct Hin|].
  cbn [length Nat.ltb Nat.leb negb]. rewrite andb_false_r. reflexivity.
Qed.

Lemma service_accepts img minWidth minHeight :
  existsb (fun ext => includes (toLowerCase (ImageService.src img)) ext)
    ImageService.qualityFormats = true ->
  service_no_keyword img ->
  (if truthy_num (ImageService.width img)
      && truthy_num (ImageService.height img)
   then (default 0 (ImageService.width img) >=? minWidth)
        && (default 0 (ImageService.height img) >=? minHeight)
   else true) = true ->
  ImageService.isQualityImage img minWidth minHeight = true.
Proof.
  intros Hf Hk Hs. unfold ImageService.isQualityImage.
  rewrite Hf, Hs. rewrite existsb_false_Forall; [reflexivity|].
  eapply Forall_impl; [exact Hk|]. intros k [-> ->]. reflexivity.
Qed.

Lemma hook_accepts img :
  existsb (fun ext => includes (toLowerCase (ImageExtractor.src img)) ext)
    ImageExtractor.qualityFormats = true ->
  hook_no_keyword img ->
  (if truthy_num (ImageExtractor.width img)
      && truthy_num (ImageExtractor.height img)
   then (default 0 (ImageExtractor.width img) >=? 300)
        && (default 0 (ImageExtractor.height img) >=? 200)
   else true) = true ->
  ImageExtractor.isQualityImage img = true.
Proof.
  intros Hf Hk Hs. unfold ImageExtractor.isQualityImage.
  rewrite Hf, Hs. rewrite filter_nil_Forall; [reflexivity|].
  eapply Forall_impl; [exact Hk|]. intros k [-> ->]. reflexivity.
Qed.

Lemma png_is_quality_format (s : string) :
  includes s ".png" = true ->
  existsb (fun ext => includes s ext) ImageService.qualityFormats = true.
Proof.
  intros H. cbn [ImageService.qualityFormats existsb]. rewrite H.
  rewrite !orb_true_r. reflexivity.
Qed.

(** C8: both quality filters (the hook's and the service's, the latter
    at its default thresholds 300 and 200) reject every candidate whose
    [src] contains logo-nav.png, whatever its declared size; accept a
    candidate of exactly 300x200 whose lower-cased URL contains .png
    when neither the lower-cased URL nor the lower-cased alt text
    contains a denylisted keyword; reject a candidate of 299x200; and
    accept a candidate of a quality format without denylisted keyword
    whose width or height is missing, whatever the thresholds.  Lower
    case is that of [toLowerCase] on the code units of the string, the
    capital letters U+00C0 to U+00DE included. *)
Theorem quality_filter_cases :
  (forall img minWidth minHeight,
     includes (ImageService.src img) "logo-nav.png" = true ->
     ImageService.isQualityImage img minWidth minHeight = false) /\
  (forall img,
     includes (ImageExtractor.src img) "logo-nav.png" = true ->
     ImageExtractor.isQualityImage img = false) /\
  (forall img,
     ImageService.width img = Some 300 ->
     ImageService.height img = Some 200 ->
     includes (toLowerCase (ImageService.src img)) ".png" = true ->
     service_no_keyword img ->
     ImageService.isQualityImage img ImageService.DEFAULT_MIN_WIDTH
       ImageService.DEFAULT_MIN_HEIGHT = true) /\
  (forall img,
     ImageExtractor.width img = Some 300 ->
     ImageExtractor.height img = Some 200 ->
     includes (toLowerCase (ImageExtractor.src img)) ".png" = true ->
     hook_no_keyword img ->
     ImageExtractor.isQualityImage img = true) /\
  (forall img,
     ImageService.width img = Some 299 ->
     ImageService.height img = Some 200 ->
     ImageService.isQualityImage img ImageService.DEFAULT_MIN_WIDTH
       ImageService.DEFAULT_MIN_HEIGHT = false) /\
  (forall img,
     ImageExtractor.width img = Some 299 ->
     ImageExtractor.height img = Some 200 ->
     ImageExtractor.isQualityImage img = false) /\
  (forall img minWidth minHeight,
     ImageService.width img = None \/ ImageService.height img = None ->
     existsb (fun ext => includes (toLowerCase (ImageService.src img)) ext)
       ImageService.qualityFormats = true ->
     service_no_keyword img ->
     ImageService.isQualityImage img minWidth minHeight = true) /\
  (forall img,
     ImageExtractor.width img = None \/ ImageExtractor.height img = None ->
     existsb (fun ext => includes (toLowerCase (ImageExtractor.src img)) ext)
       ImageExtractor.qualityFormats = true ->
     hook_no_keyword img ->
     ImageExtractor.isQualityImage img = true).
Proof.
  repeat split.
  - apply service_logo_rejected.
  - apply hook_logo_rejected.
  - intros img Hw Hh Hp Hk. apply service_accepts; [|exact Hk|].
    + by apply png_is_quality_format.
    + rewrite Hw, Hh. reflexivity.
  - intros img Hw Hh Hp Hk. apply hook_accepts; [|exact Hk|].
    + by apply png_is_quality_format.
    + rewrite Hw, Hh. reflexivity.
  - intros img Hw Hh. unfold ImageService.isQualityImage.
    rewrite Hw, Hh. lazy zeta.
    match goal with
    | |- _ && ?c = false => change c with false
    end. apply andb_false_r.
  - intros img Hw Hh. unfold ImageExtractor.isQualityImage.
    rewrite Hw, Hh. lazy zeta.
    match goal with
    | |- _ && ?c = false => change c with false
    end. apply andb_false_r.
  - intros img minWidth minHeight Hd Hf Hk.
    apply service_accepts; [exact Hf|exact Hk|].
    destruct Hd as [-> | ->]; [reflexivity|].
    rewrite andb_false_r. reflexivity.
  - intros img Hd Hf Hk. apply hook_accepts; [exact Hf|exact Hk|].
    destruct Hd as [-> | ->]; [reflexivity|].
    rewrite andb_false_r. reflexivity.
Qed.

Lemma quality_filter_cases_witness :
  ImageService.isQualityImage
    (ImageService.mkImage "https://site.org/assets/logo-nav.png" "Site"
       (Some 1200) (Some 800) None) 300 200 = false /\
  ImageService.isQualityImage
    (ImageService.mkImage "https://site.org/photos/beach.png" "A beach"
       (Some 300) (Some 200) None) 300 200 = true /\
  ImageExtractor.isQualityImage
    (ImageExtractor.mkExtracted "https://site.org/photos/beach.png"
       "A beach" (Some 299) (Some 200)) = false /\
  ImageExtractor.isQualityImage
    (ImageExtractor.mkExtracted "https://site.org/photos/beach.png"
       "A beach" None None) = true /\
  ImageService.isQualityImage
    (ImageService.mkImage "https://site.org/FOTOS/PRAIA.PNG"
       ("CAF" +:+ cu 201) (Some 300) (Some 200) None) 300 200 = true.
Proof.
  destruct quality_filter_cases
    as (H1 & _ & H3 & _ & _ & H6 & _ & H8).
  split; [|split; [|split; [|split]]];
    [| | | |apply H3; try reflexivity;
            unfold service_no_keyword; repeat constructor].
  - apply H1. reflexivity.
  - apply H3; try reflexivity.
    unfold service_no_keyword. repeat constructor.
  - apply H6; reflexivity.
  - apply H8; [left; reflexivity | reflexivity |].
    unfold hook_no_keyword. repeat constructor.
Defined.

End QualityClaims.

(** *** The AI content generator *)

Module AIFacts.
Import AI AISpec.

Lemma z_array_is_Some {A} (item : jsval -> option A) (items : list jsval) :
  is_Some (z_array item items) <-> Forall (fun v => is_Some (item v)) items.
Proof.
  induction items as [|v items IH]; simpl.
  - split; [constructor | eauto].
  - split.
    + intros [l Hl]. destruct (item v) as [a|] eqn:Ha; [|discriminate].
      destruct (z_array item items) as [more|] eqn:Hm; [|discriminate].
      constructor; [eauto | apply IH; eauto].
    + intros H. inversion H as [|? ? [a Ha] Hrest]; subst.
      apply IH in Hrest. destruct Hrest as [more Hm].
      rewrite Ha, Hm. eauto.
Qed.

Lemma z_array_length {A} (item : jsval -> option A) items l :
  z_array item items = Some l -> length l = length items.
Proof.
  revert l. induction items as [|v items IH]; simpl; intros l H.
  - by inversion H.
  - destruct (item v); [|discriminate].
    destruct (z_array item items) eqn:Hm; [|discriminate].
    inversion H; subst. simpl. f_equal. by apply IH.
Qed.

Lemma aiSlideSchema_shaped (v : jsval) :
  is_Some (aiSlideSchema v) <-> slide_shaped v.
Proof.
  split.
  - intros [s Hs]. destruct v; try discriminate. simpl in Hs.
    destruct (lookup_prop props "text") eqn:Ht; try discriminate.
    destruct (lookup_prop props "imageQuery") eqn:Hq; try discriminate.
    eexists _, _, _. eauto.
  - intros (props & t & q & -> & Ht & Hq). simpl. rewrite Ht, Hq.
    simpl. eauto.
Qed.

(** The schema of the source decides exactly the shape without the
    non-emptiness requirement. *)
Lemma aiResponseSchema_shaped (slideCount : Z) (content : jsval) :
  is_Some (aiResponseSchema slideCount content)
  <-> reply_shaped slideCount content.
Proof.
  split.
  - intros [slides H]. destruct content; try discriminate. simpl in H.
    destruct (lookup_prop props "slides") eqn:Hs; try discriminate.
    destruct (Z.geb_spec (Z.of_nat (length items)) slideCount);
      [|discriminate].
    destruct (Z.leb_spec (Z.of_nat (length items)) slideCount);
      [|discriminate].
    simpl in H. exists props, items. repeat split; [exact Hs|lia|].
    assert (Hall : is_Some (z_array aiSlideSchema items)) by eauto.
    apply z_array_is_Some in Hall.
    eapply Forall_impl; [exact Hall|]. intros v. apply aiSlideSchema_shaped.
  - intros (props & items & -> & Hs & Hlen & Hall). simpl. rewrite Hs.
    destruct (Z.geb_spec (Z.of_nat (length items)) slideCount); [|lia].
    destruct (Z.leb_spec (Z.of_nat (length items)) slideCount); [|lia].
    simpl. apply z_array_is_Some.
    eapply Forall_impl; [exact Hall|]. intros v. apply aiSlideSchema_shaped.
Qed.

Lemma aiResponseSchema_length slideCount content slides :
  aiResponseSchema slideCount content = Some slides ->
  Z.of_nat (length slides) = slideCount.
Proof.
  intros H. destruct content; try discriminate. simpl in H.
  destruct (lookup_prop props "slides") eqn:Hs; try discriminate.
  destruct (Z.geb_spec (Z.of_nat (length items)) slideCount);
    [|discriminate].
  destruct (Z.leb_spec (Z.of_nat (length items)) slideCount);
    [|discriminate].
  simpl in H. apply z_array_length in H. lia.
Qed.

Section WithWorld.
Variable W : World.

(** One lookup: it never throws, its result is a function of the
    answer to its own request, and it leaves the caches alone. *)
Lemma fetchImageForQuery_eq (query : string) (st : State) :
  exists st',
    fetchImageForQuery W query st
    = (Resolved (imageFor W (st_tick st) query), st')
    /\ st_tick st' = (st_tick st + lookupAwaits W)%nat
    /\ st_searches st' = (st_searches st ++ [query])%list.
Proof.
  unfold fetchImageForQuery, imageFor, lookupAwaits, bind, log_search.
  destruct (String.eqb (UNSPLASH_ACCESS_KEY W) "").
  - eexists. split; [reflexivity|]. simpl. split; [lia|reflexivity].
  - unfold try_catch, do_fetch, bind, imageOfAnswer. simpl.
    destruct (fetch W (st_tick st) "GET" (searchUrl W query))
      as [response|e]; simpl.
    + destruct (ok response); simpl.
      * unfold lift, bind. destruct (json response) as [data|e]; simpl.
        -- destruct (unsplashResponseSchema W data) as [[|u l]|];
             eexists; (split; [reflexivity|]); simpl;
             (split; [lia|reflexivity]).
        -- eexists; (split; [reflexivity|]); simpl;
             (split; [lia|reflexivity]).
      * eexists; (split; [reflexivity|]); simpl;
          (split; [lia|reflexivity]).
    + eexists; (split; [reflexivity|]); simpl;
        (split; [lia|reflexivity]).
Qed.

(** All lookups: the result is resolved and is the expected list. *)
Lemma resolveImages_eq (slides : list Slide) (index : Z) (st : State) :
  exists st',
    resolveImages W slides index st
    = (Resolved (expectedSlides W slides index (st_tick st)), st')
    /\ st_searches st'
       = (st_searches st ++ map imageQuery slides)%list.
Proof.
  revert index st. induction slides as [|slide rest IH]; intros index st.
  - eexists. split; [reflexivity|]. simpl. by rewrite app_nil_r.
  - cbn [resolveImages expectedSlides]. unfold bind at 1.
    destruct (fetchImageForQuery_eq (imageQuery slide) st)
      as (st1 & -> & Ht & Hs).
    unfold bind at 1.
    destruct (IH (index + 1) st1) as (st2 & -> & Hs2).
    eexists. split.
    + unfold ret. rewrite Ht. reflexivity.
    + rewrite Hs2, Hs. simpl. by rewrite <- app_assoc.
Qed.

Lemma expectedSlides_length slides index n :
  length (expectedSlides W slides index n) = length slides.
Proof.
  revert index n. induction slides as [|s rest IH]; intros; simpl;
    [reflexivity | by rewrite IH].
Qed.

Lemma expectedSlides_nth slides index n i slide :
  slides !! i = Some slide ->
  expectedSlides W slides index n !! i
  = Some (mkSlideWithImage (index + Z.of_nat i + 1) (text slide)
            (imageFor W (n + i * lookupAwaits W) (imageQuery slide))).
Proof.
  revert index n i. induction slides as [|s rest IH]; intros index n i H.
  - discriminate.
  - destruct i as [|i].
    + inversion H; subst. cbn [expectedSlides lookup list_lookup].
      replace (n + 0 * lookupAwaits W)%nat with n by lia.
      replace (index + Z.of_nat 0 + 1) with (index + 1) by lia.
      reflexivity.
    + cbn [expectedSlides]. change ((?x :: ?l) !! S i) with (l !! i).
      rewrite (IH (index + 1) (n + lookupAwaits W)%nat i H).
      replace (index + 1 + Z.of_nat i + 1)
        with (index + Z.of_nat (S i) + 1) by lia.
      replace (n + lookupAwaits W + i * lookupAwaits W)%nat
        with (n + S i * lookupAwaits W)%nat by lia.
      reflexivity.
Qed.

(** The generator after the provider has answered. *)
Lemma generate_after_reply theme model slideCount st content :
  provider_replies W model st content ->
  generateCarouselContent W theme model slideCount st
  = match aiResponseSchema slideCount content with
    | None =>
        (Rejected schemaError,
         snd (do_fetch W "POST"
                (default "" (getApiConfig W model)) st))
    | Some slides =>
        resolveImages W slides 0
          (snd (do_fetch W "POST"
                  (default "" (getApiConfig W model)) st))
    end.
Proof.
  intros (endpoint & response & reply & Hc & Hf & Hok & Hj & Hr).
  unfold generateCarouselContent. rewrite Hc. simpl.
  unfold bind at 1. unfold do_fetch at 1. rewrite Hf, Hok. simpl.
  unfold bind at 1, lift at 1. rewrite Hj.
  unfold bind at 1, lift at 1. rewrite Hr.
  destruct (aiResponseSchema slideCount content); reflexivity.
Qed.

End WithWorld.
End AIFacts.

Module AIClaims.
Import AI AISpec AIFacts.

Lemma generatorWorld_replies content :
  provider_replies (generatorWorld content) "OpenAI" initialState content.
Proof.
  eexists _, _, _. split; [reflexivity|]. split; [reflexivity|].
  split; [reflexivity|]. split; [reflexivity|]. reflexivity.
Qed.

(** C2, as stated, fails: a reply of the right shape whose only slide
    has the empty string as [text] and as [imageQuery] does not have the
    shape the claim requires, and yet the generator accepts it and
    returns a slide. *)
Lemma generator_accepts_empty_strings :
  let content := VObj [("slides", VArr [slideJson "" ""])] in
  ~ reply_shaped_nonempty 1 content /\
  fst (generateCarouselContent (generatorWorld content) "theme" "OpenAI" 1
         initialState)
  = Resolved [mkSlideWithImage 1 "" "https://images.unsplash.com/photo-1"].
Proof.
  split; [|reflexivity].
  intros (props & items & Heq & Hs & _ & Hall).
  inversion Heq; subst props. simpl in Hs. inversion Hs; subst items.
  inversion Hall as [|? ? (p & t & q & Hv & Ht & _ & Hne & _) _]; subst.
  inversion Hv; subst p. simpl in Ht. inversion Ht; subst t.
  by apply Hne.
Qed.

(** C2 (amended): once the provider has answered with a payload that
    parses, [generateCarouselContent] fails with the schema-validation
    error exactly when the parsed JSON is not an object whose [slides]
    is an array of exactly [slideCount] objects each having a string
    [text] and a string [imageQuery]; empty strings pass, and a reply of
    that shape yields [slideCount] slides. *)
Theorem generator_schema_validation (W : World) (theme model : string)
    (slideCount : Z) (st : State) (content : jsval) :
  provider_replies W model st content ->
  (~ reply_shaped slideCount content ->
     fst (generateCarouselContent W theme model slideCount st)
     = Rejected schemaError) /\
  (reply_shaped slideCount content ->
     exists slides,
       fst (generateCarouselContent W theme model slideCount st)
       = Resolved slides
       /\ Z.of_nat (length slides) = slideCount).
Proof.
  intros Hp. rewrite (generate_after_reply W theme model slideCount st
                        content Hp).
  split.
  - intros Hn.
    destruct (aiResponseSchema slideCount content) as [slides|] eqn:Hs;
      [|reflexivity].
    exfalso. apply Hn. apply aiResponseSchema_shaped. eauto.
  - intros Hsh. apply aiResponseSchema_shaped in Hsh.
    destruct Hsh as [slides Hs]. rewrite Hs.
    destruct (resolveImages_eq W slides 0
                (snd (do_fetch W "POST"
                        (default "" (getApiConfig W model)) st)))
      as (st' & -> & _).
    eexists. split; [reflexivity|].
    rewrite expectedSlides_length.
    by apply aiResponseSchema_length in Hs.
Qed.

Lemma generator_schema_validation_witness :
  provider_replies
    (generatorWorld (VObj [("slides", VArr [slideJson "Hi" "sea"])]))
    "OpenAI" initialState (VObj [("slides", VArr [slideJson "Hi" "sea"])])
  /\ fst (generateCarouselContent
           (generatorWorld (VObj [("slides", VArr [slideJson "Hi" "sea"])]))
           "theme" "OpenAI" 2 initialState)
     = Rejected schemaError.
Proof.
  split; [apply generatorWorld_replies|].
  apply generator_schema_validation
    with (content := VObj [("slides", VArr [slideJson "Hi" "sea"])]).
  - apply generatorWorld_replies.
  - intros (props & items & Heq & Hs & Hlen & _).
    inversion Heq; subst props. simpl in Hs. inversion Hs; subst items.
    simpl in Hlen. lia.
Defined.

(** C4: when [slideCount] is 5 and the provider's reply parses to an
    object whose [slides] array has 4 elements, the call fails with the
    schema-validation error, [fetchImageForQuery] has not been invoked,
    and the only request made is the one to the provider. *)
Theorem generator_short_reply_no_image_search (W : World)
    (theme model : string) (st : State) (props : list (string * jsval))
    (items : list jsval) :
  provider_replies W model st (VObj props) ->
  lookup_prop props "slides" = VArr items ->
  length items = 4%nat ->
  exists st',
    generateCarouselContent W theme model 5 st
    = (Rejected schemaError, st')
    /\ st_searches st' = st_searches st
    /\ st_fetches st'
       = (st_fetches st
          ++ [("POST", default "" (getApiConfig W model))])%list.
Proof.
  intros Hp Hs Hlen.
  rewrite (generate_after_reply W theme model 5 st _ Hp).
  simpl. rewrite Hs, Hlen. simpl. eexists. split; [reflexivity|].
  split; reflexivity.
Qed.

Lemma generator_short_reply_no_image_search_witness :
  let content :=
    VObj [("slides", VArr [slideJson "a" "sea"; slideJson "b" "sky";
                           slideJson "c" "sun"; slideJson "d" "sand"])] in
  exists st',
    generateCarouselContent (generatorWorld content) "theme" "OpenAI" 5
      initialState
    = (Rejected schemaError, st')
    /\ st_searches st' = []
    /\ st_fetches st'
       = [("POST", "https://api.openai.com/v1/chat/completions")].
Proof.
  intros content.
  destruct (generator_short_reply_no_image_search (generatorWorld content)
              "theme" "OpenAI" initialState
              [("slides", VArr [slideJson "a" "sea"; slideJson "b" "sky";
                                slideJson "c" "sun"; slideJson "d" "sand"])]
              [slideJson "a" "sea"; slideJson "b" "sky";
               slideJson "c" "sun"; slideJson "d" "sand"])
    as (st' & H1 & H2 & H3).
  - apply generatorWorld_replies.
  - reflexivity.
  - reflexivity.
  - exists st'. split; [exact H1|]. split; [exact H2 | exact H3].
Defined.

Lemma imageFor_fallback (W : World) (n : nat) (query : string) :
  search_fails W n query -> isFallback (imageFor W n query).
Proof.
  unfold search_fails, imageFor, imageOfAnswer, isFallback.
  destruct (String.eqb (UNSPLASH_ACCESS_KEY W) ""); [auto|].
  destruct (fetch W n "GET" (searchUrl W query)) as [response|e]; [|auto].
  intros [Hok | Hj].
  - rewrite Hok. auto.
  - destruct (ok response); simpl; [|auto].
    destruct (json response) as [data|e]; [|auto]. rewrite Hj. auto.
Qed.

Lemma imageFor_with_fetch (W : World) f (n : nat) (query : string) :
  f n "GET" (searchUrl W query) = fetch W n "GET" (searchUrl W query)
  \/ UNSPLASH_ACCESS_KEY W = "" ->
  imageFor (with_fetch W f) n query = imageFor W n query.
Proof.
  unfold imageFor. cbn [with_fetch fetch].
  change (UNSPLASH_ACCESS_KEY (with_fetch W f)) with (UNSPLASH_ACCESS_KEY W).
  change (searchUrl (with_fetch W f) query) with (searchUrl W query).
  intros [-> | ->]; reflexivity.
Qed.

Lemma provider_replies_with_fetch (W : World) f model st content :
  (forall u, f (st_tick st) "POST" u = fetch W (st_tick st) "POST" u) ->
  provider_replies W model st content ->
  provider_replies (with_fetch W f) model st content.
Proof.
  intros Hf (endpoint & response & reply & Hc & Hr & Hok & Hj & Hp).
  exists endpoint, response, reply. repeat split; try assumption.
  cbn [with_fetch fetch]. by rewrite Hf.
Qed.

(** C3: once the provider's reply has passed validation, the generation
    never fails: it returns one slide per validated slide, numbered from
    1 with the slide's text, and the image of slide [i] is what
    [fetchImageForQuery] returns for that slide's query on its own
    request.  When the search for a slide throws or returns nothing,
    that slide's image is one of the fixed placeholder URLs.  And
    whatever the answer to the request of one slide [j] is replaced by,
    the generation still succeeds and every other slide is the same. *)
Theorem generator_image_failure_is_local (W : World)
    (theme model : string) (slideCount : Z) (st : State)
    (content : jsval) (slides : list Slide) :
  provider_replies W model st content ->
  aiResponseSchema slideCount content = Some slides ->
  exists result st',
    generateCarouselContent W theme model slideCount st
    = (Resolved result, st')
    /\ length result = length slides
    /\ (forall i slide,
          slides !! i = Some slide ->
          let n := (S (st_tick st) + i * lookupAwaits W)%nat in
          exists r,
            result !! i = Some r
            /\ id r = Z.of_nat i + 1
            /\ slideText r = text slide
            /\ (forall st0, st_tick st0 = n ->
                  fst (fetchImageForQuery W (imageQuery slide) st0)
                  = Resolved (imageUrl r))
            /\ (search_fails W n (imageQuery slide) ->
                  isFallback (imageUrl r)))
    /\ (forall (j : nat) f,
          (forall n method u,
             n <> (S (st_tick st) + j * lookupAwaits W)%nat ->
             f n method u = fetch W n method u) ->
          exists result' st'',
            generateCarouselContent (with_fetch W f) theme model
              slideCount st
            = (Resolved result', st'')
            /\ forall i, i <> j -> result' !! i = result !! i).
Proof.
  intros Hp Hs.
  rewrite (generate_after_reply W theme model slideCount st content Hp).
  rewrite Hs.
  destruct (resolveImages_eq W slides 0
              (snd (do_fetch W "POST"
                      (default "" (getApiConfig W model)) st)))
    as (st' & Hr & _).
  rewrite Hr. cbn [do_fetch snd st_tick].
  eexists _, st'. split; [reflexivity|].
  split; [apply expectedSlides_length|]. split.
  - intros i slide Hi.
    eexists. split; [apply expectedSlides_nth; exact Hi|].
    cbn [id slideText imageUrl]. split; [lia|]. split; [reflexivity|].
    split.
    + intros st0 Ht.
      destruct (fetchImageForQuery_eq W (imageQuery slide) st0)
        as (st1 & -> & _).
      cbn [fst]. rewrite Ht. reflexivity.
    + apply imageFor_fallback.
  - intros j f Hf.
    assert (Hp' : provider_replies (with_fetch W f) model st content).
    { apply provider_replies_with_fetch; [|exact Hp].
      intros u. apply Hf. lia. }
    rewrite (generate_after_reply (with_fetch W f) theme model slideCount
               st content Hp').
    rewrite Hs.
    destruct (resolveImages_eq (with_fetch W f) slides 0
                (snd (do_fetch (with_fetch W f) "POST"
                        (default "" (getApiConfig (with_fetch W f) model))
                        st)))
      as (st'' & Hr' & _).
    rewrite Hr'. cbn [do_fetch snd st_tick].
    eexists _, st''. split; [reflexivity|].
    intros i Hij.
    destruct (slides !! i) as [slide|] eqn:Hi.
    + rewrite !(expectedSlides_nth _ _ _ _ _ _ Hi).
      change (lookupAwaits (with_fetch W f)) with (lookupAwaits W).
      rewrite imageFor_with_fetch; [reflexivity|].
      unfold lookupAwaits in *.
      destruct (String.eqb_spec (UNSPLASH_ACCESS_KEY W) "") as [He|He];
        [right; exact He|].
      left. apply Hf. lia.
    + apply lookup_ge_None in Hi.
      rewrite !(proj2 (lookup_ge_None _ _));
        [reflexivity | | ]; rewrite expectedSlides_length; exact Hi.
Qed.

Lemma generator_image_failure_is_local_witness :
  let content :=
    VObj [("slides", VArr [slideJson "a" "sea"; slideJson "b" "boom";
                           slideJson "c" "sun"])] in
  exists result st',
    generateCarouselContent (generatorWorld content) "theme" "OpenAI" 3
      initialState
    = (Resolved result, st')
    /\ imageUrl <$> result
       = ["https://images.unsplash.com/photo-1"; fallbackOnError;
          "https://images.unsplash.com/photo-1"].
Proof.
  intros content.
  destruct (generator_image_failure_is_local (generatorWorld content)
              "theme" "OpenAI" 3 initialState content
              [mkSlide "a" "sea"; mkSlide "b" "boom"; mkSlide "c" "sun"])
    as (result & st' & Hg & _).
  - apply generatorWorld_replies.
  - reflexivity.
  - exists result, st'. split; [exact Hg|].
    assert (Hr : Resolved result
                 = fst (generateCarouselContent (generatorWorld content)
                          "theme" "OpenAI" 3 initialState))
      by (rewrite Hg; reflexivity).
    vm_compute in Hr. inversion Hr. reflexivity.
Defined.

End AIClaims.

(** *** Candidate collection *)

Module CandidateFacts.
Import Dom.

Section Generic.
Context {A : Type} (srcOf : A -> string).
Implicit Types (acc : gset string * list A).

Definition srcs acc : list string := map srcOf (snd acc).

(** [foundUrls] holds exactly the URLs of [candidateImages], none of
    which occurs twice. *)
Definition agrees acc : Prop :=
  NoDup (srcs acc) /\ forall u, u ∈ fst acc <-> In u (srcs acc).

(** A step keeps the invariant and only adds candidates. *)
Definition sound (f : gset string * list A -> gset string * list A)
    : Prop :=
  forall acc,
    agrees acc ->
    agrees (f acc) /\ forall u, In u (srcs acc) -> In u (srcs (f acc)).

Lemma agrees_empty : agrees (∅, []).
Proof.
  split; [constructor|]. intros u. simpl.
  split; [intros H; by apply not_elem_of_empty in H | tauto].
Qed.

Lemma sound_id : sound (fun acc => acc).
Proof. intros acc H. split; [exact H | auto]. Qed.

Lemma sound_compose f g : sound f -> sound g -> sound (fun acc => g (f acc)).
Proof.
  intros Hf Hg acc H. destruct (Hf acc H) as [H1 H2].
  destruct (Hg (f acc) H1) as [H3 H4]. split; [exact H3 | auto].
Qed.

Lemma sound_pushNew u c : srcOf c = u -> sound (pushNew u c).
Proof.
  intros Hc [found cands] [Hnd Hiff]. unfold pushNew.
  destruct (negb (String.eqb u "")); simpl; [|split; [by split | auto]].
  destruct (bool_decide_reflect (u ∈ found)) as [Hin|Hnin]; simpl;
    [split; [by split | auto]|].
  unfold agrees, srcs in *. simpl in *. rewrite map_app. simpl.
  rewrite Hc. split; [split|].
  - apply NoDup_app. split; [exact Hnd|]. split.
    + intros x Hx Hx'. apply list_elem_of_In in Hx.
      apply list_elem_of_In in Hx'. simpl in Hx'.
      destruct Hx' as [<-|[]]. apply Hnin. by apply Hiff.
    + apply NoDup_singleton.
  - intros x. rewrite in_app_iff. simpl. rewrite <- Hiff.
    rewrite elem_of_union, elem_of_singleton. intuition congruence.
  - intros x Hx. apply in_app_iff. by left.
Qed.

Lemma pushNew_adds u c acc :
  srcOf c = u -> u <> "" -> agrees acc -> In u (srcs (pushNew u c acc)).
Proof.
  intros Hc Hne. destruct acc as [found cands]. intros [Hnd Hiff].
  unfold pushNew.
  destruct (String.eqb_spec u "") as [|_]; [contradiction|]. simpl.
  destruct (bool_decide_reflect (u ∈ found)) as [Hin|Hnin]; simpl.
  - by apply Hiff.
  - unfold srcs. simpl. rewrite map_app. apply in_app_iff. right.
    simpl. left. exact Hc.
Qed.

Lemma sound_fold {B} (step : gset string * list A -> B
                             -> gset string * list A) (l : list B) :
  (forall x, sound (fun acc => step acc x)) ->
  sound (fun acc => fold_left step l acc).
Proof.
  intros Hstep. induction l as [|x l IH]; simpl; [apply sound_id|].
  apply (sound_compose (fun acc => step acc x)
           (fun acc => fold_left step l acc)); [apply Hstep | exact IH].
Qed.

(** What every element of a pass contributes is there at its end. *)
Lemma fold_adds {B} (step : gset string * list A -> B
                            -> gset string * list A)
    (Q : B -> Prop) (u : B -> string) (l : list B) acc :
  (forall x, sound (fun acc => step acc x)) ->
  (forall x acc, Q x -> agrees acc -> In (u x) (srcs (step acc x))) ->
  agrees acc ->
  forall x, In x l -> Q x -> In (u x) (srcs (fold_left step l acc)).
Proof.
  intros Hstep Hadd. revert acc.
  induction l as [|y l IH]; intros acc Hacc x Hin Hq; [destruct Hin|].
  simpl. destruct (Hstep y acc Hacc) as [Hacc' _].
  destruct Hin as [->|Hin].
  - destruct (sound_fold step l Hstep (step acc x) Hacc') as [_ Hext].
    apply Hext. by apply Hadd.
  - by apply IH.
Qed.

End Generic.

Lemma append_nonempty_r (a b : string) : b <> "" -> a +:+ b <> "".
Proof. destruct a; simpl; [auto | discriminate]. Qed.

Lemma convertToAbsoluteUrl_nonempty (s : string) (baseUrl : URL) :
  s <> "" -> convertToAbsoluteUrl s baseUrl <> "".
Proof.
  intros Hs. unfold convertToAbsoluteUrl.
  destruct (startsWith s "//"); [discriminate|].
  destruct (startsWith s "/").
  { apply append_nonempty_r. discriminate. }
  destruct (negb (startsWith s "http")); [|exact Hs].
  apply append_nonempty_r. discriminate.
Qed.

End CandidateFacts.

Module CandidateClaims.
Import Dom CandidateFacts.

Section WithWorld.
Variable W : World.
Variables (doc : Document) (baseUrl : URL).

(** The passes of the service. *)
Lemma service_img_sound :
  sound ImageService.src (ImageService.extractFromImgTags W doc baseUrl).
Proof.
  apply sound_fold. intros img. lazy beta zeta.
  destruct (negb (String.eqb (imgSource img) ""));
    [by apply sound_pushNew | apply sound_id].
Qed.

Lemma service_bg_sound :
  sound ImageService.src
    (ImageService.extractFromBackgroundImages doc baseUrl).
Proof.
  apply sound_fold. intros el. lazy beta zeta.
  destruct (bgMatch (attr_or_empty el "style"));
    [by apply sound_pushNew | apply sound_id].
Qed.

Lemma service_meta_sound :
  sound ImageService.src (ImageService.extractFromMetaTags doc baseUrl).
Proof.
  apply sound_fold. intros meta. lazy beta zeta.
  destruct (negb (String.eqb (attr_or_empty meta "content") ""));
    [by apply sound_pushNew | apply sound_id].
Qed.

Lemma service_json_sound (obj : jsval) :
  sound ImageService.src
    (ImageService.extractImagesFromJson obj baseUrl).
Proof.
  induction obj as [| | | |s|items _|props IH]
    using JsvalFacts.jsval_nested_ind;
    try apply sound_id.
  - simpl. destruct (ImageService.isDirectImageUrl s);
      [by apply sound_pushNew | apply sound_id].
  - simpl. induction IH as [|[k v] rest Hv _ IHrest]; [apply sound_id|].
    simpl in Hv.
    apply (sound_compose ImageService.src
             (fun acc => if imageKey k
                         then ImageService.extractImagesFromJson v
                                baseUrl acc
                         else acc)); [|exact IHrest].
    destruct (imageKey k); [exact Hv | apply sound_id].
Qed.

Lemma service_data_sound :
  sound ImageService.src
    (ImageService.extractFromStructuredData W doc baseUrl).
Proof.
  apply sound_fold. intros script. lazy beta zeta.
  destruct (JSON_parse W (textContent script));
    [apply service_json_sound | apply sound_id].
Qed.

(** The passes of the hook. *)
Lemma hook_img_sound :
  sound ImageExtractor.src (ImageExtractor.fromImgTags W doc baseUrl).
Proof.
  apply sound_fold. intros img. lazy beta zeta.
  destruct (negb (String.eqb (imgSource img) ""));
    [by apply sound_pushNew | apply sound_id].
Qed.

Lemma hook_bg_sound :
  sound ImageExtractor.src
    (ImageExtractor.fromBackgroundImages doc baseUrl).
Proof.
  apply sound_fold. intros el. lazy beta zeta.
  destruct (bgMatch (attr_or_empty el "style"));
    [by apply sound_pushNew | apply sound_id].
Qed.

Lemma hook_meta_sound :
  sound ImageExtractor.src (ImageExtractor.fromMetaTags doc baseUrl).
Proof.
  apply sound_fold. intros meta. lazy beta zeta.
  destruct (negb (String.eqb (attr_or_empty meta "content") ""));
    [by apply sound_pushNew | apply sound_id].
Qed.

Lemma hook_json_sound (obj : jsval) (path : string) :
  sound ImageExtractor.src
    (ImageExtractor.extractImagesFromJson obj path baseUrl).
Proof.
  revert path.
  induction obj as [| | | |s|items _|props IH]
    using JsvalFacts.jsval_nested_ind; intros path;
    try apply sound_id.
  - simpl.
    destruct (includes s ".jpg" || includes s ".jpeg"
              || includes s ".png" || includes s ".webp");
      [by apply sound_pushNew | apply sound_id].
  - simpl. induction IH as [|[k v] rest Hv _ IHrest]; [apply sound_id|].
    simpl in Hv.
    apply (sound_compose ImageExtractor.src
             (fun acc => if imageKey k
                         then ImageExtractor.extractImagesFromJson v k
                                baseUrl acc
                         else acc)); [|exact IHrest].
    destruct (imageKey k); [apply Hv | apply sound_id].
Qed.

Lemma hook_data_sound :
  sound ImageExtractor.src
    (ImageExtractor.fromStructuredData W doc baseUrl).
Proof.
  apply sound_fold. intros script. lazy beta zeta.
  destruct (JSON_parse W (textContent script));
    [apply hook_json_sound | apply sound_id].
Qed.

Lemma hook_ecommerce_sound :
  sound ImageExtractor.src
    (ImageExtractor.fromEcommerceSelectors W doc baseUrl).
Proof.
  apply sound_fold. intros selector. apply sound_fold. intros el. lazy beta zeta.
  match goal with
  | |- context [negb (String.eqb ?s "")] =>
      destruct (negb (String.eqb s ""))
  end; [by apply sound_pushNew | apply sound_id].
Qed.

Lemma service_img_adds img :
  In img (querySelectorAll doc "img") ->
  imgSource img <> "" ->
  In (convertToAbsoluteUrl (imgSource img) baseUrl)
    (srcs ImageService.src
       (ImageService.extractFromImgTags W doc baseUrl (∅, []))).
Proof.
  intros Hin Hne. unfold ImageService.extractFromImgTags.
  apply (fold_adds ImageService.src _ (fun img => imgSource img <> "")
           (fun img => convertToAbsoluteUrl (imgSource img) baseUrl));
    [| |apply agrees_empty|exact Hin|exact Hne].
  - intros x. lazy beta zeta.
    destruct (negb (String.eqb (imgSource x) ""));
      [by apply sound_pushNew | apply sound_id].
  - intros x acc Hx Hacc. lazy beta zeta.
    destruct (String.eqb_spec (imgSource x) ""); [contradiction|].
    cbn [negb]. apply pushNew_adds; [reflexivity| |exact Hacc].
    by apply convertToAbsoluteUrl_nonempty.
Qed.

Lemma hook_img_adds img :
  In img (querySelectorAll doc "img") ->
  imgSource img <> "" ->
  In (convertToAbsoluteUrl (imgSource img) baseUrl)
    (srcs ImageExtractor.src
       (ImageExtractor.fromImgTags W doc baseUrl (∅, []))).
Proof.
  intros Hin Hne. unfold ImageExtractor.fromImgTags.
  apply (fold_adds ImageExtractor.src _ (fun img => imgSource img <> "")
           (fun img => convertToAbsoluteUrl (imgSource img) baseUrl));
    [| |apply agrees_empty|exact Hin|exact Hne].
  - intros x. lazy beta zeta.
    destruct (negb (String.eqb (imgSource x) ""));
      [by apply sound_pushNew | apply sound_id].
  - intros x acc Hx Hacc. lazy beta zeta.
    destruct (String.eqb_spec (imgSource x) ""); [contradiction|].
    cbn [negb]. apply pushNew_adds; [reflexivity| |exact Hacc].
    by apply convertToAbsoluteUrl_nonempty.
Qed.

(** C9: in the candidate list built by the collection passes, of the
    service and of the hook alike, no absolute URL appears twice; and
    the absolute URL of every [<img>] element that names a source, by
    [src] or by a lazy-load attribute, is the URL of exactly one
    candidate, however many elements resolve to it. *)
Theorem candidates_deduplicated :
  let service :=
    map ImageService.src
      (snd (ImageService.collectCandidates W doc baseUrl)) in
  let hook :=
    map ImageExtractor.src
      (snd (ImageExtractor.collectCandidates W doc baseUrl)) in
  NoDup service /\ NoDup hook /\
  forall img,
    In img (querySelectorAll doc "img") ->
    imgSource img <> "" ->
    count_occ string_dec service
      (convertToAbsoluteUrl (imgSource img) baseUrl) = 1%nat
    /\ count_occ string_dec hook
         (convertToAbsoluteUrl (imgSource img) baseUrl) = 1%nat.
Proof.
  intros service hook.
  destruct (service_img_sound _ (agrees_empty ImageService.src))
    as [S1 _].
  destruct (service_bg_sound _ S1) as [S2 E2].
  destruct (service_meta_sound _ S2) as [S3 E3].
  destruct (service_data_sound _ S3) as [[S4 _] E4].
  destruct (hook_img_sound _ (agrees_empty ImageExtractor.src))
    as [H1 _].
  destruct (hook_bg_sound _ H1) as [H2 F2].
  destruct (hook_meta_sound _ H2) as [H3 F3].
  destruct (hook_data_sound _ H3) as [H4 F4].
  destruct (hook_ecommerce_sound _ H4) as [[H5 _] F5].
  split; [exact S4|]. split; [exact H5|].
  intros img Hin Hne. split.
  - apply (proj1 (NoDup_count_occ' string_dec service)
             (proj1 (NoDup_ListNoDup _) S4)).
    apply E4, E3, E2. by apply service_img_adds.
  - apply (proj1 (NoDup_count_occ' string_dec hook)
             (proj1 (NoDup_ListNoDup _) H5)).
    apply F5, F4, F3, F2. by apply hook_img_adds.
Qed.

End WithWorld.

Lemma candidates_deduplicated_witness :
  map ImageService.src
    (snd (ImageService.collectCandidates silentWorld twoTagsPage siteBase))
  = ["https://site.org/a.jpg"; "https://site.org/b.jpg"]
  /\ count_occ string_dec
       (map ImageExtractor.src
          (snd (ImageExtractor.collectCandidates silentWorld twoTagsPage
                  siteBase)))
       "https://site.org/a.jpg" = 1%nat.
Proof.
  split; [vm_compute; reflexivity|].
  destruct (candidates_deduplicated silentWorld twoTagsPage siteBase)
    as (_ & _ & H).
  apply (H (Dom.mkElement "" "" [("data-src", "/a.jpg")] 0 0 "")).
  - simpl. right. left. reflexivity.
  - vm_compute. discriminate.
Defined.

End CandidateClaims.

(** *** The relay chain *)

Module RelayFacts.
Import CorsProxy RelaySpec.

Section WithWorld.
Variable W : World.

Lemma relay_frame_refl st : relay_frame st st.
Proof. by repeat split. Qed.

Lemma relay_frame_trans st1 st2 st3 :
  relay_frame st1 st2 -> relay_frame st2 st3 -> relay_frame st1 st3.
Proof.
  intros (A1 & A2 & A3 & A4) (B1 & B2 & B3 & B4).
  repeat split; congruence.
Qed.

Lemma stored_refl target st : only_acceptable_stored W target st st.
Proof. intros k e H. by left. Qed.

Lemma stored_trans target st1 st2 st3 :
  only_acceptable_stored W target st1 st2 ->
  only_acceptable_stored W target st2 st3 ->
  only_acceptable_stored W target st1 st3.
Proof.
  intros H12 H23 k e H. destruct (H23 k e H) as [H2|H2]; [|by right].
  by apply H12.
Qed.

Lemma stored_same_html target st st' :
  st_html st' = st_html st -> only_acceptable_stored W target st st'.
Proof. intros Heq k e H. left. by rewrite <- Heq. Qed.

(** One request to one relay. *)
Lemma attempt_spec service target st :
  exists r st1,
    attempt W service target st = (r, st1)
    /\ st_attempts st1 = st_attempts st
    /\ relay_frame st st1
    /\ only_acceptable_stored W target st st1
    /\ match r with
       | Resolved body =>
           acceptable W body = true
           /\ SimpleCache.cache (st_html st1) !! target
              = Some (SimpleCache.mkEntry body (clock W (S (st_tick st)))
                        (SimpleCache.defaultTTL (st_html st)))
       | Rejected _ => st_html st1 = st_html st
       end.
Proof.
  unfold attempt, bind at 1, do_fetch.
  destruct (fetch W (st_tick st) "GET" (url service target))
    as [response|e].
  2:{ eexists _, _. split; [reflexivity|]. cbn.
      repeat split; try reflexivity. by apply stored_same_html. }
  destruct (ok response); cbn [negb].
  2:{ eexists _, _. split; [reflexivity|]. cbn.
      repeat split; try reflexivity. by apply stored_same_html. }
  unfold bind at 1, lift at 1.
  destruct (text response) as [responseText|e].
  2:{ eexists _, _. split; [reflexivity|]. cbn.
      repeat split; try reflexivity. by apply stored_same_html. }
  destruct (String.eqb responseText "").
  { eexists _, _. split; [reflexivity|]. cbn.
    repeat split; try reflexivity. by apply stored_same_html. }
  unfold bind at 1, lift at 1.
  destruct (unwrap W service responseText) as [htmlContent|e].
  2:{ eexists _, _. split; [reflexivity|]. cbn.
      repeat split; try reflexivity. by apply stored_same_html. }
  destruct (acceptable W htmlContent) eqn:Hacc.
  2:{ eexists _, _. split; [reflexivity|]. cbn.
      repeat split; try reflexivity. by apply stored_same_html. }
  eexists _, _. split; [reflexivity|]. cbn.
  split; [reflexivity|]. split; [by repeat split|]. split.
  - intros k e He.
    unfold SimpleCache.set in He.
    cbn [SimpleCache.cache st_html SimpleCache.ttl_or_default] in He.
    destruct (decide (k = target)) as [->|Hne].
    + right. split; [reflexivity|].
      rewrite lookup_insert_eq in He. inversion He; subst. exact Hacc.
    + left. by rewrite lookup_insert_ne in He.
  - split; [exact Hacc|].
    unfold SimpleCache.set.
    cbn [SimpleCache.cache st_html SimpleCache.ttl_or_default].
    apply lookup_insert_eq.
Qed.

(** One pass through the loop body: it never throws and logs exactly
    one attempt. *)
Lemma tryOnce_spec service idx target maxRetries retry st :
  exists r st1 a,
    tryOnce W service idx target maxRetries retry st = (Resolved r, st1)
    /\ st_attempts st1 = (st_attempts st ++ [a])%list
    /\ position a = (idx, retry, name service)
    /\ relay_frame st st1
    /\ only_acceptable_stored W target st st1
    /\ match r with
       | inl body =>
           attemptResult a = Resolved body /\ acceptable W body = true
       | inr e => describe a = Some e
       end.
Proof.
  destruct (attempt_spec service target st)
    as (r & st1 & Ha & Hlog & Hfr & Hst & Hr).
  unfold tryOnce, try_catch, bind at 1. rewrite Ha.
  destruct r as [body|e].
  - eexists _, _, _. split; [reflexivity|]. cbn.
    rewrite Hlog. split; [reflexivity|]. split; [reflexivity|].
    split; [exact Hfr|]. split; [exact Hst|]. by destruct Hr.
  - unfold bind, log_attempt, sleep, tick, ret.
    destruct (retry <? maxRetries - 1);
      eexists _, _, _; (split; [reflexivity|]); cbn;
      rewrite Hlog; (split; [reflexivity|]);
      (split; [reflexivity|]);
      (split; [exact Hfr|]); (split; [|reflexivity]);
      exact Hst.
Qed.

Lemma describe_failed a e : describe a = Some e -> failed a.
Proof.
  unfold describe, failed. destruct (attemptResult a); [discriminate|].
  eauto.
Qed.

Lemma lastErrorOf_cons before a e new :
  describe a = Some e ->
  lastErrorOf before (a :: new) = lastErrorOf (Some e) new.
Proof.
  intros Ha. unfold lastErrorOf. rewrite last_cons.
  destruct (last new); [reflexivity | exact Ha].
Qed.

Lemma lastErrorOf_app before new1 new2 :
  lastErrorOf before (new1 ++ new2)
  = lastErrorOf (lastErrorOf before new1) new2.
Proof.
  unfold lastErrorOf. rewrite last_app. destruct (last new2); reflexivity.
Qed.

Lemma combos_S idx service retry n :
  combos idx service retry (S n)
  = (idx, retry, name service) :: combos idx service (retry + 1) n.
Proof.
  unfold combos. cbn [seq map].
  replace (retry + Z.of_nat 0) with retry by lia. f_equal.
  rewrite <- seq_shift, map_map. apply map_ext. intros k.
  replace (retry + Z.of_nat (S k)) with (retry + 1 + Z.of_nat k) by lia.
  reflexivity.
Qed.

(** The inner loop: it never throws; it ends with a returned body
    after failures only, or with every retry made and failed. *)
Lemma retries_spec service idx target maxRetries n :
  forall retry lastError st,
  exists r st' new,
    retries W service idx target maxRetries n retry lastError st
    = (Resolved r, st')
    /\ st_attempts st' = (st_attempts st ++ new)%list
    /\ relay_frame st st'
    /\ only_acceptable_stored W target st st'
    /\ match r with
       | inl body =>
           exists failures a,
             new = (failures ++ [a])%list
             /\ Forall failed failures
             /\ attemptResult a = Resolved body
             /\ acceptable W body = true
       | inr e =>
           map position new = combos idx service retry n
           /\ Forall failed new
           /\ e = lastErrorOf lastError new
       end.
Proof.
  induction n as [|n IH]; intros retry lastError st.
  - exists (inr lastError), st, []. split; [reflexivity|].
    split; [by rewrite app_nil_r|]. split; [apply relay_frame_refl|].
    split; [apply stored_refl|]. repeat split. constructor.
  - cbn [retries]. unfold bind at 1.
    destruct (tryOnce_spec service idx target maxRetries retry st)
      as (r1 & st1 & a & -> & Hlog & Hpos & Hfr & Hst & Hr).
    destruct r1 as [body|e].
    + exists (inl body), st1, [a]. split; [reflexivity|].
      split; [exact Hlog|]. split; [exact Hfr|]. split; [exact Hst|].
      exists [], a. destruct Hr as [Hres Hacc].
      repeat split; [constructor | exact Hres | exact Hacc].
    + destruct (IH (retry + 1) (Some e) st1)
        as (r & st' & new & -> & Hlog' & Hfr' & Hst' & Hr').
      exists r, st', (a :: new). split; [reflexivity|].
      split; [rewrite Hlog', Hlog, <- app_assoc; reflexivity|].
      split; [eapply relay_frame_trans; eassumption|].
      split; [eapply stored_trans; eassumption|].
      destruct r as [body|e'].
      * destruct Hr' as (failures & b & -> & Hall & Hres & Hacc).
        exists (a :: failures), b. repeat split; try assumption.
        constructor; [by eapply describe_failed | exact Hall].
      * destruct Hr' as (Hmap & Hall & ->). split; [|split].
        -- rewrite combos_S. cbn [map]. by rewrite Hpos, Hmap.
        -- constructor; [by eapply describe_failed | exact Hall].
        -- symmetry. by apply lastErrorOf_cons.
Qed.

(** The outer loop over the relays. *)
Lemma relays_spec target maxRetries services :
  forall idx lastError st,
  exists r st' new,
    relays W services idx target maxRetries lastError st
    = (Resolved r, st')
    /\ st_attempts st' = (st_attempts st ++ new)%list
    /\ relay_frame st st'
    /\ only_acceptable_stored W target st st'
    /\ match r with
       | inl body =>
           exists failures a,
             new = (failures ++ [a])%list
             /\ Forall failed failures
             /\ attemptResult a = Resolved body
             /\ acceptable W body = true
       | inr e =>
           map position new = allCombinations services idx maxRetries
           /\ Forall failed new
           /\ e = lastErrorOf lastError new
       end.
Proof.
  induction services as [|service rest IH]; intros idx lastError st.
  - exists (inr lastError), st, []. split; [reflexivity|].
    split; [by rewrite app_nil_r|]. split; [apply relay_frame_refl|].
    split; [apply stored_refl|]. repeat split. constructor.
  - cbn [relays]. unfold bind at 1.
    destruct (retries_spec service idx target maxRetries
                (Z.to_nat maxRetries) 0 lastError st)
      as (r1 & st1 & new1 & -> & Hlog & Hfr & Hst & Hr).
    destruct r1 as [body|e].
    + exists (inl body), st1, new1. split; [reflexivity|].
      split; [exact Hlog|]. split; [exact Hfr|]. split; [exact Hst|].
      exact Hr.
    + destruct (IH (S idx) e st1)
        as (r & st' & new & -> & Hlog' & Hfr' & Hst' & Hr').
      destruct Hr as (Hmap1 & Hall1 & ->).
      exists r, st', (new1 ++ new)%list. split; [reflexivity|].
      split; [rewrite Hlog', Hlog, <- app_assoc; reflexivity|].
      split; [eapply relay_frame_trans; eassumption|].
      split; [eapply stored_trans; eassumption|].
      destruct r as [body|e'].
      * destruct Hr' as (failures & b & -> & Hall & Hres & Hacc).
        exists (new1 ++ failures)%list, b.
        split; [by rewrite app_assoc|].
        split; [by apply Forall_app|]. by split.
      * destruct Hr' as (Hmap & Hall & ->). split; [|split].
        -- cbn [allCombinations]. by rewrite map_app, Hmap1, Hmap.
        -- by apply Forall_app.
        -- symmetry. apply lastErrorOf_app.
Qed.

Lemma acceptable_short (s : string) :
  (String.length s <= 100)%nat -> acceptable W (VStr s) = false.
Proof.
  intros H. unfold acceptable.
  change (get_prop (VStr s) "length")
    with (@Resolved jsval (VNum (Z.of_nat (String.length s)))).
  cbn [gt_100].
  destruct (Z.gtb_spec (Z.of_nat (String.length s)) 100); [lia|].
  apply andb_false_r.
Qed.

Lemma acceptable_long (s : string) :
  (100 < String.length s)%nat -> acceptable W (VStr s) = true.
Proof.
  intros H. unfold acceptable.
  change (get_prop (VStr s) "length")
    with (@Resolved jsval (VNum (Z.of_nat (String.length s)))).
  cbn [gt_100 truthy].
  destruct (Z.gtb_spec (Z.of_nat (String.length s)) 100); [|lia].
  destruct s; [simpl in H; lia | reflexivity].
Qed.

(** An answer that is not acceptable is a failed attempt that leaves
    the cache alone. *)
Lemma attempt_rejects service target st body :
  answers_at W (st_tick st) service target body ->
  acceptable W body = false ->
  exists st1,
    attempt W service target st = (Rejected tooSmall, st1)
    /\ st_html st1 = st_html st.
Proof.
  intros (response & responseText & Hf & Hok & Ht & Hne & Hu) Hacc.
  unfold attempt, bind at 1, do_fetch. rewrite Hf, Hok. cbn [negb].
  unfold bind at 1, lift at 1. rewrite Ht.
  destruct (String.eqb_spec responseText ""); [contradiction|].
  unfold bind at 1, lift at 1. rewrite Hu, Hacc.
  eexists. split; reflexivity.
Qed.

Lemma attempt_accepts service target st body :
  answers_at W (st_tick st) service target body ->
  acceptable W body = true ->
  exists st1, attempt W service target st = (Resolved body, st1).
Proof.
  intros (response & responseText & Hf & Hok & Ht & Hne & Hu) Hacc.
  unfold attempt, bind at 1, do_fetch. rewrite Hf, Hok. cbn [negb].
  unfold bind at 1, lift at 1. rewrite Ht.
  destruct (String.eqb_spec responseText ""); [contradiction|].
  unfold bind at 1, lift at 1. rewrite Hu, Hacc.
  eexists. reflexivity.
Qed.

Lemma retries_all_rejected service idx target maxRetries body n :
  (forall k, answers_at W k service target body) ->
  acceptable W body = false ->
  forall retry lastError st,
  exists e st',
    retries W service idx target maxRetries n retry lastError st
    = (Resolved (inr e), st')
    /\ st_html st' = st_html st.
Proof.
  intros Hans Hacc. induction n as [|n IH]; intros retry lastError st.
  - eexists _, _. split; reflexivity.
  - cbn [retries]. unfold bind at 1, tryOnce, try_catch, bind at 1.
    destruct (attempt_rejects service target st body (Hans _) Hacc)
      as (st1 & -> & Hh).
    unfold bind, log_attempt, sleep, tick, ret.
    destruct (retry <? maxRetries - 1);
      match goal with
      | |- context [retries W service idx target maxRetries n ?r ?l ?s] =>
          destruct (IH r l s) as (e & st' & -> & Hh')
      end;
      eexists _, _; (split; [reflexivity|]);
      rewrite Hh'; cbn [st_html]; exact Hh.
Qed.

Lemma retries_first_accepted service idx target maxRetries body n :
  (forall k, answers_at W k service target body) ->
  acceptable W body = true ->
  forall retry lastError st,
  exists st',
    retries W service idx target maxRetries (S n) retry lastError st
    = (Resolved (inl body), st').
Proof.
  intros Hans Hacc retry lastError st.
  cbn [retries]. unfold bind at 1, tryOnce, try_catch, bind at 1.
  destruct (attempt_accepts service target st body (Hans _) Hacc)
    as (st1 & ->).
  eexists. reflexivity.
Qed.

Lemma fetchWithCorsProxy_miss target maxRetries st :
  SimpleCache.cache (st_html st) !! target = None ->
  fetchWithCorsProxy W target maxRetries st
  = match relays W (corsProxyServices W) 0 target maxRetries None st with
    | (Resolved (inl htmlContent), st') => (Resolved htmlContent, st')
    | (Resolved (inr lastError), st') =>
        (Rejected (exhausted W maxRetries lastError), st')
    | (Rejected e, st') => (Rejected e, st')
    end.
Proof.
  intros Hmiss. unfold fetchWithCorsProxy, bind at 1, htmlCache_get.
  rewrite (CacheFacts.get_miss_absent _ _ _ Hmiss).
  cbn [default truthy]. unfold bind.
  destruct st; cbn [st_html st_urls st_dims st_tick st_attempts
                    st_fetches st_probes st_searches].
  destruct (relays W (corsProxyServices W) 0 target maxRetries None _)
    as [[[body|e]|e] st']; reflexivity.
Qed.

(** The whole chain, from any state. *)
Lemma fetchWithCorsProxy_spec target maxRetries st :
  exists r st' new,
    fetchWithCorsProxy W target maxRetries st = (r, st')
    /\ st_attempts st' = (st_attempts st ++ new)%list
    /\ relay_frame st st'
    /\ only_acceptable_stored W target st st'
    /\ match r with
       | Resolved body =>
           (new = []
            /\ fst (SimpleCache.get (st_html st) target
                      (clock W (st_tick st))) = Some body
            /\ truthy body = true)
           \/ (exists failures a,
                 new = (failures ++ [a])%list
                 /\ Forall failed failures
                 /\ attemptResult a = Resolved body
                 /\ acceptable W body = true)
       | Rejected message =>
           map position new
           = allCombinations (corsProxyServices W) 0 maxRetries
           /\ Forall failed new
           /\ message = exhausted W maxRetries (lastErrorOf None new)
       end.
Proof.
  unfold fetchWithCorsProxy, bind at 1, htmlCache_get.
  destruct (SimpleCache.get (st_html st) target (clock W (st_tick st)))
    as [cached c'] eqn:Hget.
  set (st0 := mkState c' (st_urls st) (st_dims st) (st_tick st)
                (st_attempts st) (st_fetches st) (st_probes st)
                (st_searches st)).
  assert (Hfr0 : relay_frame st st0) by (by repeat split).
  assert (Hst0 : only_acceptable_stored W target st st0).
  { intros k e He. left. cbn [st0 st_html] in He.
    apply (CacheFacts.get_subset (st_html st) target k e
             (clock W (st_tick st))).
    by rewrite Hget. }
  destruct (truthy (default VUndefined cached)) eqn:Htr.
  - destruct cached as [body|]; [|discriminate].
    exists (Resolved body), st0, []. split; [reflexivity|].
    split; [by rewrite app_nil_r|]. split; [exact Hfr0|].
    split; [exact Hst0|]. left. by repeat split.
  - unfold bind.
    destruct (relays_spec target maxRetries (corsProxyServices W) 0
                None st0)
      as (r & st' & new & -> & Hlog & Hfr & Hst & Hr).
    destruct r as [body|e].
    + exists (Resolved body), st', new. split; [reflexivity|].
      split; [exact Hlog|].
      split; [exact (relay_frame_trans st st0 st' Hfr0 Hfr)|].
      split; [exact (stored_trans target st st0 st' Hst0 Hst)|]. right. exact Hr.
    + exists (Rejected (exhausted W maxRetries e)), st', new.
      split; [reflexivity|]. split; [exact Hlog|].
      split; [exact (relay_frame_trans st st0 st' Hfr0 Hfr)|].
      split; [exact (stored_trans target st st0 st' Hst0 Hst)|].
      destruct Hr as (Hmap & Hall & ->). by repeat split.
Qed.

Lemma last_map {A B} (f : A -> B) (l : list A) :
  last (map f l) = f <$> last l.
Proof.
  induction l as [|x l IH]; [reflexivity|].
  cbn [map]. rewrite !last_cons, IH. by destruct (last l).
Qed.

(** With at least one retry the last combination is on the last
    relay of the list. *)
Lemma last_combination maxRetries :
  0 < maxRetries ->
  exists retry,
    last (allCombinations (corsProxyServices W) 0 maxRetries)
    = Some (6%nat, retry, "ThingProxy").
Proof.
  intros Hpos. destruct (Z.to_nat maxRetries) as [|n] eqn:Hn; [lia|].
  exists (Z.of_nat n).
  unfold corsProxyServices. cbn [allCombinations]. rewrite Hn.
  assert (Hl : last (combos 6
                      (mkService "ThingProxy"
                         (fun targetUrl =>
                            "https://thingproxy.freeboard.io/fetch/"
                            +:+ encodeURIComponent W targetUrl)
                         Resolved) 0 (S n))
               = Some (6%nat, Z.of_nat n, "ThingProxy")).
  { unfold combos. rewrite last_map. rewrite seq_S, last_snoc.
    reflexivity. }
  rewrite !last_app. cbn [last]. rewrite Hl. reflexivity.
Qed.

End WithWorld.
End RelayFacts.

Module RelayClaims.
Import CorsProxy RelaySpec RelayFacts StringFacts.

Lemma append_nil_r (s : string) : s +:+ "" = s.
Proof.
  induction s as [|c s IH]; [reflexivity|].
  change (String c (s +:+ "") = String c s). by rewrite IH.
Qed.

Lemma exhausted_describe (W : World) maxRetries a e :
  attemptResult a = Rejected e ->
  exhausted W maxRetries (describe a)
  = exhaustedPrefix W maxRetries +:+ serviceName a +:+ ": " +:+ e.
Proof.
  intros Ha. unfold exhausted, exhaustedPrefix, describe. rewrite Ha.
  cbn [default]. by rewrite !append_assoc.
Qed.

(** C6: [fetchWithCorsProxy] throws only after every relay/retry
    combination has been tried, in the order of the loops, and has
    failed; the message of the error then ends with the name of the
    last relay that failed, a colon and that relay's error text (with at
    least one retry per relay this is the last relay of the list); and
    when the call returns a body, it is the cached body, no attempt
    having been made, or the body of an attempt that succeeded after
    failures only. *)
Theorem relay_chain_fails_only_when_exhausted (W : World)
    (target : string) (maxRetries : Z) (st : State) :
  exists new,
    st_attempts (snd (fetchWithCorsProxy W target maxRetries st))
    = (st_attempts st ++ new)%list
    /\ match fst (fetchWithCorsProxy W target maxRetries st) with
       | Rejected message =>
           map position new
           = allCombinations (corsProxyServices W) 0 maxRetries
           /\ Forall failed new
           /\ (forall a e,
                 last new = Some a -> attemptResult a = Rejected e ->
                 message = exhaustedPrefix W maxRetries +:+ serviceName a
                           +:+ ": " +:+ e
                 /\ includes message (serviceName a +:+ ": " +:+ e)
                    = true)
           /\ (0 < maxRetries ->
               exists a e,
                 last new = Some a /\ attemptResult a = Rejected e
                 /\ serviceName a = "ThingProxy")
       | Resolved body =>
           (new = []
            /\ fst (SimpleCache.get (st_html st) target
                      (clock W (st_tick st))) = Some body)
           \/ (exists failures a,
                 new = (failures ++ [a])%list
                 /\ Forall failed failures
                 /\ attemptResult a = Resolved body)
       end.
Proof.
  destruct (fetchWithCorsProxy_spec W target maxRetries st)
    as (r & st' & new & -> & Hlog & _ & _ & Hr).
  exists new. cbn [fst snd]. split; [exact Hlog|].
  destruct r as [body|message].
  - destruct Hr as [(Hnew & Hget & _) | (failures & a & Hnew & Hall & Ha & _)].
    + left. by split.
    + right. exists failures, a. by repeat split.
  - destruct Hr as (Hmap & Hall & ->). split; [exact Hmap|].
    split; [exact Hall|]. split.
    + intros a e Hlast Ha. unfold lastErrorOf. rewrite Hlast.
      rewrite (exhausted_describe W maxRetries a e Ha).
      split; [reflexivity|].
      rewrite <- (append_nil_r (serviceName a +:+ ": " +:+ e)) at 1.
      apply includes_app.
    + intros Hpos. destruct (last_combination W maxRetries Hpos)
        as [retry Hlast].
      rewrite <- Hmap, last_map in Hlast.
      destruct (last new) as [a|] eqn:Hl; [|discriminate].
      assert (Hfa : failed a).
      { rewrite Forall_forall in Hall. apply Hall.
        apply last_Some in Hl. destruct Hl as [l' ->].
        apply elem_of_app. right. apply list_elem_of_singleton.
        reflexivity. }
      destruct Hfa as [e He]. exists a, e. split; [reflexivity|].
      split; [exact He|]. cbn in Hlast. unfold position in Hlast.
      by inversion Hlast.
Qed.

Lemma relay_chain_fails_only_when_exhausted_witness :
  fst (fetchWithCorsProxy silentWorld "https://site.org/page" 1
         initialState)
  = Rejected
      (exhaustedPrefix silentWorld 1 +:+ "ThingProxy" +:+ ": "
       +:+ "Failed to fetch")
  /\ exists new,
       st_attempts (snd (fetchWithCorsProxy silentWorld
                           "https://site.org/page" 1 initialState))
       = new
       /\ length new = 7%nat.
Proof.
  destruct (relay_chain_fails_only_when_exhausted silentWorld
              "https://site.org/page" 1 initialState) as (new & Hlog & _).
  split; [vm_compute; reflexivity|].
  exists new. split; [exact Hlog|].
  assert (Hn : length (st_attempts
                         (snd (fetchWithCorsProxy silentWorld
                                 "https://site.org/page" 1 initialState)))
               = 7%nat) by (vm_compute; reflexivity).
  rewrite Hlog in Hn. exact Hn.
Defined.

(** C7: an answer of a relay whose unwrapped body is a string of fewer
    than 100 code units - and of exactly 100 as well, the test of the
    source being [htmlContent.length > 100] - is a failed attempt that
    leaves the cache alone; no such body is acceptable, every entry
    the chain adds to the cache is an acceptable body stored under the
    requested URL, and a body it returns is the cached one or an
    acceptable one; and when the first relay answers every request
    with such a short body and the second with a body of more than 100
    code units, the result of a call that misses the cache is the
    second relay's body.  [String.length] is the [.length] of the
    source: a character of a [string] is one UTF-16 code unit. *)
Theorem short_body_is_a_failed_attempt (W : World) :
  (forall service target st s,
     answers_at W (st_tick st) service target (VStr s) ->
     (String.length s <= 100)%nat ->
     exists st1,
       attempt W service target st = (Rejected tooSmall, st1)
       /\ st_html st1 = st_html st) /\
  (forall s,
     (String.length s <= 100)%nat -> acceptable W (VStr s) = false)
  /\
  (forall target maxRetries st,
     only_acceptable_stored W target st
       (snd (fetchWithCorsProxy W target maxRetries st))
     /\ forall body,
          fst (fetchWithCorsProxy W target maxRetries st) = Resolved body ->
          fst (SimpleCache.get (st_html st) target (clock W (st_tick st)))
          = Some body
          \/ acceptable W body = true) /\
  (forall target maxRetries st relay1 relay2 rest s1 s2,
     corsProxyServices W = relay1 :: relay2 :: rest ->
     0 < maxRetries ->
     SimpleCache.cache (st_html st) !! target = None ->
     (forall n, answers_at W n relay1 target (VStr s1)) ->
     (String.length s1 <= 100)%nat ->
     (forall n, answers_at W n relay2 target (VStr s2)) ->
     (100 < String.length s2)%nat ->
     fst (fetchWithCorsProxy W target maxRetries st) = Resolved (VStr s2)).
Proof.
  split; [|split; [|split]].
  - intros service target st s Hans Hlen.
    apply (attempt_rejects W service target st (VStr s) Hans).
    apply acceptable_short. lia.
  - intros s Hlen. apply acceptable_short. lia.
  - intros target maxRetries st.
    destruct (fetchWithCorsProxy_spec W target maxRetries st)
      as (r & st' & new & -> & _ & _ & Hst & Hr).
    cbn [fst snd]. split; [exact Hst|].
    intros body Hb. subst r.
    destruct Hr as [(_ & Hget & _) | (failures & a & _ & _ & _ & Hacc)];
      [by left | by right].
  - intros target maxRetries st relay1 relay2 rest s1 s2 Hsv Hpos Hmiss
      Hans1 Hlen1 Hans2 Hlen2.
    rewrite (fetchWithCorsProxy_miss W target maxRetries st Hmiss).
    rewrite Hsv. cbn [relays]. unfold bind at 1.
    destruct (retries_all_rejected W relay1 0 target maxRetries (VStr s1)
                (Z.to_nat maxRetries) Hans1
                (acceptable_short W s1 ltac:(lia)) 0 None st)
      as (e & st1 & -> & _).
    unfold bind at 1.
    destruct (Z.to_nat maxRetries) as [|n] eqn:Hn; [lia|].
    destruct (retries_first_accepted W relay2 1 target maxRetries
                (VStr s2) n Hans2 (acceptable_long W s2 Hlen2) 0 e st1)
      as (st2 & ->).
    reflexivity.
Qed.

Lemma short_body_is_a_failed_attempt_witness :
  (String.length "<html>blocked</html>" <= 100)%nat
  /\ (100 < String.length longPage)%nat
  /\ fst (fetchWithCorsProxy relayWorld "https://site.org/page" 3
            initialState)
     = Resolved (VStr longPage)
  /\ String.length sixtyAccents = 60%nat
  /\ acceptable relayWorld (VStr sixtyAccents) = false.
Proof.
  split; [vm_compute; lia|]. split; [vm_compute; lia|].
  destruct (short_body_is_a_failed_attempt relayWorld)
    as (_ & Hshort & _ & H).
  split; [|split; [reflexivity|]];
    [|apply Hshort; vm_compute; lia].
  eapply (H "https://site.org/page" 3 initialState _ _ _
            "<html>blocked</html>" longPage).
  - reflexivity.
  - lia.
  - reflexivity.
  - intros n. eexists _, _. split; [reflexivity|].
    split; [reflexivity|]. split; [reflexivity|].
    split; [discriminate | reflexivity].
  - vm_compute. lia.
  - intros n. eexists _, _. split; [reflexivity|].
    split; [reflexivity|]. split; [reflexivity|].
    split; [discriminate | reflexivity].
  - vm_compute. lia.
Defined.

End RelayClaims.

(** *** Reachability of returned descriptors *)

Module ProbeFacts.
Import CorsProxy ImageService ProbeSpec.

(** What [!workingUrl] lets through is a URL that was found and is not
    empty. *)
Lemma usable_cases (working : option string) :
  usable working = None
  \/ exists workingUrl,
       working = Some workingUrl
       /\ usable working = Some workingUrl /\ workingUrl <> "".
Proof.
  destruct working as [workingUrl|]; [|by left]. cbn [usable].
  destruct (String.eqb_spec workingUrl "") as [->|Hne]; [by left|].
  right. by exists workingUrl.
Qed.

Lemma get_Some_entry {T} (c : SimpleCache.t T) k now v :
  fst (SimpleCache.get c k now) = Some v ->
  exists e, SimpleCache.cache c !! k = Some e /\ SimpleCache.data e = v.
Proof.
  unfold SimpleCache.get.
  destruct (SimpleCache.cache c !! k) as [e|]; [|discriminate].
  destruct (now - SimpleCache.timestamp e >? SimpleCache.expiry e);
    [discriminate|].
  simpl. intros H. inversion H. eauto.
Qed.

Section WithWorld.
Variable W : World.

(** [testImageUrl] never throws; a positive verdict means a probe of
    the URL has resolved, now or when the verdict was cached. *)
Lemma testImageUrl_spec (u : string) (st : State) :
  probes_recorded st ->
  exists verdict st',
    testImageUrl W u st = (Resolved verdict, st')
    /\ probes_recorded st'
    /\ incl (st_probes st) (st_probes st')
    /\ (verdict = true -> probed st' u).
Proof.
  intros Hrec. unfold testImageUrl, bind at 1, imageUrlCache_get.
  destruct (SimpleCache.get (st_urls st) u (clock W (st_tick st)))
    as [cached c'] eqn:Hget.
  assert (Hsub : forall k e,
             SimpleCache.cache c' !! k = Some e ->
             SimpleCache.cache (st_urls st) !! k = Some e).
  { intros k e He.
    apply (CacheFacts.get_subset (st_urls st) u k e
             (clock W (st_tick st))). by rewrite Hget. }
  destruct cached as [verdict|].
  - eexists _, _. split; [reflexivity|].
    split.
    { intros k e He Hd. cbn [st_urls st_probes] in *.
      apply (Hrec k e); auto. }
    split; [apply incl_refl|].
    intros ->. unfold probed. cbn [st_probes].
    destruct (get_Some_entry (st_urls st) u (clock W (st_tick st)) true)
      as (e & He & Hd); [by rewrite Hget|].
    by apply (Hrec u e).
  - unfold try_catch, bind at 1, do_fetch. cbn [st_tick].
    destruct (fetch W (st_tick st) "HEAD" u) as [response|e].
    + eexists _, _. split; [reflexivity|].
      split; [|split].
      * intros k e He Hd. unfold SimpleCache.set in He.
        cbn [SimpleCache.cache st_urls st_probes] in *.
        apply in_app_iff.
        destruct (decide (k = u)) as [->|Hne]; [right; by left|].
        rewrite lookup_insert_ne in He by done.
        left. apply (Hrec k e); auto.
      * intros x Hx. cbn [st_probes]. apply in_app_iff. by left.
      * intros _. unfold probed. cbn [st_probes].
        apply in_app_iff. right. by left.
    + eexists _, _. split; [reflexivity|].
      split; [|split; [apply incl_refl | discriminate]].
      intros k e' He Hd. unfold SimpleCache.set in He.
      cbn [SimpleCache.cache st_urls st_probes] in *.
      destruct (decide (k = u)) as [->|Hne].
      * rewrite lookup_insert_eq in He. inversion He; subst.
        discriminate.
      * rewrite lookup_insert_ne in He by done.
        apply (Hrec k e'); auto.
Qed.

Lemma firstWorking_spec (variations : list string) :
  forall st,
  probes_recorded st ->
  exists working st',
    firstWorking W variations st = (Resolved working, st')
    /\ probes_recorded st'
    /\ incl (st_probes st) (st_probes st')
    /\ (forall v, working = Some v -> probed st' v /\ In v variations).
Proof.
  induction variations as [|v rest IH]; intros st Hrec.
  - exists None, st. split; [reflexivity|]. split; [exact Hrec|].
    split; [apply incl_refl | discriminate].
  - cbn [firstWorking]. unfold bind at 1.
    destruct (testImageUrl_spec v st Hrec)
      as (verdict & st1 & -> & Hrec1 & Hinc1 & Hv).
    destruct verdict.
    + exists (Some v), st1. split; [reflexivity|].
      split; [exact Hrec1|]. split; [exact Hinc1|].
      intros v' Heq. inversion Heq; subst.
      split; [by apply Hv | by left].
    + destruct (IH st1 Hrec1) as (working & st' & -> & Hrec' & Hinc' & Hw).
      exists working, st'. split; [reflexivity|].
      split; [exact Hrec'|].
      split; [eapply incl_tran; eassumption|].
      intros v' Heq. destruct (Hw v' Heq). split; [done | by right].
Qed.

(** [loadImageDimensions] never throws and touches neither the
    reachability cache nor the probe log. *)
Lemma loadImageDimensions_spec (s : string) (st : State) :
  exists dimensions st',
    loadImageDimensions W s st = (Resolved dimensions, st')
    /\ st_probes st' = st_probes st
    /\ st_urls st' = st_urls st.
Proof.
  unfold loadImageDimensions, bind at 1, imageDimensionsCache_get.
  destruct (SimpleCache.get (st_dims st) s (clock W (st_tick st)))
    as [cached c'].
  destruct cached as [d|].
  - eexists _, _. split; [reflexivity|]. by split.
  - unfold bind at 1, do_loadImage. cbn [st_tick].
    destruct (loadImage W (st_tick st) s) as [d|];
      eexists _, _; (split; [reflexivity|]); by split.
Qed.

Lemma recorded_transfer st st' :
  st_probes st' = st_probes st -> st_urls st' = st_urls st ->
  probes_recorded st -> probes_recorded st'.
Proof.
  intros Hp Hu Hrec k e He Hd. rewrite Hp. rewrite Hu in He.
  by apply (Hrec k e).
Qed.

End WithWorld.
End ProbeFacts.

Module ProbeClaims.
Import CorsProxy ImageService ProbeSpec ProbeFacts.

Section WithWorld.
Variable W : World.

Lemma probed_mono st st' (l : list ImageSource) :
  incl (st_probes st) (st_probes st') ->
  Forall (fun img => probed st (src img)) l ->
  Forall (fun img => probed st' (src img)) l.
Proof.
  intros Hinc Hall. eapply Forall_impl; [exact Hall|].
  intros img Himg. by apply Hinc.
Qed.

Lemma processImageUrl_spec (u : string) (st : State) :
  probes_recorded st ->
  exists r st',
    processImageUrl W u st = (r, st')
    /\ probes_recorded st'
    /\ incl (st_probes st) (st_probes st')
    /\ match r with
       | Resolved img => probed st' (src img)
       | Rejected _ => True
       end.
Proof.
  intros Hrec. unfold processImageUrl.
  destruct (negb (validUrl W u)).
  { eexists _, _. split; [reflexivity|]. split; [exact Hrec|].
    split; [apply incl_refl | exact I]. }
  destruct (negb (existsb _ _)).
  { eexists _, _. split; [reflexivity|]. split; [exact Hrec|].
    split; [apply incl_refl | exact I]. }
  unfold bind at 1, getWorkingImageUrl.
  destruct (firstWorking_spec W (urlVariations u) st Hrec)
    as (working & st1 & -> & Hrec1 & Hinc1 & Hw).
  destruct (ProbeFacts.usable_cases working)
    as [Hus | (workingUrl & -> & Hus & Hne)]; rewrite Hus.
  { eexists _, _. split; [reflexivity|]. split; [exact Hrec1|].
      split; [exact Hinc1 | exact I]. }
  unfold bind at 1.
  destruct (loadImageDimensions_spec W workingUrl st1)
    as (dimensions & st2 & -> & Hp & Hu).
  eexists _, _. split; [reflexivity|].
  split; [by apply (recorded_transfer st1)|].
  split; [by rewrite Hp|].
  cbn [src]. unfold probed. rewrite Hp.
  by apply (Hw workingUrl).
Qed.

Lemma filterQuality_spec (candidateImages : list ImageSource)
    (minWidth minHeight maxResults : Z) :
  forall qualityImages st,
  probes_recorded st ->
  Forall (fun img => probed st (src img)) qualityImages ->
  exists result st',
    filterQuality W candidateImages minWidth minHeight maxResults
      qualityImages st
    = (Resolved result, st')
    /\ probes_recorded st'
    /\ incl (st_probes st) (st_probes st')
    /\ Forall (fun img => probed st' (src img)) result.
Proof.
  induction candidateImages as [|img rest IH];
    intros qualityImages st Hrec Hall.
  - exists qualityImages, st. split; [reflexivity|].
    split; [exact Hrec|]. split; [apply incl_refl | exact Hall].
  - cbn [filterQuality]. unfold bind at 1, getWorkingImageUrl.
    destruct (firstWorking_spec W (urlVariations (src img)) st Hrec)
      as (working & st1 & -> & Hrec1 & Hinc1 & Hw).
    destruct (ProbeFacts.usable_cases working)
      as [Hus | (workingUrl & -> & Hus & Hne)]; rewrite Hus.
    { destruct (IH qualityImages st1 Hrec1
                    (probed_mono st st1 _ Hinc1 Hall))
          as (result & st' & -> & Hrec' & Hinc' & Hres).
        exists result, st'. split; [reflexivity|].
        split; [exact Hrec'|].
        split; [eapply incl_tran; eassumption | exact Hres]. }
    destruct (Hw workingUrl eq_refl) as [Hprobed _].
    unfold bind at 1.
    assert (Hstep :
      exists img' st2,
        (if negb (truthy_num (width (set_src img workingUrl)))
            || negb (truthy_num (height (set_src img workingUrl)))
         then
           bind (loadImageDimensions W (src (set_src img workingUrl)))
             (fun dimensions =>
                match dimensions with
                | Some d => ret (set_size (set_src img workingUrl) d)
                | None => ret (set_src img workingUrl)
                end)
         else ret (set_src img workingUrl)) st1
        = (Resolved img', st2)
        /\ src img' = workingUrl
        /\ st_probes st2 = st_probes st1
        /\ st_urls st2 = st_urls st1).
    { destruct (negb _ || negb _).
      - unfold bind.
        destruct (loadImageDimensions_spec W
                    (src (set_src img workingUrl)) st1)
          as (dimensions & st2 & -> & Hp & Hu).
        destruct dimensions as [d|];
          eexists _, st2; (split; [reflexivity|]); by repeat split.
      - eexists _, st1. split; [reflexivity|]. by repeat split. }
    destruct Hstep as (img' & st2 & -> & Hsrc & Hp & Hu).
    assert (Hrec2 : probes_recorded st2)
      by (by apply (recorded_transfer st1)).
    assert (Hinc2 : incl (st_probes st) (st_probes st2))
      by (by rewrite Hp).
    assert (Hall2 :
      Forall (fun i => probed st2 (src i))
        (if isQualityImage img' minWidth minHeight
         then (qualityImages ++ [set_source img' web_extraction])%list
         else qualityImages)).
    { destruct (isQualityImage img' minWidth minHeight).
      - apply Forall_app. split; [by apply (probed_mono st)|].
        constructor; [|constructor].
        cbn [set_source src]. rewrite Hsrc. unfold probed.
        by rewrite Hp.
      - by apply (probed_mono st). }
    destruct (Z.of_nat (length _) >=? maxResults).
    + eexists _, st2. split; [reflexivity|].
      split; [exact Hrec2|]. split; [exact Hinc2 | exact Hall2].
    + destruct (IH _ st2 Hrec2 Hall2)
        as (result & st' & -> & Hrec' & Hinc' & Hres).
      exists result, st'. split; [reflexivity|].
      split; [exact Hrec'|].
      split; [eapply incl_tran; eassumption | exact Hres].
Qed.

Lemma extractImagesFromPage_spec (options : ImageExtractionOptions)
    (st : State) :
  probes_recorded st ->
  exists r st',
    extractImagesFromPage W options st = (r, st')
    /\ probes_recorded st'
    /\ match r with
       | Resolved images => Forall (fun img => probed st' (src img)) images
       | Rejected _ => True
       end.
Proof.
  intros Hrec. unfold extractImagesFromPage.
  destruct (negb (validUrl W (ex_url options))).
  { eexists _, _. split; [reflexivity|]. by split. }
  destruct (isDirectImageUrl (ex_url options)).
  { unfold bind.
    destruct (processImageUrl_spec (ex_url options) st Hrec)
      as (r & st' & -> & Hrec' & _ & Hr).
    destruct r as [img|e];
      eexists _, _; (split; [reflexivity|]); (split; [exact Hrec'|]);
      [constructor; [exact Hr | constructor] | exact I]. }
  unfold bind at 1.
  destruct (RelayFacts.fetchWithCorsProxy_spec W (ex_url options) 3 st)
    as (r & st1 & new & -> & _ & (Hp & Hu & _) & _).
  destruct r as [htmlContent|e].
  2:{ eexists _, _. split; [reflexivity|].
      split; [by apply (recorded_transfer st) | exact I]. }
  destruct (collectCandidates W _ _) as [found candidateImages].
  destruct (filterQuality_spec candidateImages
              (default DEFAULT_MIN_WIDTH (minWidth options))
              (default DEFAULT_MIN_HEIGHT (minHeight options))
              (default DEFAULT_MAX_RESULTS (maxResults options))
              [] st1)
    as (result & st' & -> & Hrec' & _ & Hres);
    [by apply (recorded_transfer st) | constructor |].
  eexists _, _. split; [reflexivity|]. by split.
Qed.

Lemma searchUnsplash_no_probe (options : ImageSearchOptions)
    (st : State) :
  st_probes (snd (searchUnsplash W options st)) = st_probes st.
Proof.
  unfold searchUnsplash.
  destruct (env W "VITE_UNSPLASH_ACCESS_KEY") as [key|]; [|reflexivity].
  destruct (String.eqb key ""); [reflexivity|].
  unfold bind at 1, do_fetch.
  destruct (fetch W (st_tick st) "GET" (searchUrl W key options))
    as [response|e]; [|reflexivity].
  destruct (negb (ok response)); [reflexivity|].
  unfold bind at 1, lift at 1.
  destruct (json response) as [data|e]; [|reflexivity].
  unfold bind at 1, lift at 1.
  destruct (get_prop data "results") as [results|e]; [|reflexivity].
  destruct results; reflexivity.
Qed.

Lemma uploadImage_no_probe (options : ImageUploadOptions) (st : State) :
  st_probes (snd (uploadImage W options st)) = st_probes st.
Proof.
  unfold uploadImage.
  destruct (negb (existsb _ _)); [reflexivity|].
  destruct (file_size (file options) >? _); [reflexivity|].
  unfold bind, get_state, tick.
  destruct (readAsDataURL W (st_tick st) (file_name (file options)))
    as [dataUrl|]; [|reflexivity].
  unfold do_loadImage. cbn [st_tick].
  destruct (loadImage W (S (st_tick st)) dataUrl); reflexivity.
Qed.

End WithWorld.

(** C1, as stated, fails for the stock-photo search: [searchUnsplash]
    returns the descriptors of the API's reply and no probe of any URL
    has been made; the one request of the call is the search itself. *)
Lemma search_result_never_probed :
  let r := searchUnsplash (generatorWorld VNull)
             (mkSearch "sea" None None None) initialState in
  fst r
  = Resolved [mkImage "https://images.unsplash.com/photo-1"
                "Imagem do Unsplash" None None (Some unsplash)]
  /\ st_probes (snd r) = []
  /\ st_fetches (snd r) = [("GET", "https://api.unsplash.com/search/photos?")].
Proof. vm_compute. repeat split. Qed.

(** C1 (amended): in a state where every positive verdict of the
    reachability cache stems from a resolved probe (as in the initial
    state), every descriptor returned by [processImageUrl] and every
    descriptor returned by [extractImagesFromPage] has a [src] whose
    HEAD probe has resolved at least once before the return, and the
    state after the call is again such a state; [searchUnsplash] and
    [uploadImage] probe nothing. *)
Theorem returned_descriptors_probed (W : World) (st : State) :
  probes_recorded st ->
  (forall u img st',
     processImageUrl W u st = (Resolved img, st') ->
     probed st' (src img) /\ probes_recorded st') /\
  (forall options images st',
     extractImagesFromPage W options st = (Resolved images, st') ->
     Forall (fun img => probed st' (src img)) images
     /\ probes_recorded st') /\
  (forall options,
     st_probes (snd (searchUnsplash W options st)) = st_probes st) /\
  (forall options,
     st_probes (snd (uploadImage W options st)) = st_probes st).
Proof.
  intros Hrec. split; [|split; [|split]].
  - intros u img st' H.
    destruct (processImageUrl_spec W u st Hrec)
      as (r & st1 & Heq & Hrec1 & _ & Hr).
    rewrite H in Heq. inversion Heq; subst. by split.
  - intros options images st' H.
    destruct (extractImagesFromPage_spec W options st Hrec)
      as (r & st1 & Heq & Hrec1 & Hr).
    rewrite H in Heq. inversion Heq; subst. by split.
  - intros options. apply searchUnsplash_no_probe.
  - intros options. apply uploadImage_no_probe.
Qed.

Lemma initialState_recorded : probes_recorded initialState.
Proof.
  intros u e He.
  unfold initialState, imageUrlCache, SimpleCache.new in He.
  cbn [st_urls SimpleCache.cache] in He. by rewrite lookup_empty in He.
Qed.

Lemma returned_descriptors_probed_witness :
  probes_recorded initialState
  /\ exists img st',
       processImageUrl reachableWorld "https://site.org/photos/a.jpg"
         initialState
       = (Resolved img, st')
       /\ src img = "https://site.org/photos/a.jpg"
       /\ probed st' (src img).
Proof.
  split; [apply initialState_recorded|].
  destruct (processImageUrl reachableWorld "https://site.org/photos/a.jpg"
              initialState) as [r st'] eqn:Hrun.
  assert (Hr : r = Resolved (mkImage "https://site.org/photos/a.jpg" "a"
                               None None (Some url))).
  { assert (H : fst (processImageUrl reachableWorld
                       "https://site.org/photos/a.jpg" initialState) = r)
      by (rewrite Hrun; reflexivity).
    rewrite <- H. vm_compute. reflexivity. }
  subst r. eexists _, st'. split; [reflexivity|]. split; [reflexivity|].
  destruct (returned_descriptors_probed reachableWorld initialState
              initialState_recorded) as [H _].
  apply (H "https://site.org/photos/a.jpg" _ st' Hrun).
Defined.

End ProbeClaims.

(* ===================================================================== *)
(** ** Further properties of the modelled code *)
(* ===================================================================== *)

Module CacheExtra.
Import SimpleCache CacheFacts.

(** X1: [set] touches one key only.  A second [set] on the same key
    replaces the entry (value, timestamp and ttl of the later call win);
    the size grows by one for a fresh key and stays the same for a key
    that is present; and what [get] returns for any other key is what
    it returned before. *)
Theorem cache_set_touches_one_key {T} (c : SimpleCache.t T)
    (k k' : string) (v v' : T) (ttl ttl' : option Z) (ts ts' now : Z) :
  set (set c k v ttl ts) k v' ttl' ts' = set c k v' ttl' ts'
  /\ (cache c !! k = None -> size (set c k v ttl ts) = S (size c))
  /\ (is_Some (cache c !! k) -> size (set c k v ttl ts) = size c)
  /\ (k <> k' -> fst (get (set c k v ttl ts) k' now) = fst (get c k' now)).
Proof.
  split; [|split; [|split]].
  - unfold set. cbn [cache defaultTTL]. f_equal. apply insert_insert_eq.
  - intros Hnone. unfold size, set. cbn [cache].
    by apply map_size_insert_None.
  - intros Hsome. unfold size, set. cbn [cache].
    by apply map_size_insert_Some.
  - intros Hne. unfold get, set. cbn [cache defaultTTL].
    rewrite lookup_insert_ne by done.
    destruct (cache c !! k') as [e|]; [|reflexivity].
    destruct (now - timestamp e >? expiry e); reflexivity.
Qed.

End CacheExtra.

Module QualityExtra.
Import StringFacts.

Lemma lower_unit_idempotent (c : ascii) :
  lower_unit (lower_unit c) = lower_unit c.
Proof. destruct c as [[] [] [] [] [] [] [] []]; reflexivity. Qed.

Lemma toLowerCase_idempotent (s : string) :
  toLowerCase (toLowerCase s) = toLowerCase s.
Proof.
  induction s as [|c s IH]; [reflexivity|].
  cbn [toLowerCase]. by rewrite lower_unit_idempotent, IH.
Qed.

(** X2: raising the thresholds of the service's quality filter can only
    reject more: an image accepted at [minWidth'] and [minHeight'] is
    accepted at any thresholds that are not larger. *)
Theorem quality_threshold_monotone (img : ImageService.ImageSource)
    (minWidth minHeight minWidth' minHeight' : Z) :
  minWidth <= minWidth' ->
  minHeight <= minHeight' ->
  ImageService.isQualityImage img minWidth' minHeight' = true ->
  ImageService.isQualityImage img minWidth minHeight = true.
Proof.
  intros Hw Hh. unfold ImageService.isQualityImage. lazy zeta.
  intros H. apply andb_true_iff in H. destruct H as [H Hsize].
  rewrite H. cbn [andb].
  destruct (truthy_num (ImageService.width img)
            && truthy_num (ImageService.height img)); [|reflexivity].
  apply andb_true_iff in Hsize. destruct Hsize as [H1 H2].
  apply andb_true_iff. split.
  - destruct (Z.geb_spec (default 0 (ImageService.width img)) minWidth');
      [|discriminate].
    destruct (Z.geb_spec (default 0 (ImageService.width img)) minWidth);
      [reflexivity | lia].
  - destruct (Z.geb_spec (default 0 (ImageService.height img)) minHeight');
      [|discriminate].
    destruct (Z.geb_spec (default 0 (ImageService.height img)) minHeight);
      [reflexivity | lia].
Qed.

Lemma quality_threshold_monotone_witness :
  300 <= 600 /\ 200 <= 400
  /\ ImageService.isQualityImage
       (ImageService.mkImage "https://site.org/photos/beach.jpg" "A beach"
          (Some 1200) (Some 800) None) 300 200 = true.
Proof.
  split; [lia|]. split; [lia|].
  apply (quality_threshold_monotone _ 300 200 600 400); [lia | lia |].
  reflexivity.
Defined.

(** X3: a declared width or height of 0 counts as unknown in both
    quality filters: the verdict is that of the same image without its
    size, so the size thresholds do not apply to it. *)
Theorem quality_zero_size_is_unknown :
  (forall s a w h so minWidth minHeight,
     w = Some 0 \/ h = Some 0 ->
     ImageService.isQualityImage (ImageService.mkImage s a w h so)
       minWidth minHeight
     = ImageService.isQualityImage (ImageService.mkImage s a None None so)
         minWidth minHeight) /\
  (forall s a w h,
     w = Some 0 \/ h = Some 0 ->
     ImageExtractor.isQualityImage (ImageExtractor.mkExtracted s a w h)
     = ImageExtractor.isQualityImage
         (ImageExtractor.mkExtracted s a None None)).
Proof.
  split.
  - intros s a w h so minWidth minHeight Hz.
    unfold ImageService.isQualityImage. lazy zeta.
    cbn [ImageService.src ImageService.alt ImageService.width
         ImageService.height].
    f_equal. destruct Hz as [-> | ->]; cbn [truthy_num Z.eqb negb andb].
    + reflexivity.
    + by rewrite andb_false_r.
  - intros s a w h Hz.
    unfold ImageExtractor.isQualityImage. lazy zeta.
    cbn [ImageExtractor.src ImageExtractor.alt ImageExtractor.width
         ImageExtractor.height].
    f_equal. destruct Hz as [-> | ->]; cbn [truthy_num Z.eqb negb andb].
    + reflexivity.
    + by rewrite andb_false_r.
Qed.

(** X4: both quality filters read the URL and the alt text through
    [toLowerCase] only, so the verdict for an image is the verdict for
    the image with its URL and alt text in lower case. *)
Theorem quality_is_case_insensitive :
  (forall s a w h so minWidth minHeight,
     ImageService.isQualityImage
       (ImageService.mkImage (toLowerCase s) (toLowerCase a) w h so)
       minWidth minHeight
     = ImageService.isQualityImage (ImageService.mkImage s a w h so)
         minWidth minHeight) /\
  (forall s a w h,
     ImageExtractor.isQualityImage
       (ImageExtractor.mkExtracted (toLowerCase s) (toLowerCase a) w h)
     = ImageExtractor.isQualityImage (ImageExtractor.mkExtracted s a w h)).
Proof.
  split.
  - intros. unfold ImageService.isQualityImage. lazy zeta.
    cbn [ImageService.src ImageService.alt ImageService.width
         ImageService.height].
    by rewrite !toLowerCase_idempotent.
  - intros. unfold ImageExtractor.isQualityImage. lazy zeta.
    cbn [ImageExtractor.src ImageExtractor.alt ImageExtractor.width
         ImageExtractor.height].
    by rewrite !toLowerCase_idempotent.
Qed.

End QualityExtra.

Module DomExtra.
Import Dom StringFacts.

Lemma prefix_append (p a b : string) :
  String.prefix p a = true -> String.prefix p (a +:+ b) = true.
Proof.
  intros H. destruct (prefix_inv _ _ H) as [r ->].
  rewrite append_assoc. apply prefix_app.
Qed.

Lemma absolute_unchanged (s : string) (baseUrl : URL) :
  startsWith s "http" = true -> convertToAbsoluteUrl s baseUrl = s.
Proof.
  intros H. destruct (prefix_inv _ _ H) as [r ->].
  unfold convertToAbsoluteUrl, startsWith in *. rewrite H. reflexivity.
Qed.

Lemma result_is_absolute (s : string) (baseUrl : URL) :
  startsWith (protocol baseUrl) "http" = true ->
  startsWith (convertToAbsoluteUrl s baseUrl) "http" = true.
Proof.
  intros Hp. unfold convertToAbsoluteUrl.
  destruct (startsWith s "//"); [reflexivity|].
  destruct (startsWith s "/"); [by apply prefix_append|].
  destruct (startsWith s "http") eqn:Hs; [exact Hs|].
  cbn [negb]. by apply prefix_append.
Qed.

(** X5: [convertToAbsoluteUrl] leaves a URL that starts with http as
    it is, and for a page whose protocol starts with http its result
    always starts with http, so converting twice is converting once. *)
Theorem convertToAbsoluteUrl_idempotent (s : string) (baseUrl : URL) :
  startsWith (protocol baseUrl) "http" = true ->
  startsWith (convertToAbsoluteUrl s baseUrl) "http" = true
  /\ convertToAbsoluteUrl (convertToAbsoluteUrl s baseUrl) baseUrl
     = convertToAbsoluteUrl s baseUrl
  /\ (startsWith s "http" = true -> convertToAbsoluteUrl s baseUrl = s).
Proof.
  intros Hp. pose proof (result_is_absolute s baseUrl Hp) as H.
  split; [exact H|]. split; [by apply absolute_unchanged|].
  apply absolute_unchanged.
Qed.

Lemma convertToAbsoluteUrl_idempotent_witness :
  startsWith (protocol siteBase) "http" = true
  /\ convertToAbsoluteUrl (convertToAbsoluteUrl "img/a.jpg" siteBase)
       siteBase
     = "https://site.org/img/a.jpg".
Proof.
  split; [reflexivity|].
  destruct (convertToAbsoluteUrl_idempotent "img/a.jpg" siteBase
              eq_refl) as (_ & -> & _).
  reflexivity.
Defined.

Lemma take_plain_plain (s : string) :
  all_chars (fun c => negb (is_delim c)) (fst (take_plain s)) = true.
Proof.
  induction s as [|c s IH]; [reflexivity|].
  cbn [take_plain]. destruct (is_delim c) eqn:Hc; [reflexivity|].
  destruct (take_plain s) as [g rest]. cbn [fst all_chars] in *.
  by rewrite Hc, IH.
Qed.

Lemma bgMatch_here_capture (s g : string) :
  bgMatch_here s = Some g ->
  g <> "" /\ all_chars (fun c => negb (is_delim c)) g = true
  /\ String.prefix "background-image:" s = true.
Proof.
  unfold bgMatch_here, strip_prefix.
  destruct (String.prefix "background-image:" s); [|discriminate].
  destruct (String.prefix "url(" _); [|discriminate].
  match goal with
  | |- context [take_plain ?x] =>
      pose proof (take_plain_plain x) as Hplain;
      destruct (take_plain x) as [g' rest]
  end.
  cbn [fst] in Hplain.
  destruct (String.eqb_spec g' ""); [discriminate|].
  destruct (String.prefix ")" _); [|discriminate].
  intros H. inversion H; subst. by repeat split.
Qed.

(** X6: when an inline style matches the background-image pattern, the
    captured URL is not empty, contains no quote and no parenthesis, and
    the style contains the text [background-image:]. *)
Theorem bgMatch_capture (style g : string) :
  bgMatch style = Some g ->
  g <> ""
  /\ all_chars (fun c => negb (is_delim c)) g = true
  /\ includes style "background-image:" = true.
Proof.
  induction style as [|c style IH]; intros H.
  - vm_compute in H. discriminate.
  - cbn [bgMatch] in H.
    destruct (bgMatch_here (String c style)) as [g'|] eqn:Hh.
    + inversion H; subst.
      destruct (bgMatch_here_capture _ _ Hh) as (H1 & H2 & H3).
      split; [exact H1|]. split; [exact H2|].
      rewrite includes_unfold, H3. reflexivity.
    + destruct (IH H) as (H1 & H2 & H3).
      split; [exact H1|]. split; [exact H2|].
      rewrite includes_unfold, H3. apply orb_true_r.
Qed.

Lemma bgMatch_capture_witness :
  bgMatch "color: red; background-image: url('/hero.jpg')" = Some "/hero.jpg"
  /\ all_chars (fun c => negb (is_delim c)) "/hero.jpg" = true.
Proof.
  split; [reflexivity|].
  destruct (bgMatch_capture
              "color: red; background-image: url('/hero.jpg')"
              "/hero.jpg" eq_refl) as (_ & H & _).
  exact H.
Defined.

End DomExtra.

Module RelayExtra.
Import CorsProxy RelaySpec RelayFacts.

Section WithWorld.
Variable W : World.

Lemma state_eta (st : State) :
  mkState (st_html st) (st_urls st) (st_dims st) (st_tick st)
    (st_attempts st) (st_fetches st) (st_probes st) (st_searches st)
  = st.
Proof. by destruct st. Qed.

Lemma relays_without_retries services idx target maxRetries lastError st :
  maxRetries <= 0 ->
  relays W services idx target maxRetries lastError st
  = (Resolved (inr lastError), st).
Proof.
  intros Hm. revert idx. induction services as [|service rest IH];
    intros idx; [reflexivity|].
  cbn [relays]. replace (Z.to_nat maxRetries) with 0%nat by lia.
  cbn [retries]. unfold bind, ret. apply IH.
Qed.

(** A fresh truthy entry is returned as it is, and nothing happens. *)
Lemma fetchWithCorsProxy_hit target maxRetries st e :
  SimpleCache.cache (st_html st) !! target = Some e ->
  clock W (st_tick st) - SimpleCache.timestamp e
    <= SimpleCache.expiry e ->
  truthy (SimpleCache.data e) = true ->
  fetchWithCorsProxy W target maxRetries st
  = (Resolved (SimpleCache.data e), st).
Proof.
  intros He Hfresh Htr.
  unfold fetchWithCorsProxy, bind at 1, htmlCache_get.
  rewrite (CacheFacts.get_fresh _ _ _ _ He Hfresh).
  cbv beta iota. cbn [default from_option id]. rewrite Htr. unfold ret.
  by rewrite state_eta.
Qed.

End WithWorld.

(** What the chain takes from the cache: the fresh entry for the URL,
    when its body is truthy. *)
Definition cachedBody (W : World) (target : string) (st : State)
    : option jsval :=
  match fst (SimpleCache.get (st_html st) target (clock W (st_tick st)))
  with
  | Some body => if truthy body then Some body else None
  | None => None
  end.

(** X7: with [maxRetries] zero or negative the relay chain makes no
    request and no attempt, and its outcome is decided by the cache
    alone: when the cache holds a fresh truthy body for the URL the
    call returns that body, and in every other case it throws the
    final error with the last error reading [null].  The only change
    of state is that of the cache read, which drops a stale entry. *)
Theorem relay_chain_without_retries (W : World) (target : string)
    (maxRetries : Z) (st : State) :
  maxRetries <= 0 ->
  exists st',
    fetchWithCorsProxy W target maxRetries st
    = (match cachedBody W target st with
       | Some body => Resolved body
       | None => Rejected (exhaustedPrefix W maxRetries +:+ "null")
       end, st')
    /\ st_fetches st' = st_fetches st
    /\ st_attempts st' = st_attempts st
    /\ st_tick st' = st_tick st
    /\ st_html st'
       = snd (SimpleCache.get (st_html st) target (clock W (st_tick st))).
Proof.
  intros Hm. unfold fetchWithCorsProxy, bind at 1, htmlCache_get, cachedBody.
  destruct (SimpleCache.get (st_html st) target (clock W (st_tick st)))
    as [cached c'].
  cbn [fst snd].
  assert (Hthrow :
    forall st1,
      bind (relays W (corsProxyServices W) 0 target maxRetries None)
        (fun r => match r with
                  | inl htmlContent => ret htmlContent
                  | inr lastError => throw (exhausted W maxRetries lastError)
                  end) st1
      = (Rejected (exhaustedPrefix W maxRetries +:+ "null"), st1)).
  { intros st1. unfold bind.
    rewrite (relays_without_retries W _ _ _ _ _ _ Hm).
    unfold throw, exhausted, exhaustedPrefix.
    cbn [default from_option id].
    by rewrite !StringFacts.append_assoc. }
  destruct cached as [body|]; cbn [default from_option id].
  - destruct (truthy body).
    + eexists. split; [reflexivity|]. by repeat split.
    + rewrite Hthrow. eexists. split; [reflexivity|]. by repeat split.
  - cbn [truthy]. rewrite Hthrow.
    eexists. split; [reflexivity|]. by repeat split.
Qed.

Lemma relay_chain_without_retries_witness :
  0 <= 0
  /\ fst (fetchWithCorsProxy silentWorld "https://site.org/page" 0
            (pageCached "https://site.org/page" (VStr longPage)))
     = Resolved (VStr longPage)
  /\ fst (fetchWithCorsProxy silentWorld "https://site.org/page" 0
            initialState)
     = Rejected (exhaustedPrefix silentWorld 0 +:+ "null").
Proof.
  split; [lia|]. split.
  - destruct (relay_chain_without_retries silentWorld
                "https://site.org/page" 0
                (pageCached "https://site.org/page" (VStr longPage)))
      as (st' & Heq & _); [lia|].
    rewrite Heq. reflexivity.
  - destruct (relay_chain_without_retries silentWorld
                "https://site.org/page" 0 initialState)
      as (st' & Heq & _); [lia|].
    rewrite Heq. reflexivity.
Defined.

End RelayExtra.

Module RelayCaching.
Import CorsProxy RelaySpec RelayFacts RelayExtra.

Lemma get_defaultTTL {T} (c : SimpleCache.t T) k now :
  SimpleCache.defaultTTL (snd (SimpleCache.get c k now))
  = SimpleCache.defaultTTL c.
Proof.
  unfold SimpleCache.get. destruct (SimpleCache.cache c !! k) as [e|];
    [|reflexivity].
  destruct (now - SimpleCache.timestamp e >? SimpleCache.expiry e);
    reflexivity.
Qed.

Lemma acceptable_truthy W body : acceptable W body = true -> truthy body = true.
Proof. unfold acceptable. intros H. by apply andb_true_iff in H as [H _]. Qed.

(** A request to a relay of the list for [target]. *)
Definition relay_request (services : list CorsProxyService)
    (target : string) (f : string * string) : Prop :=
  fst f = "GET" /\ exists service, In service services
                                   /\ snd f = url service target.

Section WithWorld.
Variable W : World.

(** What a returned body leaves in the cache. *)
Definition stored (st0 st' : State) (target : string) (body : jsval)
    : Prop :=
  acceptable W body = true
  /\ st_html st'
     = SimpleCache.set (st_html st0) target body None
         (clock W (st_tick st')).

Lemma attempt_outcome service target st :
  exists r st1,
    attempt W service target st = (r, st1)
    /\ st_fetches st1
       = (st_fetches st ++ [("GET", url service target)])%list
    /\ match r with
       | Resolved body => stored st st1 target body
       | Rejected _ => st_html st1 = st_html st
       end.
Proof.
  unfold attempt, bind at 1, do_fetch.
  destruct (fetch W (st_tick st) "GET" (url service target))
    as [response|e]; [|by eexists _, _].
  destruct (ok response); cbn [negb]; [|by eexists _, _].
  unfold bind at 1, lift at 1.
  destruct (text response) as [responseText|e]; [|by eexists _, _].
  destruct (String.eqb responseText ""); [by eexists _, _|].
  unfold bind at 1, lift at 1.
  destruct (unwrap W service responseText) as [htmlContent|e];
    [|by eexists _, _].
  destruct (acceptable W htmlContent) eqn:Hacc; [|by eexists _, _].
  eexists _, _. split; [reflexivity|]. split; [reflexivity|].
  split; [exact Hacc | reflexivity].
Qed.

Lemma tryOnce_outcome service idx target maxRetries retry st :
  exists r st1,
    tryOnce W service idx target maxRetries retry st = (Resolved r, st1)
    /\ st_fetches st1
       = (st_fetches st ++ [("GET", url service target)])%list
    /\ match r with
       | inl body => stored st st1 target body
       | inr _ => st_html st1 = st_html st
       end.
Proof.
  destruct (attempt_outcome service target st)
    as (r & st1 & Ha & Hf & Hr).
  unfold tryOnce, try_catch, bind at 1. rewrite Ha.
  destruct r as [body|e].
  - eexists _, _. split; [reflexivity|]. cbn [st_fetches].
    split; [exact Hf|]. exact Hr.
  - unfold bind, log_attempt, sleep, tick, ret.
    destruct (retry <? maxRetries - 1);
      eexists _, _; (split; [reflexivity|]); cbn [st_fetches st_html];
      by split.
Qed.

Lemma retries_outcome service idx target maxRetries n :
  forall retry lastError st,
  exists r st' k,
    retries W service idx target maxRetries n retry lastError st
    = (Resolved r, st')
    /\ (k <= n)%nat
    /\ st_fetches st'
       = (st_fetches st
          ++ repeat ("GET", url service target) k)%list
    /\ match r with
       | inl body => stored st st' target body /\ (0 < k)%nat
       | inr _ => st_html st' = st_html st
       end.
Proof.
  induction n as [|n IH]; intros retry lastError st.
  - exists (inr lastError), st, 0%nat. split; [reflexivity|].
    split; [lia|]. split; [by rewrite app_nil_r | reflexivity].
  - cbn [retries]. unfold bind at 1.
    destruct (tryOnce_outcome service idx target maxRetries retry st)
      as (r1 & st1 & -> & Hf & Hr).
    destruct r1 as [body|e].
    + exists (inl body), st1, 1%nat. split; [reflexivity|].
      split; [lia|]. split; [exact Hf|]. split; [exact Hr | lia].
    + destruct (IH (retry + 1) (Some e) st1)
        as (r & st' & k & -> & Hk & Hf' & Hr').
      exists r, st', (S k). split; [reflexivity|]. split; [lia|].
      split.
      * rewrite Hf', Hf, <- app_assoc. reflexivity.
      * destruct r as [body|e'].
        -- destruct Hr' as [[Hacc Hh] _]. split; [|lia].
           split; [exact Hacc|]. by rewrite Hh, Hr.
        -- by rewrite Hr'.
Qed.

Lemma relays_outcome target maxRetries services :
  forall idx lastError st,
  exists r st' reqs,
    relays W services idx target maxRetries lastError st
    = (Resolved r, st')
    /\ st_fetches st' = (st_fetches st ++ reqs)%list
    /\ (length reqs <= length services * Z.to_nat maxRetries)%nat
    /\ Forall (relay_request services target) reqs
    /\ match r with
       | inl body => stored st st' target body /\ reqs <> []
       | inr _ => st_html st' = st_html st
       end.
Proof.
  induction services as [|service rest IH]; intros idx lastError st.
  - exists (inr lastError), st, []. split; [reflexivity|].
    split; [by rewrite app_nil_r|]. split; [simpl; lia|].
    split; [constructor | reflexivity].
  - cbn [relays]. unfold bind at 1.
    destruct (retries_outcome service idx target maxRetries
                (Z.to_nat maxRetries) 0 lastError st)
      as (r1 & st1 & k & -> & Hk & Hf & Hr).
    assert (Hreq : Forall (relay_request (service :: rest) target)
                     (repeat ("GET", url service target) k)).
    { apply Forall_forall. intros f Hin.
      apply list_elem_of_In, repeat_spec in Hin. subst f.
      split; [reflexivity|]. exists service. split; [by left | done]. }
    destruct r1 as [body|e].
    + exists (inl body), st1, (repeat ("GET", url service target) k).
      split; [reflexivity|]. split; [exact Hf|].
      split; [rewrite repeat_length; cbn [length]; lia|].
      split; [exact Hreq|]. destruct Hr as [Hr Hk0].
      split; [exact Hr|]. destruct k as [|k]; [lia | discriminate].
    + destruct (IH (S idx) e st1)
        as (r & st' & reqs & -> & Hf' & Hlen & Hall & Hr').
      exists r, st', (repeat ("GET", url service target) k ++ reqs)%list.
      split; [reflexivity|].
      split; [rewrite Hf', Hf, <- app_assoc; reflexivity|].
      split; [rewrite length_app, repeat_length; cbn [length]; lia|].
      split.
      * apply Forall_app. split; [exact Hreq|].
        eapply Forall_impl; [exact Hall|].
        intros f [Hg (sv & Hin & Hu)]. split; [exact Hg|].
        exists sv. split; [by right | exact Hu].
      * destruct r as [body|e'].
        -- destruct Hr' as [[Hacc Hh] Hne]. split.
           ++ split; [exact Hacc|]. by rewrite Hh, Hr.
           ++ intros Heq. apply app_eq_nil in Heq. tauto.
        -- by rewrite Hr'.
Qed.

Lemma fetchWithCorsProxy_outcome target maxRetries st :
  exists r st' reqs,
    fetchWithCorsProxy W target maxRetries st = (r, st')
    /\ st_fetches st' = (st_fetches st ++ reqs)%list
    /\ (length reqs <= 7 * Z.to_nat maxRetries)%nat
    /\ Forall (relay_request (corsProxyServices W) target) reqs
    /\ (forall body,
          r = Resolved body -> reqs <> [] ->
          acceptable W body = true
          /\ SimpleCache.cache (st_html st') !! target
             = Some (SimpleCache.mkEntry body (clock W (st_tick st'))
                       (SimpleCache.defaultTTL (st_html st)))).
Proof.
  unfold fetchWithCorsProxy, bind at 1, htmlCache_get.
  pose proof (get_defaultTTL (st_html st) target (clock W (st_tick st)))
    as Httl.
  destruct (SimpleCache.get (st_html st) target (clock W (st_tick st)))
    as [cached c']. cbn [snd] in Httl.
  destruct (truthy (default VUndefined cached)).
  - eexists _, _, []. split; [reflexivity|]. cbn [st_fetches].
    split; [by rewrite app_nil_r|]. split; [simpl; lia|].
    split; [constructor|]. intros body _ Hne. by destruct Hne.
  - unfold bind.
    destruct (relays_outcome target maxRetries (corsProxyServices W) 0
                None
                (mkState c' (st_urls st) (st_dims st) (st_tick st)
                   (st_attempts st) (st_fetches st) (st_probes st)
                   (st_searches st)))
      as (r & st' & reqs & -> & Hf & Hlen & Hall & Hr).
    cbn [st_fetches st_html] in *.
    destruct r as [body|e].
    + exists (Resolved body), st', reqs. split; [reflexivity|].
      split; [exact Hf|]. split; [exact Hlen|]. split; [exact Hall|].
      intros body' Heq _. inversion Heq; subst body'.
      destruct Hr as [[Hacc Hh] _]. split; [exact Hacc|].
      cbn [st_html] in Hh. rewrite Hh. unfold SimpleCache.set.
      cbn [SimpleCache.cache SimpleCache.ttl_or_default].
      rewrite Httl. apply lookup_insert_eq.
    + eexists _, st', reqs. split; [reflexivity|].
      split; [exact Hf|]. split; [exact Hlen|]. split; [exact Hall|].
      intros body Heq. discriminate.
Qed.

End WithWorld.

(** X8: one call of the relay chain makes at most seven times
    [maxRetries] requests, every one of them a GET to the URL one of
    the seven relays builds for the target. *)
Theorem relay_chain_request_bound (W : World) (target : string)
    (maxRetries : Z) (st : State) :
  exists reqs,
    st_fetches (snd (fetchWithCorsProxy W target maxRetries st))
    = (st_fetches st ++ reqs)%list
    /\ (length reqs <= 7 * Z.to_nat maxRetries)%nat
    /\ Forall (relay_request (corsProxyServices W) target) reqs.
Proof.
  destruct (fetchWithCorsProxy_outcome W target maxRetries st)
    as (r & st' & reqs & -> & Hf & Hlen & Hall & _).
  exists reqs. by repeat split.
Qed.

(** X9: a body obtained from a relay is served from the cache
    afterwards: when a call returned a body after at least one request,
    any later call for the same URL, made while the HTML cache is as
    that call left it and no more than the cache's default TTL after it,
    returns the same body and changes nothing, whatever [maxRetries]. *)
Theorem relay_chain_result_is_cached (W : World) (target : string)
    (maxRetries maxRetries' : Z) (st st' st2 : State) (body : jsval) :
  fetchWithCorsProxy W target maxRetries st = (Resolved body, st') ->
  st_fetches st' <> st_fetches st ->
  st_html st2 = st_html st' ->
  clock W (st_tick st2) - clock W (st_tick st')
    <= SimpleCache.defaultTTL (st_html st) ->
  fetchWithCorsProxy W target maxRetries' st2 = (Resolved body, st2).
Proof.
  intros Hrun Hreq Hhtml Htime.
  destruct (fetchWithCorsProxy_outcome W target maxRetries st)
    as (r & st1 & reqs & Heq & Hf & _ & _ & Hr).
  rewrite Hrun in Heq. inversion Heq; subst r st1.
  destruct (Hr body eq_refl) as [Hacc He].
  { intros ->. apply Hreq. by rewrite Hf, app_nil_r. }
  rewrite <- Hhtml in He.
  apply (fetchWithCorsProxy_hit W target maxRetries' st2 _ He).
  - cbn [SimpleCache.timestamp SimpleCache.expiry]. exact Htime.
  - cbn [SimpleCache.data]. by apply (acceptable_truthy W).
Qed.

Lemma relay_chain_result_is_cached_witness :
  let first := fetchWithCorsProxy relayWorld "https://site.org/page" 3
                 initialState in
  fst first = Resolved (VStr longPage)
  /\ fetchWithCorsProxy relayWorld "https://site.org/page" 1 (snd first)
     = (Resolved (VStr longPage), snd first).
Proof.
  intros first.
  assert (H1 : fst first = Resolved (VStr longPage))
    by (vm_compute; reflexivity).
  split; [exact H1|].
  apply (relay_chain_result_is_cached relayWorld "https://site.org/page"
           3 1 initialState (snd first) (snd first)).
  - change (first = (Resolved (VStr longPage), snd first)).
    rewrite <- H1. apply surjective_pairing.
  - vm_compute. discriminate.
  - reflexivity.
  - vm_compute. discriminate.
Defined.

End RelayCaching.

Module ProbeExtra.
Import CorsProxy ProbeSpec ProbeFacts RelayExtra RelayCaching.

(** Whether a promise resolved. *)
Definition resolved {A} (o : outcome A) : bool :=
  match o with
  | Resolved _ => true
  | Rejected _ => false
  end.

Section WithWorld.
Variable W : World.

Lemma testImageUrl_hit u st e :
  SimpleCache.cache (st_urls st) !! u = Some e ->
  clock W (st_tick st) - SimpleCache.timestamp e
    <= SimpleCache.expiry e ->
  testImageUrl W u st = (Resolved (SimpleCache.data e), st).
Proof.
  intros He Hfresh. unfold testImageUrl, bind at 1, imageUrlCache_get.
  rewrite (CacheFacts.get_fresh _ _ _ _ He Hfresh).
  cbv beta iota. unfold ret. by rewrite state_eta.
Qed.

(** [testImageUrl] answers from the cache without a request, or makes
    one HEAD request and caches the verdict, positive or negative. *)
Lemma testImageUrl_outcome u st :
  exists verdict st1,
    testImageUrl W u st = (Resolved verdict, st1)
    /\ (st_fetches st1 = st_fetches st
        \/ (st_fetches st1 = (st_fetches st ++ [("HEAD", u)])%list
            /\ verdict = resolved (fetch W (st_tick st) "HEAD" u)
            /\ SimpleCache.cache (st_urls st1) !! u
               = Some (SimpleCache.mkEntry verdict
                         (clock W (st_tick st1))
                         (SimpleCache.defaultTTL (st_urls st))))).
Proof.
  unfold testImageUrl, bind at 1, imageUrlCache_get.
  pose proof (get_defaultTTL (st_urls st) u (clock W (st_tick st)))
    as Httl.
  destruct (SimpleCache.get (st_urls st) u (clock W (st_tick st)))
    as [cached c']. cbn [snd] in Httl.
  destruct cached as [verdict|].
  - eexists _, _. split; [reflexivity|]. by left.
  - unfold try_catch, bind at 1, do_fetch. cbn [st_tick].
    destruct (fetch W (st_tick st) "HEAD" u) as [response|e];
      eexists _, _; (split; [reflexivity|]); right;
      cbn [st_fetches st_urls st_tick resolved];
      (split; [reflexivity|]); (split; [reflexivity|]);
      unfold SimpleCache.set;
      cbn [SimpleCache.cache SimpleCache.ttl_or_default];
      rewrite Httl; apply lookup_insert_eq.
Qed.

Lemma firstWorking_requests (variations : list string) :
  forall st,
  (length (st_fetches (snd (firstWorking W variations st)))
   <= length (st_fetches st) + length variations)%nat.
Proof.
  induction variations as [|v rest IH]; intros st; [simpl; lia|].
  cbn [firstWorking]. unfold bind at 1.
  destruct (testImageUrl_outcome v st) as (verdict & st1 & -> & Hf).
  assert (Hlen : (length (st_fetches st1) <= length (st_fetches st) + 1)%nat).
  { destruct Hf as [-> | [-> _]]; [lia|]. rewrite length_app. simpl. lia. }
  destruct verdict.
  - unfold ret. cbn [snd length]. lia.
  - specialize (IH st1). cbn [length]. lia.
Qed.

End WithWorld.

Lemma initial_probes_recorded : probes_recorded initialState.
Proof.
  intros u e He.
  unfold initialState, imageUrlCache, SimpleCache.new in He.
  cbn [st_urls SimpleCache.cache] in He. by rewrite lookup_empty in He.
Qed.

(** X10: a probe's verdict is cached, the negative one too: when
    [testImageUrl] made a request for a URL, any later [testImageUrl] of
    that URL, made while the reachability cache is as that call left it
    and no more than the cache's default TTL after it, returns the same
    verdict without a request. *)
Theorem probe_verdict_is_cached (W : World) (u : string)
    (st st1 st2 : State) (verdict : bool) :
  testImageUrl W u st = (Resolved verdict, st1) ->
  st_fetches st1 <> st_fetches st ->
  st_urls st2 = st_urls st1 ->
  clock W (st_tick st2) - clock W (st_tick st1)
    <= SimpleCache.defaultTTL (st_urls st) ->
  verdict = resolved (fetch W (st_tick st) "HEAD" u)
  /\ testImageUrl W u st2 = (Resolved verdict, st2).
Proof.
  intros Hrun Hreq Hurls Htime.
  destruct (testImageUrl_outcome W u st) as (v & st' & Heq & Hf).
  rewrite Hrun in Heq. inversion Heq; subst v st'.
  destruct Hf as [Hf | (_ & Hv & He)]; [contradiction|].
  split; [exact Hv|]. rewrite <- Hurls in He.
  apply (testImageUrl_hit W u st2 _ He).
  cbn [SimpleCache.timestamp SimpleCache.expiry]. exact Htime.
Qed.

Lemma probe_verdict_is_cached_witness :
  let first := testImageUrl silentWorld "https://site.org/gone.jpg"
                 initialState in
  fst first = Resolved false
  /\ testImageUrl silentWorld "https://site.org/gone.jpg" (snd first)
     = (Resolved false, snd first).
Proof.
  intros first.
  assert (H1 : fst first = Resolved false) by (vm_compute; reflexivity).
  split; [exact H1|].
  apply (probe_verdict_is_cached silentWorld "https://site.org/gone.jpg"
           initialState (snd first) (snd first) false).
  - change (first = (Resolved false, snd first)).
    rewrite <- H1. apply surjective_pairing.
  - vm_compute. discriminate.
  - reflexivity.
  - vm_compute. discriminate.
Defined.

(** X11: [getWorkingImageUrl] never throws and makes at most ten
    requests; what it returns is [null] or one of the ten variations of
    the URL, one that [testImageUrl] accepted; and the original URL is
    tried first: when [testImageUrl] accepts it, it is the result and no
    variation is tried. *)
Theorem working_url_is_accepted_variation (W : World) (u : string)
    (st : State) :
  probes_recorded st ->
  exists working st',
    getWorkingImageUrl W u st = (Resolved working, st')
    /\ (forall v, working = Some v ->
                  In v (urlVariations u) /\ probed st' v)
    /\ (length (st_fetches st') <= length (st_fetches st) + 10)%nat
    /\ (forall st1,
          testImageUrl W u st = (Resolved true, st1) ->
          working = Some u /\ st' = st1).
Proof.
  intros Hrec. unfold getWorkingImageUrl.
  destruct (firstWorking_spec W (urlVariations u) st Hrec)
    as (working & st' & Heq & _ & _ & Hw).
  exists working, st'. split; [exact Heq|]. split.
  - intros v Hv. destruct (Hw v Hv). by split.
  - split.
    + pose proof (firstWorking_requests W (urlVariations u) st) as Hlen.
      rewrite Heq in Hlen. exact Hlen.
    + intros st1 Ht. unfold urlVariations in Heq.
      cbn [firstWorking] in Heq. unfold bind at 1 in Heq.
      rewrite Ht in Heq. unfold ret in Heq. by inversion Heq.
Qed.

Lemma working_url_is_accepted_variation_witness :
  probes_recorded initialState
  /\ fst (getWorkingImageUrl reachableWorld "https://site.org/a.webp?w=1"
            initialState)
     = Resolved (Some "https://site.org/a.webp?w=1").
Proof.
  split; [apply initial_probes_recorded|].
  destruct (working_url_is_accepted_variation reachableWorld
              "https://site.org/a.webp?w=1" initialState
              initial_probes_recorded)
    as (working & st' & Heq & _ & _ & Hfirst).
  rewrite Heq. cbn [fst].
  destruct (Hfirst (snd (testImageUrl reachableWorld
                           "https://site.org/a.webp?w=1" initialState)))
    as [-> _]; [|reflexivity].
  vm_compute. reflexivity.
Defined.

End ProbeExtra.

Module ServiceExtra.
Import CorsProxy ImageService ProbeExtra.

(** The extension test of [processImageUrl]. *)
Definition hasImageExtension (u : string) : bool :=
  existsb (fun ext => includes (toLowerCase u) ext)
    [".jpg"; ".jpeg"; ".png"; ".webp"; ".gif"; ".bmp"].

Definition invalidUrl : string := "URL inv" +:+ cu 225 +:+ "lida".
Definition notAnImage : string :=
  "URL n" +:+ cu 227 +:+ "o parece ser uma imagem v" +:+ cu 225
  +:+ "lida".
Definition unreachable : string :=
  "Imagem n" +:+ cu 227 +:+ "o acess" +:+ cu 237 +:+ "vel".

Section WithWorld.
Variable W : World.

Lemma firstWorking_total (variations : list string) :
  forall st,
  exists working st',
    firstWorking W variations st = (Resolved working, st')
    /\ st_attempts st' = st_attempts st
    /\ (forall v, working = Some v -> In v variations).
Proof.
  induction variations as [|v rest IH]; intros st.
  - exists None, st. split; [reflexivity|]. split; [reflexivity|].
    discriminate.
  - cbn [firstWorking]. unfold bind at 1.
    destruct (testImageUrl W v st) as [r st1] eqn:Ht.
    destruct (testImageUrl_outcome W v st) as (verdict & st1' & Heq & _).
    rewrite Ht in Heq. inversion Heq; subst r st1'.
    assert (Ha : st_attempts st1 = st_attempts st).
    { revert Ht. unfold testImageUrl, bind at 1, imageUrlCache_get.
      destruct (SimpleCache.get (st_urls st) v (clock W (st_tick st)))
        as [[b|] c'].
      - intros H. inversion H. reflexivity.
      - unfold try_catch, bind at 1, do_fetch. cbn [st_tick].
        destruct (fetch W (st_tick st) "HEAD" v);
          intros H; inversion H; reflexivity. }
    destruct verdict; cbv beta iota.
    + exists (Some v), st1. split; [reflexivity|]. split; [exact Ha|].
      intros v' Hv. inversion Hv. by left.
    + destruct (IH st1) as (working & st' & -> & Ha' & Hw).
      exists working, st'. split; [reflexivity|].
      split; [by rewrite Ha'|]. intros v' Hv. right. by apply Hw.
Qed.

Lemma loadImageDimensions_total (s : string) (st : State) :
  exists dimensions st',
    loadImageDimensions W s st = (Resolved dimensions, st')
    /\ st_attempts st' = st_attempts st.
Proof.
  unfold loadImageDimensions, bind at 1, imageDimensionsCache_get.
  destruct (SimpleCache.get (st_dims st) s (clock W (st_tick st)))
    as [cached c'].
  destruct cached as [d|].
  - eexists _, _. split; reflexivity.
  - unfold bind at 1, do_loadImage. cbn [st_tick].
    destruct (loadImage W (st_tick st) s) as [d|];
      eexists _, _; split; reflexivity.
Qed.

End WithWorld.

(** X12: [processImageUrl] never uses the relay chain, and its outcome
    is fixed by three tests made in this order.  A URL that does not
    parse fails as invalid, whatever it contains, and nothing has
    happened.  A URL that parses and contains none of the six
    extensions .jpg, .jpeg, .png, .webp, .gif, .bmp in its lower case
    fails as not an image, and nothing has happened.  For any other
    URL [getWorkingImageUrl] runs and does not throw: when it finds no
    reachable variation, or one that is the empty string, the call
    fails as unreachable, and otherwise the call returns the descriptor tagged [url] whose [src] is the
    variation found, one of the ten, whose [alt] is the base name of
    the URL's last path segment, or [Imagem] when that is empty, and
    whose size is what [loadImageDimensions] gives for that
    variation. *)
Theorem processImageUrl_outcomes (W : World) (u : string) (st : State) :
  exists r st',
    processImageUrl W u st = (r, st')
    /\ st_attempts st' = st_attempts st
    /\ (validUrl W u = false -> r = Rejected invalidUrl /\ st' = st)
    /\ (validUrl W u = true -> hasImageExtension u = false ->
          r = Rejected notAnImage /\ st' = st)
    /\ (validUrl W u = true -> hasImageExtension u = true ->
          exists working st1,
            getWorkingImageUrl W u st = (Resolved working, st1)
            /\ match usable working with
               | None => r = Rejected unreachable /\ st' = st1
               | Some workingUrl =>
                   In workingUrl (urlVariations u)
                   /\ exists dimensions,
                        loadImageDimensions W workingUrl st1
                        = (Resolved dimensions, st')
                        /\ r = Resolved
                                 (mkImage workingUrl
                                    (str_or (Dom.baseName u) "Imagem")
                                    (fst <$> dimensions)
                                    (snd <$> dimensions) (Some url))
               end).
Proof.
  unfold processImageUrl, hasImageExtension.
  destruct (validUrl W u) eqn:Hv; cbn [negb].
  2:{ eexists _, _. split; [reflexivity|]. split; [reflexivity|].
      split; [by intros _|]. split; intros [=]. }
  destruct (existsb _ _) eqn:Hext; cbn [negb].
  2:{ eexists _, _. split; [reflexivity|]. split; [reflexivity|].
      split; [intros [=]|]. split; [by intros _ _ | intros _ [=]]. }
  unfold bind at 1, getWorkingImageUrl.
  destruct (firstWorking_total W (urlVariations u) st)
    as (working & st1 & Hw & Ha & Hin).
  rewrite Hw. destruct (ProbeFacts.usable_cases working)
    as [Hus | (workingUrl & -> & Hus & Hne)]; rewrite Hus.
  { eexists _, _. split; [reflexivity|]. split; [exact Ha|].
    split; [intros [=]|]. split; [intros _ [=]|].
    intros _ _. exists working, st1. split; [reflexivity|].
    by rewrite Hus. }
  unfold bind at 1.
  destruct (loadImageDimensions_total W workingUrl st1)
    as (dimensions & st2 & Hl & Ha2).
  rewrite Hl.
  eexists _, _. split; [reflexivity|]. split; [by rewrite Ha2|].
  split; [intros [=]|]. split; [intros _ [=]|].
  intros _ _. exists (Some workingUrl), st1. split; [reflexivity|].
  rewrite Hus. split; [by apply Hin|]. by exists dimensions.
Qed.

Lemma processImageUrl_outcomes_witness :
  fst (processImageUrl reachableWorld "https://site.org/page"
         initialState)
  = Rejected notAnImage
  /\ fst (processImageUrl reachableWorld "notes.png" initialState)
     = Rejected invalidUrl
  /\ exists workingUrl,
       In workingUrl (urlVariations "https://site.org/a.jpg")
       /\ fst (processImageUrl reachableWorld "https://site.org/a.jpg"
                 initialState)
          = Resolved (mkImage workingUrl "a" None None (Some url)).
Proof.
  split; [|split].
  - destruct (processImageUrl_outcomes reachableWorld
                "https://site.org/page" initialState)
      as (r & st' & Heq & _ & _ & H & _).
    rewrite Heq. cbn [fst]. by destruct (H eq_refl eq_refl) as [-> _].
  - destruct (processImageUrl_outcomes reachableWorld "notes.png"
                initialState)
      as (r & st' & Heq & _ & H & _).
    rewrite Heq. cbn [fst]. by destruct (H eq_refl) as [-> _].
  - assert (Hrun :
      fst (processImageUrl reachableWorld "https://site.org/a.jpg"
             initialState)
      = Resolved (mkImage "https://site.org/a.jpg" "a" None None
                    (Some url))) by (vm_compute; reflexivity).
    destruct (processImageUrl_outcomes reachableWorld
                "https://site.org/a.jpg" initialState)
      as (r & st' & Heq & _ & _ & _ & H).
    rewrite Heq in Hrun |- *. cbn [fst] in Hrun |- *.
    destruct (H eq_refl eq_refl) as (working & st1 & _ & Hm).
    destruct (usable working) as [workingUrl|].
    + destruct Hm as (Hin & dimensions & _ & Hr).
      exists workingUrl. split; [exact Hin|]. congruence.
    + destruct Hm as [Hr _]. rewrite Hr in Hrun. discriminate.
Defined.

(** X13: a page URL whose only image extension is [.svg] cannot be
    extracted: [extractImagesFromPage] takes it for a direct image and
    hands it to [processImageUrl], which does not count [.svg] as an
    image extension; the call fails with that error and nothing has
    happened. *)
Theorem svg_url_is_refused (W : World) (options : ImageExtractionOptions)
    (st : State) :
  validUrl W (ex_url options) = true ->
  includes (toLowerCase (ex_url options)) ".svg" = true ->
  existsb (fun ext => includes (toLowerCase (ex_url options)) ext)
    [".jpg"; ".jpeg"; ".png"; ".webp"; ".gif"; ".bmp"] = false ->
  extractImagesFromPage W options st = (Rejected notAnImage, st).
Proof.
  intros Hv Hsvg Hnone. unfold extractImagesFromPage. rewrite Hv.
  cbn [negb].
  assert (Hd : isDirectImageUrl (ex_url options) = true).
  { unfold isDirectImageUrl. cbn [existsb]. rewrite Hsvg.
    by rewrite !orb_true_r. }
  rewrite Hd. unfold bind, processImageUrl. rewrite Hv, Hnone.
  reflexivity.
Qed.

Lemma svg_url_is_refused_witness :
  validUrl silentWorld "https://site.org/logo.svg" = true
  /\ extractImagesFromPage silentWorld
       (mkExtraction "https://site.org/logo.svg" None None None)
       initialState
     = (Rejected notAnImage, initialState).
Proof.
  split; [reflexivity|].
  apply (svg_url_is_refused silentWorld
           (mkExtraction "https://site.org/logo.svg" None None None));
    reflexivity.
Defined.

End ServiceExtra.

Module ExtractionExtra.
Import CorsProxy ImageService ProbeExtra ServiceExtra.

(** An image as the page extraction returns it. *)
Definition extracted_quality (minWidth minHeight : Z) (img : ImageSource)
    : Prop :=
  isQualityImage img minWidth minHeight = true
  /\ source img = Some web_extraction.

Section WithWorld.
Variable W : World.

Lemma filterQuality_bounded (candidateImages : list ImageSource)
    (minWidth minHeight maxResults : Z) :
  forall qualityImages st,
  Forall (extracted_quality minWidth minHeight) qualityImages ->
  (length qualityImages = 0%nat
   \/ Z.of_nat (length qualityImages) < maxResults) ->
  exists result st',
    filterQuality W candidateImages minWidth minHeight maxResults
      qualityImages st
    = (Resolved result, st')
    /\ st_attempts st' = st_attempts st
    /\ Forall (extracted_quality minWidth minHeight) result
    /\ Z.of_nat (length result) <= Z.max 1 maxResults.
Proof.
  induction candidateImages as [|img rest IH];
    intros qualityImages st Hall Hlen.
  - exists qualityImages, st. split; [reflexivity|].
    split; [reflexivity|]. split; [exact Hall | lia].
  - cbn [filterQuality]. unfold bind at 1, getWorkingImageUrl.
    destruct (firstWorking_total W (urlVariations (src img)) st)
      as (working & st1 & -> & Ha1 & _).
    destruct (ProbeFacts.usable_cases working)
      as [Hus | (workingUrl & -> & Hus & Hne)]; rewrite Hus.
    { destruct (IH qualityImages st1 Hall Hlen)
          as (result & st' & -> & Ha & Hres & Hb).
        exists result, st'. split; [reflexivity|].
        split; [by rewrite Ha|]. by split. }
    unfold bind at 1.
    assert (Hstep :
      exists img' st2,
        (if negb (truthy_num (width (set_src img workingUrl)))
            || negb (truthy_num (height (set_src img workingUrl)))
         then
           bind (loadImageDimensions W (src (set_src img workingUrl)))
             (fun dimensions =>
                match dimensions with
                | Some d => ret (set_size (set_src img workingUrl) d)
                | None => ret (set_src img workingUrl)
                end)
         else ret (set_src img workingUrl)) st1
        = (Resolved img', st2)
        /\ st_attempts st2 = st_attempts st1).
    { destruct (negb _ || negb _).
      - unfold bind.
        destruct (loadImageDimensions_total W
                    (src (set_src img workingUrl)) st1)
          as (dimensions & st2 & -> & Ha2).
        destruct dimensions as [d|]; eexists _, st2; by split.
      - eexists _, st1. by split. }
    destruct Hstep as (img' & st2 & -> & Ha2).
    set (acc := if isQualityImage img' minWidth minHeight
                then (qualityImages ++ [set_source img' web_extraction])%list
                else qualityImages).
    assert (Hall2 : Forall (extracted_quality minWidth minHeight) acc).
    { unfold acc. destruct (isQualityImage img' minWidth minHeight) eqn:Hq;
        [|exact Hall].
      apply Forall_app. split; [exact Hall|].
      constructor; [|constructor]. split; [exact Hq | reflexivity]. }
    assert (Hacc : Z.of_nat (length acc) <= Z.max 1 maxResults).
    { unfold acc. destruct (isQualityImage img' minWidth minHeight);
        [rewrite length_app; cbn [length]|]; lia. }
    destruct (Z.geb_spec (Z.of_nat (length acc)) maxResults) as [Hge|Hlt].
    + exists acc, st2. split; [reflexivity|].
      split; [by rewrite Ha2, Ha1|]. by split.
    + destruct (IH acc st2 Hall2 ltac:(right; lia))
        as (result & st' & -> & Ha & Hres & Hb).
      exists result, st'. split; [reflexivity|].
      split; [by rewrite Ha, Ha2, Ha1|]. by split.
Qed.

End WithWorld.

(** X14: for a URL that parses and is not a direct image,
    [extractImagesFromPage] fails only when the relay chain does, with
    the relay chain's error; otherwise it returns at most [maxResults]
    images (at most one when [maxResults] is below 1), every one of
    which passes the quality filter at the requested thresholds and is
    tagged [web-extraction]. *)
Theorem page_extraction_is_filtered_and_bounded (W : World)
    (options : ImageExtractionOptions) (st : State) :
  validUrl W (ex_url options) = true ->
  isDirectImageUrl (ex_url options) = false ->
  let minW := default DEFAULT_MIN_WIDTH (minWidth options) in
  let minH := default DEFAULT_MIN_HEIGHT (minHeight options) in
  let maxR := default DEFAULT_MAX_RESULTS (maxResults options) in
  match fst (extractImagesFromPage W options st) with
  | Resolved images =>
      Forall (extracted_quality minW minH) images
      /\ Z.of_nat (length images) <= Z.max 1 maxR
  | Rejected e =>
      fst (fetchWithCorsProxy W (ex_url options) 3 st) = Rejected e
  end.
Proof.
  intros Hv Hd minW minH maxR. unfold extractImagesFromPage.
  rewrite Hv, Hd. cbn [negb]. unfold bind at 1.
  destruct (fetchWithCorsProxy W (ex_url options) 3 st)
    as [[htmlContent|e] st1]; [|reflexivity].
  destruct (collectCandidates W _ _) as [found candidateImages].
  destruct (filterQuality_bounded W candidateImages minW minH maxR [] st1)
    as (result & st' & Heq & _ & Hall & Hb);
    [constructor | by left |].
  fold minW minH maxR. rewrite Heq. cbn [fst]. by split.
Qed.

Lemma page_extraction_is_filtered_and_bounded_witness :
  validUrl galleryWorld "https://site.org/page" = true
  /\ isDirectImageUrl "https://site.org/page" = false
  /\ exists img,
       fst (extractImagesFromPage galleryWorld
              (mkExtraction "https://site.org/page" None None None)
              initialState)
       = Resolved [img]
       /\ src img = "https://site.org/a.jpg"
       /\ width img = Some 800
       /\ extracted_quality 300 200 img.
Proof.
  split; [reflexivity|]. split; [reflexivity|].
  assert (Hrun :
    fst (extractImagesFromPage galleryWorld
           (mkExtraction "https://site.org/page" None None None)
           initialState)
    = Resolved [mkImage "https://site.org/a.jpg" "first" (Some 800)
                  (Some 600) (Some web_extraction)])
    by (vm_compute; reflexivity).
  pose proof (page_extraction_is_filtered_and_bounded galleryWorld
                (mkExtraction "https://site.org/page" None None None)
                initialState eq_refl eq_refl) as H.
  cbv zeta in H. rewrite Hrun in H. destruct H as [Hall _].
  eexists. split; [exact Hrun|]. split; [reflexivity|].
  split; [reflexivity|]. by inversion Hall.
Defined.

End ExtractionExtra.

Module FacadeExtra.
Import ImageService.

Definition effectiveMaxSize (options : ImageUploadOptions) : Z :=
  default DEFAULT_MAX_FILE_SIZE (maxSize options).

Definition typeAllowed (options : ImageUploadOptions) : bool :=
  existsb (String.eqb (file_type (file options)))
    (default DEFAULT_ALLOWED_TYPES (allowedTypes options)).

Definition missingAccessKey : string :=
  "Chave de acesso do Unsplash n" +:+ cu 227 +:+ "o configurada".

(** X15: [uploadImage] makes no request and validates before it reads:
    a type outside the allow-list fails with the unsupported-type error
    naming the type, and a size above the ceiling fails too, nothing
    having happened in either case; a file exactly at the ceiling
    passes.  A returned descriptor comes from an allowed type within
    the ceiling, is tagged [upload], has the data URL of the file for
    its [src], carries the width and height the image decoded to, and
    its [alt] is the file name without its final extension. *)
Theorem uploadImage_outcomes (W : World) (options : ImageUploadOptions)
    (st : State) :
  exists r st',
    uploadImage W options st = (r, st')
    /\ st_fetches st' = st_fetches st
    /\ match r with
       | Rejected e =>
           (typeAllowed options = false /\ st' = st
            /\ e = "Tipo de arquivo n" +:+ cu 227 +:+ "o suportado: "
                   +:+ file_type (file options))
           \/ (typeAllowed options = true
               /\ file_size (file options) > effectiveMaxSize options
               /\ st' = st)
           \/ (typeAllowed options = true
               /\ file_size (file options) <= effectiveMaxSize options
               /\ (e = "Erro ao ler arquivo"
                   \/ e = "Erro ao carregar imagem"))
       | Resolved img =>
           typeAllowed options = true
           /\ file_size (file options) <= effectiveMaxSize options
           /\ source img = Some upload
           /\ alt img = stripExtension (file_name (file options))
           /\ is_Some (width img) /\ is_Some (height img)
           /\ readAsDataURL W (st_tick st) (file_name (file options))
              = Some (src img)
           /\ exists d,
                loadImage W (S (st_tick st)) (src img) = Some d
                /\ width img = Some (fst d) /\ height img = Some (snd d)
       end.
Proof.
  unfold uploadImage, typeAllowed, effectiveMaxSize.
  destruct (existsb _ _) eqn:Ht; cbn [negb].
  2:{ eexists _, _. split; [reflexivity|]. split; [reflexivity|].
      left. by repeat split. }
  destruct (Z.gtb_spec (file_size (file options))
              (default DEFAULT_MAX_FILE_SIZE (maxSize options)))
    as [Hgt|Hle].
  { eexists _, _. split; [reflexivity|]. split; [reflexivity|].
    right. left. repeat split. lia. }
  unfold bind, get_state, tick.
  destruct (readAsDataURL W (st_tick st) (file_name (file options)))
    as [dataUrl|] eqn:Hread.
  2:{ eexists _, _. split; [reflexivity|]. split; [reflexivity|].
      right. right. repeat split; [lia | by left]. }
  unfold do_loadImage. cbn [st_tick].
  destruct (loadImage W (S (st_tick st)) dataUrl) as [d|] eqn:Hload.
  - eexists _, _. split; [reflexivity|]. split; [reflexivity|].
    cbn [source alt width height src].
    do 6 (split; [eauto; lia|]). split; [reflexivity|].
    exists d. by repeat split.
  - eexists _, _. split; [reflexivity|]. split; [reflexivity|].
    right. right. repeat split; [lia | by right].
Qed.

Lemma mapPhotos_shape (items : list jsval) (images : list ImageSource) :
  mapPhotos items = Resolved images ->
  length images = length items
  /\ Forall (fun img => source img = Some unsplash) images.
Proof.
  revert images. induction items as [|item rest IH]; intros images H.
  - cbn [mapPhotos] in H. inversion H. by split.
  - cbn [mapPhotos] in H.
    destruct (photoToImage item) as [i|e] eqn:Hp; [|discriminate].
    destruct (mapPhotos rest) as [more|e]; [|discriminate].
    inversion H; subst. destruct (IH more eq_refl) as [Hl Hall].
    split; [cbn [length]; by rewrite Hl|].
    constructor; [|exact Hall].
    unfold photoToImage in Hp.
    destruct (get_prop item "urls") as [urls|]; [|discriminate].
    destruct (get_prop urls "regular") as [[| | | |regular| |]|];
      try discriminate.
    destruct (get_prop item "alt_description"); [|discriminate].
    destruct (get_prop item "description"); [|discriminate].
    destruct (get_prop item "width"); [|discriminate].
    destruct (get_prop item "height"); [|discriminate].
    destruct (typedText _); [|discriminate].
    destruct (typedText _); [|discriminate].
    destruct (typedNumber _); [|discriminate].
    destruct (typedNumber _); [|discriminate].
    by inversion Hp.
Qed.

(** X16: [searchUnsplash] without an access key throws and makes no
    request; with a key it makes exactly one GET request to the search
    URL, and a returned list has one descriptor per element of the
    reply's [results] array, each tagged [unsplash]. *)
Theorem searchUnsplash_outcomes (W : World) (options : ImageSearchOptions)
    (st : State) :
  match env W "VITE_UNSPLASH_ACCESS_KEY" with
  | Some key =>
      if String.eqb key ""
      then searchUnsplash W options st
           = (Rejected missingAccessKey, st)
      else
        st_fetches (snd (searchUnsplash W options st))
        = (st_fetches st ++ [("GET", searchUrl W key options)])%list
        /\ forall images,
             fst (searchUnsplash W options st) = Resolved images ->
             Forall (fun img => source img = Some unsplash) images
             /\ exists response data items,
                  fetch W (st_tick st) "GET" (searchUrl W key options)
                  = Resolved response
                  /\ json response = Resolved data
                  /\ get_prop data "results" = Resolved (VArr items)
                  /\ length images = length items
  | None =>
      searchUnsplash W options st
      = (Rejected missingAccessKey, st)
  end.
Proof.
  unfold searchUnsplash.
  destruct (env W "VITE_UNSPLASH_ACCESS_KEY") as [key|]; [|reflexivity].
  destruct (String.eqb key ""); [reflexivity|].
  unfold bind, do_fetch, lift, throw.
  destruct (fetch W (st_tick st) "GET" (searchUrl W key options))
    as [response|e]; [|split; [reflexivity | intros ? [=]]].
  destruct (negb (ok response)); [split; [reflexivity | intros ? [=]]|].
  destruct (json response) as [data|e] eqn:Hj;
    [|split; [reflexivity | intros ? [=]]].
  destruct (get_prop data "results") as [results|e] eqn:Hr;
    [|split; [reflexivity | intros ? [=]]].
  destruct results as [| | | | |items|];
    try (split; [reflexivity | intros ? [=]]; fail).
  split; [reflexivity|].
  cbn [fst]. intros images H.
  destruct (mapPhotos_shape items images H) as [Hl Hall].
  split; [exact Hall|]. by exists response, data, items.
Qed.

End FacadeExtra.

Module GeneratorExtra.
Import AI AISpec AIFacts.

(** The environment variable holding the key of a provider. *)
Definition keyVariable (model : string) : option string :=
  if String.eqb model "OpenAI" then Some "VITE_OPENAI_API_KEY"
  else if String.eqb model "Groq" then Some "VITE_GROQ_API_KEY"
  else if String.eqb model "Gemini" then Some "VITE_GEMINI_API_KEY"
  else None.

Definition missingKey (model : string) : string :=
  "A chave de API para o modelo " +:+ model +:+ " n" +:+ cu 227
  +:+ "o foi encontrada.".

(** The requests of the image lookups for [queries], in order. *)
Definition lookupRequests (W : World) (queries : list string)
    : list (string * string) :=
  if String.eqb (UNSPLASH_ACCESS_KEY W) "" then []
  else map (fun q => ("GET", searchUrl W q)) queries.

Lemma getApiConfig_None (W : World) (model : string) :
  getApiConfig W model = None
  <-> forall variable,
        keyVariable model = Some variable ->
        env W variable = None \/ env W variable = Some "".
Proof.
  unfold getApiConfig, keyVariable, keyPresent.
  repeat
    match goal with
    | |- context [if String.eqb model ?s then _ else _] =>
        destruct (String.eqb model s)
    end;
    try (split; [intros _ ? [=] | reflexivity]; fail);
    match goal with
    | |- context [env W ?v] =>
        destruct (env W v) as [k|] eqn:He;
          [destruct (String.eqb_spec k "") as [->|Hk]|]
    end;
    split; intros H;
    try reflexivity; try discriminate;
    try (intros ? [= <-]; rewrite He; eauto; fail);
    try (destruct (H _ eq_refl) as [H'|H']; rewrite He in H';
         congruence).
Qed.

Section WithWorld.
Variable W : World.

Lemma fetchImageForQuery_requests (query : string) (st : State) :
  st_fetches (snd (fetchImageForQuery W query st))
  = (st_fetches st ++ lookupRequests W [query])%list.
Proof.
  unfold fetchImageForQuery, lookupRequests, bind, log_search.
  destruct (String.eqb (UNSPLASH_ACCESS_KEY W) "").
  - simpl. by rewrite app_nil_r.
  - unfold try_catch, do_fetch, bind. simpl.
    destruct (fetch W (st_tick st) "GET" (searchUrl W query))
      as [response|e]; simpl; [|reflexivity].
    destruct (ok response); simpl; [|reflexivity].
    unfold lift, bind. destruct (json response) as [data|e]; simpl;
      [|reflexivity].
    destruct (unsplashResponseSchema W data) as [[|u l]|]; reflexivity.
Qed.

Lemma lookupRequests_cons (q : string) (queries : list string) :
  lookupRequests W (q :: queries)
  = (lookupRequests W [q] ++ lookupRequests W queries)%list.
Proof.
  unfold lookupRequests.
  destruct (String.eqb (UNSPLASH_ACCESS_KEY W) ""); reflexivity.
Qed.

Lemma resolveImages_requests (slides : list Slide) (index : Z)
    (st : State) :
  st_fetches (snd (resolveImages W slides index st))
  = (st_fetches st ++ lookupRequests W (map imageQuery slides))%list.
Proof.
  revert index st. induction slides as [|slide rest IH]; intros index st.
  - unfold lookupRequests. cbn [resolveImages map ret snd].
    destruct (String.eqb (UNSPLASH_ACCESS_KEY W) "");
      by rewrite app_nil_r.
  - cbn [resolveImages map]. rewrite lookupRequests_cons.
    pose proof (fetchImageForQuery_requests (imageQuery slide) st) as Hq.
    destruct (fetchImageForQuery_eq W (imageQuery slide) st)
      as (st1 & E1 & _).
    unfold bind at 1. rewrite E1 in Hq |- *. cbn [snd] in Hq.
    pose proof (IH (index + 1) st1) as Hr.
    destruct (resolveImages_eq W rest (index + 1) st1)
      as (st2 & E2 & _).
    unfold bind at 1. rewrite E2 in Hr |- *. cbn [snd] in Hr.
    unfold ret. cbn [snd]. rewrite Hr, Hq. by rewrite <- app_assoc.
Qed.

(** The generator once the provider is configured: the request to
    the provider comes first, a failure stops there, and a success
    is followed by the lookups of the validated slides. *)
Lemma generator_trace (theme model endpoint : string) (slideCount : Z)
    (st : State) :
  getApiConfig W model = Some endpoint ->
  exists r st',
    generateCarouselContent W theme model slideCount st = (r, st')
    /\ match r with
       | Rejected _ =>
           st_searches st' = st_searches st
           /\ st_fetches st'
              = (st_fetches st ++ [("POST", endpoint)])%list
       | Resolved result =>
           exists slides,
             length result = length slides
             /\ Z.of_nat (length slides) = slideCount
             /\ st_searches st'
                = (st_searches st ++ map imageQuery slides)%list
             /\ st_fetches st'
                = (st_fetches st
                   ++ ("POST", endpoint)
                      :: lookupRequests W (map imageQuery slides))%list
       end.
Proof.
  intros Hc. unfold generateCarouselContent. rewrite Hc.
  unfold bind at 1. unfold do_fetch at 1.
  destruct (fetch W (st_tick st) "POST" endpoint) as [response|e];
    [|eexists _, _; split; [reflexivity|]; by split].
  destruct (negb (ok response)).
  { unfold bind, lift, throw.
    destruct (responseBody response);
      eexists _, _; (split; [reflexivity|]); by split. }
  unfold bind at 1, lift at 1.
  destruct (json response) as [reply|e];
    [|eexists _, _; split; [reflexivity|]; by split].
  unfold bind at 1, lift at 1.
  destruct (replyContent W model reply) as [content|e];
    [|eexists _, _; split; [reflexivity|]; by split].
  destruct (aiResponseSchema slideCount content) as [slides|] eqn:Hs;
    [|eexists _, _; split; [reflexivity|]; by split].
  match goal with
  | |- context [resolveImages W slides 0 ?s] => set (st1 := s)
  end.
  pose proof (resolveImages_requests slides 0 st1) as Hq.
  destruct (resolveImages_eq W slides 0 st1) as (st2 & E & Hsr).
  rewrite E in Hq |- *. cbn [snd] in Hq.
  eexists _, _. split; [reflexivity|]. exists slides.
  split; [apply expectedSlides_length|].
  split; [by apply aiResponseSchema_length in Hs|].
  split; [exact Hsr|].
  rewrite Hq. subst st1. cbn [st_fetches].
  by rewrite <- app_assoc.
Qed.

End WithWorld.

(** X17: [generateCarouselContent] fails with the missing-key error,
    having made no request and changed nothing, exactly when the
    provider is none of OpenAI, Groq and Gemini or the environment
    variable of its key is unset or empty. *)
Theorem generator_needs_credentials (W : World) (theme model : string)
    (slideCount : Z) (st : State) :
  generateCarouselContent W theme model slideCount st
  = (Rejected (missingKey model), st)
  <-> forall variable,
        keyVariable model = Some variable ->
        env W variable = None \/ env W variable = Some "".
Proof.
  rewrite <- getApiConfig_None.
  destruct (getApiConfig W model) as [endpoint|] eqn:Hc.
  - split; [|discriminate]. intros H. exfalso.
    destruct (generator_trace W theme model endpoint slideCount st Hc)
      as (r & st' & E & Ht).
    rewrite E in H. inversion H; subst r st'.
    destruct Ht as [_ Hf].
    apply (f_equal (@length _)) in Hf. rewrite length_app in Hf.
    cbn [length] in Hf. lia.
  - split; [reflexivity|]. intros _.
    unfold generateCarouselContent. by rewrite Hc.
Qed.

(** X18: the requests of one call of [generateCarouselContent].  A
    failing call has started no image lookup and has made at most one
    request, the POST to the provider.  A successful call returns
    [slideCount] slides, has started one lookup per slide, and has
    made the POST to the provider followed by one GET to the Unsplash
    search per slide, in slide order - or by no request at all when
    the Unsplash key is missing. *)
Theorem generator_request_accounting (W : World) (theme model : string)
    (slideCount : Z) (st : State) :
  exists r st',
    generateCarouselContent W theme model slideCount st = (r, st')
    /\ match r with
       | Rejected _ =>
           st_searches st' = st_searches st
           /\ (st_fetches st' = st_fetches st
               \/ exists endpoint,
                    getApiConfig W model = Some endpoint
                    /\ st_fetches st'
                       = (st_fetches st ++ [("POST", endpoint)])%list)
       | Resolved result =>
           Z.of_nat (length result) = slideCount
           /\ exists endpoint queries,
                getApiConfig W model = Some endpoint
                /\ length queries = length result
                /\ st_searches st' = (st_searches st ++ queries)%list
                /\ st_fetches st'
                   = (st_fetches st
                      ++ ("POST", endpoint)
                         :: lookupRequests W queries)%list
       end.
Proof.
  destruct (getApiConfig W model) as [endpoint|] eqn:Hc.
  - destruct (generator_trace W theme model endpoint slideCount st Hc)
      as (r & st' & E & Ht).
    exists r, st'. split; [exact E|].
    destruct r as [result|e].
    + destruct Ht as (slides & Hl & Hn & Hs & Hf).
      split; [by rewrite Hl|].
      exists endpoint, (map imageQuery slides).
      split; [reflexivity|]. split; [by rewrite length_map|].
      by split.
    + destruct Ht as [Hs Hf]. split; [exact Hs|]. right. eauto.
  - unfold generateCarouselContent. rewrite Hc.
    eexists _, _. split; [reflexivity|]. split; [reflexivity|by left].
Qed.

End GeneratorExtra.

Module HookExtra.
Import CorsProxy ImageExtractor UseImageExtractor.

Section WithWorld.
Variable W : World.

Lemma hook_loadImageDimensions_total (s : string) (st : State) :
  exists dimensions st',
    loadImageDimensions W s st = (Resolved dimensions, st')
    /\ st_fetches st' = st_fetches st.
Proof.
  unfold loadImageDimensions, bind at 1, imageDimensionsCache_get.
  destruct (SimpleCache.get (st_dims st) s (clock W (st_tick st)))
    as [cached c'].
  destruct cached as [d|].
  - eexists _, _. split; reflexivity.
  - unfold bind at 1, do_loadImage. cbn [st_tick].
    destruct (loadImage W (st_tick st) s) as [d|];
      eexists _, _; split; reflexivity.
Qed.

Lemma hook_filterQuality_bounded (candidateImages : list ExtractedImage) :
  forall qualityImages st,
  Forall (fun img => isQualityImage img = true) qualityImages ->
  (length qualityImages < 15)%nat ->
  exists result st',
    filterQuality W candidateImages qualityImages st
    = (Resolved result, st')
    /\ Forall (fun img => isQualityImage img = true) result
    /\ (length result <= 15)%nat.
Proof.
  induction candidateImages as [|img rest IH];
    intros qualityImages st Hall Hlen.
  - exists qualityImages, st. split; [reflexivity|].
    split; [exact Hall | lia].
  - cbn [filterQuality]. unfold bind at 1, getWorkingImageUrl.
    destruct (ServiceExtra.firstWorking_total W
                (urlVariations (src img)) st)
      as (working & st1 & -> & _ & _).
    destruct (ProbeFacts.usable_cases working)
      as [Hus | (workingUrl & -> & Hus & Hne)]; rewrite Hus.
    { destruct (IH qualityImages st1 Hall Hlen)
          as (result & st' & -> & Hres & Hb).
        exists result, st'. by split. }
    unfold bind at 1.
    assert (Hstep :
      exists img' st2,
        (if negb (truthy_num (width (set_src img workingUrl)))
            || negb (truthy_num (height (set_src img workingUrl)))
         then
           bind (loadImageDimensions W (src (set_src img workingUrl)))
             (fun dimensions =>
                match dimensions with
                | Some d => ret (set_size (set_src img workingUrl) d)
                | None => ret (set_src img workingUrl)
                end)
         else ret (set_src img workingUrl)) st1
        = (Resolved img', st2)).
    { destruct (negb _ || negb _).
      - unfold bind.
        destruct (hook_loadImageDimensions_total
                    (src (set_src img workingUrl)) st1)
          as (dimensions & st2 & -> & _).
        destruct dimensions as [d|]; by eexists _, st2.
      - by eexists _, st1. }
    destruct Hstep as (img' & st2 & ->).
    set (acc := if isQualityImage img'
                then (qualityImages ++ [img'])%list
                else qualityImages).
    assert (Hall2 : Forall (fun img => isQualityImage img = true) acc).
    { unfold acc. destruct (isQualityImage img') eqn:Hq; [|exact Hall].
      apply Forall_app. split; [exact Hall|].
      constructor; [exact Hq | constructor]. }
    assert (Hacc : (length acc <= 15)%nat).
    { unfold acc. destruct (isQualityImage img');
        [rewrite length_app; cbn [length]|]; lia. }
    destruct (Z.geb_spec (Z.of_nat (length acc)) 15) as [Hge|Hlt].
    + exists acc, st2. by split.
    + destruct (IH acc st2 Hall2 ltac:(lia))
        as (result & st' & -> & Hres & Hb).
      exists result, st'. by split.
Qed.

End WithWorld.

(** X19: the hook's [extractImages] never throws: it settles with a
    list and with [loading] cleared.  The list has at most 15 images,
    all of which pass the hook's quality filter, and it is empty
    whenever an error was set.  A URL that does not parse gives the
    empty list and the parser's message, nothing else having happened;
    a direct image URL is decided by decoding the image alone, with
    no [fetch] and no reachability probe, giving at most that one
    image; and for a page, a failure of the relay chain gives
    the empty list and the relay chain's message. *)
Theorem hook_extraction_settles (W : World) (invalidUrlMessage u : string)
    (st : State) :
  exists images hook st',
    extractImages W invalidUrlMessage u st
    = (Resolved (images, hook), st')
    /\ loading hook = false
    /\ Forall (fun img => isQualityImage img = true) images
    /\ (length images <= 15)%nat
    /\ (error hook = None \/ images = [])
    /\ (validUrl W u = false ->
          images = [] /\ error hook = Some invalidUrlMessage /\ st' = st)
    /\ (validUrl W u = true -> isDirectImageUrl u = true ->
          st_fetches st' = st_fetches st
          /\ (length images <= 1)%nat
          /\ Forall (fun img => src img = u) images)
    /\ (validUrl W u = true -> isDirectImageUrl u = false ->
          forall e,
            fst (fetchWithCorsProxy W u 3 st) = Rejected e ->
            images = [] /\ error hook = Some e).
Proof.
  unfold extractImages, try_catch, bind at 1, tryBlock.
  destruct (validUrl W u) eqn:Hv; cbn [negb].
  2:{ eexists _, _, _. split; [reflexivity|].
      cbn [loading error length].
      repeat split; try done; try lia; by right. }
  destruct (isDirectImageUrl u) eqn:Hd.
  - unfold bind at 1.
    destruct (hook_loadImageDimensions_total W u st)
      as (dimensions & st1 & -> & Hf).
    destruct (isQualityImage _) eqn:Hq.
    + eexists _, _, _. split; [reflexivity|].
      cbn [loading error length fst snd].
      split; [reflexivity|]. split; [by repeat constructor|].
      split; [lia|]. split; [by left|]. split; [done|].
      split; [|done]. intros _ _. split; [exact Hf|].
      split; [lia|]. by repeat constructor.
    + eexists _, _, _. split; [reflexivity|].
      cbn [loading error length fst snd].
      split; [reflexivity|]. split; [constructor|].
      split; [lia|]. split; [by right|]. split; [done|].
      split; [|done]. intros _ _. split; [exact Hf|].
      split; [lia|]. constructor.
  - unfold bind at 1.
    destruct (fetchWithCorsProxy W u 3 st) as [[htmlContent|e] st1].
    2:{ eexists _, _, _. split; [reflexivity|].
        cbn [loading error length fst].
        split; [reflexivity|]. split; [constructor|].
        split; [lia|]. split; [by right|]. split; [done|].
        split; [done|]. intros _ _ e' [= <-]. by split. }
    destruct (collectCandidates W _ _) as [found candidateImages].
    unfold bind at 1.
    destruct (hook_filterQuality_bounded W candidateImages [] st1)
      as (result & st' & -> & Hall & Hb); [constructor | cbn; lia |].
    eexists _, _, _. split; [reflexivity|].
    cbn [loading error length fst snd].
    split; [reflexivity|]. split; [exact Hall|].
    split; [exact Hb|]. split; [by left|]. split; [done|].
    split; [done|]. intros _ _ e [=].
Qed.

End HookExtra.

Module CacheReads.
Import SimpleCache CacheFacts.


End CacheReads.

Module UnwrapExtra.
Import CorsProxy.

(** X21: what the relay chain takes for the page.  Unwrapping a
    relay's reply never throws.  For the six relays that pass the
    reply through, the page is the parsed value whenever the text is
    valid JSON, and the text itself only otherwise.  For AllOrigins the
    page can only be accepted when the text is JSON for an object, the
    page being its [contents]: a reply of AllOrigins that is not JSON,
    however long, is never accepted. *)
Theorem relay_unwrap_cases (W : World) (responseText : string) :
  Forall
    (fun service =>
       exists htmlContent,
         unwrap W service responseText = Resolved htmlContent
         /\ if String.eqb (name service) "AllOrigins"
            then acceptable W htmlContent = true ->
                 exists props,
                   JSON_parse W responseText = Some (VObj props)
                   /\ htmlContent = lookup_prop props "contents"
            else htmlContent
                 = default (VStr responseText)
                     (JSON_parse W responseText))
    (corsProxyServices W).
Proof.
  unfold corsProxyServices.
  repeat (apply List.Forall_cons; [|]); try apply List.Forall_nil;
    cbn [name]; simpl (String.eqb _ "AllOrigins");
    unfold unwrap; cbn [parseResponse];
    try (destruct (JSON_parse W responseText) as [jsonData|];
         eexists; split; reflexivity).
  destruct (JSON_parse W responseText) as [jsonData|].
  - destruct jsonData as [| |b|n|s|items|props];
      try (exists VUndefined; split; [reflexivity | discriminate]).
    exists (lookup_prop props "contents"). split; [reflexivity|].
    intros _. by exists props.
  - exists VUndefined. split; [reflexivity | discriminate].
Qed.

End UnwrapExtra.

Module CandidateExtra.
Import Dom DomExtra.

Section Keeps.
Context {A : Type} (P : A -> Prop).
Implicit Types (acc : gset string * list A).

(** A step under which every candidate keeps satisfying [P]. *)
Definition keeps (f : gset string * list A -> gset string * list A)
    : Prop :=
  forall acc, Forall P (snd acc) -> Forall P (snd (f acc)).

Lemma keeps_id : keeps (fun acc => acc).
Proof. by intros acc H. Qed.

Lemma keeps_compose f g :
  keeps f -> keeps g -> keeps (fun acc => g (f acc)).
Proof. intros Hf Hg acc H. by apply Hg, Hf. Qed.

Lemma keeps_pushNew u c : P c -> keeps (pushNew u c).
Proof.
  intros Hc [found cands] H. unfold pushNew.
  destruct (negb (String.eqb u "") && negb (bool_decide (u ∈ found)));
    [|exact H].
  cbn [snd] in *. apply Forall_app. split; [exact H|].
  by repeat constructor.
Qed.

Lemma keeps_fold {B} (step : gset string * list A -> B
                             -> gset string * list A) (l : list B) :
  (forall x, keeps (fun acc => step acc x)) ->
  keeps (fun acc => fold_left step l acc).
Proof.
  intros Hstep. induction l as [|x l IH]; simpl; [apply keeps_id|].
  apply (keeps_compose (fun acc => step acc x)
           (fun acc => fold_left step l acc)); [apply Hstep | exact IH].
Qed.

End Keeps.

Definition service_absolute (img : ImageService.ImageSource) : Prop :=
  startsWith (ImageService.src img) "http" = true
  /\ ImageService.source img = None.

Definition hook_absolute (img : ImageExtractor.ExtractedImage) : Prop :=
  startsWith (ImageExtractor.src img) "http" = true.

Section WithWorld.
Variable W : World.
Variables (doc : Document) (baseUrl : URL).
Hypothesis Hbase : startsWith (protocol baseUrl) "http" = true.

Lemma service_json_keeps (obj : jsval) :
  keeps service_absolute
    (ImageService.extractImagesFromJson obj baseUrl).
Proof.
  induction obj as [| | | |s|items _|props IH]
    using JsvalFacts.jsval_nested_ind;
    try apply keeps_id.
  - simpl. destruct (ImageService.isDirectImageUrl s);
      [|apply keeps_id].
    apply keeps_pushNew. split; [|reflexivity].
    by apply result_is_absolute.
  - simpl. induction IH as [|[k v] rest Hv _ IHrest]; [apply keeps_id|].
    simpl in Hv.
    apply (keeps_compose service_absolute
             (fun acc => if imageKey k
                         then ImageService.extractImagesFromJson v
                                baseUrl acc
                         else acc)); [|exact IHrest].
    destruct (imageKey k); [exact Hv | apply keeps_id].
Qed.

Lemma service_collect_keeps :
  Forall service_absolute
    (snd (ImageService.collectCandidates W doc baseUrl)).
Proof.
  unfold ImageService.collectCandidates.
  apply keeps_fold.
  { intros script. lazy beta zeta.
    destruct (JSON_parse W (textContent script));
      [apply service_json_keeps | apply keeps_id]. }
  apply keeps_fold.
  { intros meta. lazy beta zeta.
    destruct (negb (String.eqb (attr_or_empty meta "content") ""));
      [|apply keeps_id].
    apply keeps_pushNew. split; [|reflexivity].
    by apply result_is_absolute. }
  apply keeps_fold.
  { intros el. lazy beta zeta.
    destruct (bgMatch (attr_or_empty el "style")); [|apply keeps_id].
    apply keeps_pushNew. split; [|reflexivity].
    by apply result_is_absolute. }
  apply keeps_fold; [|constructor].
  intros img. lazy beta zeta.
  destruct (negb (String.eqb (imgSource img) "")); [|apply keeps_id].
  apply keeps_pushNew. split; [|reflexivity].
  by apply result_is_absolute.
Qed.

Lemma hook_json_keeps (obj : jsval) (path : string) :
  keeps hook_absolute
    (ImageExtractor.extractImagesFromJson obj path baseUrl).
Proof.
  revert path.
  induction obj as [| | | |s|items _|props IH]
    using JsvalFacts.jsval_nested_ind; intros path;
    try apply keeps_id.
  - simpl.
    destruct (JS.includes s ".jpg" || JS.includes s ".jpeg"
              || JS.includes s ".png" || JS.includes s ".webp");
      [|apply keeps_id].
    apply keeps_pushNew. by apply result_is_absolute.
  - simpl. induction IH as [|[k v] rest Hv _ IHrest]; [apply keeps_id|].
    simpl in Hv.
    apply (keeps_compose hook_absolute
             (fun acc => if imageKey k
                         then ImageExtractor.extractImagesFromJson v k
                                baseUrl acc
                         else acc)); [|exact IHrest].
    destruct (imageKey k); [apply Hv | apply keeps_id].
Qed.

Lemma hook_collect_keeps :
  Forall hook_absolute
    (snd (ImageExtractor.collectCandidates W doc baseUrl)).
Proof.
  unfold ImageExtractor.collectCandidates.
  apply keeps_fold.
  { intros selector. apply keeps_fold. intros el. lazy beta zeta.
    match goal with
    | |- context [if ?b then _ else _] => destruct b
    end; [|apply keeps_id].
    apply keeps_pushNew. by apply result_is_absolute. }
  apply keeps_fold.
  { intros script. lazy beta zeta.
    destruct (JSON_parse W (textContent script));
      [apply hook_json_keeps | apply keeps_id]. }
  apply keeps_fold.
  { intros meta. lazy beta zeta.
    destruct (negb (String.eqb (attr_or_empty meta "content") ""));
      [|apply keeps_id].
    apply keeps_pushNew. by apply result_is_absolute. }
  apply keeps_fold.
  { intros el. lazy beta zeta.
    destruct (bgMatch (attr_or_empty el "style")); [|apply keeps_id].
    apply keeps_pushNew. by apply result_is_absolute. }
  apply keeps_fold; [|constructor].
  intros img. lazy beta zeta.
  destruct (negb (String.eqb (imgSource img) "")); [|apply keeps_id].
  apply keeps_pushNew. by apply result_is_absolute.
Qed.

End WithWorld.

(** X22: on a page whose protocol starts with http, every candidate
    that the passes of either extractor collect has an absolute [src],
    one that starts with http, whatever the page wrote; and the
    candidates of the service carry no [source] tag yet. *)
Theorem candidates_are_absolute (W : World) (doc : Document)
    (baseUrl : URL) :
  startsWith (protocol baseUrl) "http" = true ->
  Forall service_absolute
    (snd (ImageService.collectCandidates W doc baseUrl))
  /\ Forall hook_absolute
       (snd (ImageExtractor.collectCandidates W doc baseUrl)).
Proof.
  intros Hp. split;
    [by apply service_collect_keeps | by apply hook_collect_keeps].
Qed.

Lemma candidates_are_absolute_witness :
  startsWith (protocol siteBase) "http" = true
  /\ Forall service_absolute
       (snd (ImageService.collectCandidates silentWorld twoTagsPage
               siteBase)).
Proof.
  split; [reflexivity|].
  exact (proj1 (candidates_are_absolute silentWorld twoTagsPage siteBase
                  eq_refl)).
Defined.

End CandidateExtra.

Module ServiceHookExtra.
Import ImageService UseImageService.

(** X23: the service hook never throws and never stays busy.  After
    [extractFromPage] the extraction error is set exactly when the
    list of extracted images is empty, and the list is what the
    service returned; after [searchUnsplash] an error means an empty
    result list; [processImageUrl] and [uploadImage] return [null]
    exactly when they set their error, which is the message of the
    service's failure.  Each operation leaves the state of the others
    as it was. *)
Theorem service_hook_settles (W : World) (h : HookState) (st : State) :
  (forall options,
     exists h' st',
       extractFromPage W options h st = (Resolved h', st')
       /\ isExtracting h' = false
       /\ (extractedImages h' = [] <-> extractionError h' <> None)
       /\ (forall images,
             fst (extractImagesFromPage W options st) = Resolved images ->
             extractedImages h' = images)
       /\ setExtraction h' (extractedImages h) (isExtracting h)
            (extractionError h) = h)
  /\ (forall options,
        exists h' st',
          UseImageService.searchUnsplash W options h st
          = (Resolved h', st')
          /\ isSearching h' = false
          /\ (searchError h' <> None -> searchResults h' = [])
          /\ (forall e,
                fst (ImageService.searchUnsplash W options st)
                = Rejected e <-> searchError h' = Some e)
          /\ setSearch h' (searchResults h) (isSearching h)
               (searchError h) = h)
  /\ (forall u,
        exists r h' st',
          UseImageService.processImageUrl W u h st
          = (Resolved (r, h'), st')
          /\ isExtracting h' = false
          /\ extractedImages h' = extractedImages h
          /\ setExtraction h' (extractedImages h) (isExtracting h)
               (extractionError h) = h
          /\ (r = None <-> extractionError h' <> None)
          /\ (forall e,
                fst (ImageService.processImageUrl W u st) = Rejected e
                <-> extractionError h' = Some e))
  /\ (forall options,
        exists r h' st',
          UseImageService.uploadImage W options h st
          = (Resolved (r, h'), st')
          /\ isUploading h' = false
          /\ (r = None <-> uploadError h' <> None)
          /\ setUpload h' (isUploading h) (uploadError h) = h).
Proof.
  destruct h as [sr sb se ei eb ee ub ue].
  split; [|split; [|split]].
  - intros options. unfold extractFromPage, try_catch, bind.
    destruct (extractImagesFromPage W options st) as [[images|e] st1].
    + eexists _, _. split; [reflexivity|].
      cbn [isExtracting extractedImages extractionError setExtraction
           searchResults isSearching searchError isUploading uploadError
           fst].
      split; [reflexivity|]. split.
      * destruct images as [|i rest]; cbn [length Nat.eqb];
          split; intros H; try done.
      * split; [by intros ? [= <-] | reflexivity].
    + eexists _, _. split; [reflexivity|].
      cbn [isExtracting extractedImages extractionError setExtraction
           searchResults isSearching searchError isUploading uploadError
           fst].
      split; [reflexivity|]. split; [by split|].
      split; [intros ? [=] | reflexivity].
  - intros options.
    unfold UseImageService.searchUnsplash, try_catch, bind.
    destruct (ImageService.searchUnsplash W options st)
      as [[images|e] st1].
    + eexists _, _. split; [reflexivity|].
      cbn [setSearch searchResults isSearching searchError
           extractedImages isExtracting extractionError isUploading
           uploadError fst].
      split; [reflexivity|]. split; [done|].
      split; [|reflexivity]. intros e. split; intros [=].
    + eexists _, _. split; [reflexivity|].
      cbn [setSearch searchResults isSearching searchError
           extractedImages isExtracting extractionError isUploading
           uploadError fst].
      split; [reflexivity|]. split; [done|].
      split; [|reflexivity]. intros e'. split; by intros [= ->].
  - intros u. unfold UseImageService.processImageUrl, try_catch, bind.
    destruct (ImageService.processImageUrl W u st) as [[img|e] st1].
    + eexists _, _, _. split; [reflexivity|].
      cbn [setExtraction isExtracting extractedImages extractionError
           searchResults isSearching searchError isUploading uploadError
           fst].
      split; [reflexivity|]. split; [reflexivity|].
      split; [reflexivity|].
      split; [split; intros H; done|].
      intros e. split; intros [=].
    + eexists _, _, _. split; [reflexivity|].
      cbn [setExtraction isExtracting extractedImages extractionError
           searchResults isSearching searchError isUploading uploadError
           fst].
      split; [reflexivity|]. split; [reflexivity|].
      split; [reflexivity|].
      split; [by split|].
      intros e'. split; by intros [= ->].
  - intros options. unfold UseImageService.uploadImage, try_catch, bind.
    destruct (ImageService.uploadImage W options st) as [[img|e] st1].
    + eexists _, _, _. split; [reflexivity|].
      cbn [setUpload isUploading uploadError searchResults isSearching
           searchError extractedImages isExtracting extractionError].
      split; [reflexivity|]. split; [split; intros H; done|].
      reflexivity.
    + eexists _, _, _. split; [reflexivity|].
      cbn [setUpload isUploading uploadError searchResults isSearching
           searchError extractedImages isExtracting extractionError].
      split; [reflexivity|]. split; [by split|]. reflexivity.
Qed.

End ServiceHookExtra.

Module HomeExtra.
Import Home.

Lemma spread_twice (s newProps : Slide) :
  spread (spread s newProps) newProps = spread s newProps.
Proof.
  unfold spread. rewrite (assoc_L (∪)). by rewrite (idemp_L (∪)).
Qed.

(** X24: [handleSlideUpdate] keeps the number and the order of the
    slides and leaves every slide with another [id] untouched; in a
    slide with the given [id] every key of [newProps] takes the new
    value and every other key keeps its old one; applying the same
    update twice is applying it once, even when the update changes the
    [id]; and an update without keys changes nothing. *)
Theorem handleSlideUpdate_properties (slideId : Z) (newProps : Slide)
    (prevSlides : list Slide) :
  length (handleSlideUpdate slideId newProps prevSlides)
  = length prevSlides
  /\ (forall (i : nat) s,
        prevSlides !! i = Some s ->
        exists s',
          handleSlideUpdate slideId newProps prevSlides !! i = Some s'
          /\ (hasId s slideId = false -> s' = s)
          /\ (hasId s slideId = true ->
              forall key,
                s' !! key
                = match newProps !! key with
                  | Some v => Some v
                  | None => s !! key
                  end))
  /\ handleSlideUpdate slideId newProps
       (handleSlideUpdate slideId newProps prevSlides)
     = handleSlideUpdate slideId newProps prevSlides
  /\ handleSlideUpdate slideId ∅ prevSlides = prevSlides.
Proof.
  unfold handleSlideUpdate. split; [apply length_map|].
  split; [|split].
  - intros i s Hi. rewrite list_lookup_fmap_Some_2 with (x := s) by done.
    eexists. split; [reflexivity|].
    destruct (hasId s slideId); split; try done.
    intros _ key. unfold spread.
    destruct (newProps !! key) as [v|] eqn:Hk.
    + by apply lookup_union_Some_l.
    + by apply lookup_union_r.
  - rewrite map_map. apply map_ext. intros s.
    destruct (hasId s slideId) eqn:Hs; [|by rewrite Hs].
    destruct (hasId (spread s newProps) slideId); [|reflexivity].
    apply spread_twice.
  - rewrite <- (map_id prevSlides) at 2. apply map_ext. intros s.
    destruct (hasId s slideId); [|reflexivity].
    unfold spread. apply (left_id_L ∅ (∪)).
Qed.

End HomeExtra.

Module FilterComparison.
Import StringFacts.

(** The keywords that only the hook's filter knows. *)
Definition hookOnlyKeywords : list string :=
  ["separator-"; "divider-"; "watermark-"; "copyright-"; "signature-";
   "badge-"; "medal-"; "flag-"; "emoji-"; "emoticon-"; "smiley-"].

(** A keyword of the hook that contains a keyword of the service. *)
Definition covered (keyword : string) : bool :=
  existsb (fun k => includes keyword k) ImageService.lowQualityKeywords.

Lemma covered_is_rejected (s a keyword : string) (l : list string) :
  existsb (fun k => includes s k || includes a k) l = false ->
  existsb (fun k => includes keyword k) l = true ->
  includes s keyword || includes a keyword = false.
Proof.
  induction l as [|k l IH]; [discriminate|].
  cbn [existsb]. intros H Hc.
  apply orb_false_iff in H. destruct H as [Hk Hl].
  apply orb_true_iff in Hc. destruct Hc as [Hc|Hc]; [|by apply IH].
  apply orb_false_iff in Hk. destruct Hk as [Hs Ha].
  apply orb_false_iff. split.
  - destruct (includes s keyword) eqn:E; [|reflexivity].
    by rewrite (includes_trans _ _ _ E Hc) in Hs.
  - destruct (includes a keyword) eqn:E; [|reflexivity].
    by rewrite (includes_trans _ _ _ E Hc) in Ha.
Qed.

Lemma filter_none {A} (f : A -> bool) (l : list A) :
  Forall (fun x => f x = false) l -> List.filter f l = [].
Proof.
  induction 1 as [|x l Hx _ IH]; [reflexivity|].
  cbn [List.filter]. by rewrite Hx.
Qed.

(** X25: the two quality filters compared at the hook's thresholds.
    An image that the service's filter accepts at 300 by 200 is
    accepted by the hook's filter as well, unless its URL or alt text,
    in the lower case of [toLowerCase], contains one of the eleven
    keywords that only the hook knows.  The converse fails: the hook's
    keywords end in a dash, so it accepts [thumbs.jpg], which the
    service rejects. *)
Theorem service_filter_is_stricter :
  (forall s a w h so,
     ImageService.isQualityImage (ImageService.mkImage s a w h so) 300 200
     = true ->
     existsb (fun k => includes (toLowerCase s) k
                       || includes (toLowerCase a) k) hookOnlyKeywords
     = false ->
     ImageExtractor.isQualityImage (ImageExtractor.mkExtracted s a w h)
     = true)
  /\ ImageExtractor.isQualityImage
       (ImageExtractor.mkExtracted "https://site.org/thumbs.jpg" "" None
          None) = true
  /\ ImageService.isQualityImage
       (ImageService.mkImage "https://site.org/thumbs.jpg" "" None None
          None) 300 200 = false.
Proof.
  split; [|split; vm_compute; reflexivity].
  intros s a w h so H Hextra.
  unfold ImageService.isQualityImage in H.
  unfold ImageExtractor.isQualityImage.
  cbn [ImageService.src ImageService.alt ImageService.width
       ImageService.height] in H.
  cbn [ImageExtractor.src ImageExtractor.alt ImageExtractor.width
       ImageExtractor.height].
  lazy zeta in H. lazy zeta.
  apply andb_true_iff in H. destruct H as [H Hsize].
  apply andb_true_iff in H. destruct H as [Hfmt Hkw].
  apply negb_true_iff in Hkw.
  change ImageExtractor.qualityFormats with ImageService.qualityFormats.
  rewrite Hfmt, Hsize, andb_true_r. cbn [andb].
  rewrite filter_none; [reflexivity|].
  change ImageExtractor.lowQualityKeywords
    with (["thumb-"; "thumbnail"; "icon-"; "logo-"; "sprite-"; "avatar-";
           "banner-"; "ads-"; "tracking-"; "pixel-"; "beacon-"; "button-";
           "social-"; "widget-"; "placeholder-"; "loading-"; "spinner-"]
          ++ hookOnlyKeywords)%list.
  apply Forall_app. split.
  - assert (Hc : Forall (fun k => covered k = true)
                   ["thumb-"; "thumbnail"; "icon-"; "logo-"; "sprite-";
                    "avatar-"; "banner-"; "ads-"; "tracking-"; "pixel-";
                    "beacon-"; "button-"; "social-"; "widget-";
                    "placeholder-"; "loading-"; "spinner-"])
      by (repeat constructor; vm_compute; reflexivity).
    eapply Forall_impl; [exact Hc|].
    intros k Hk. cbv beta. exact (covered_is_rejected _ _ k _ Hkw Hk).
  - clear -Hextra. induction hookOnlyKeywords as [|k l IH];
      [constructor|].
    cbn [existsb] in Hextra. apply orb_false_iff in Hextra.
    destruct Hextra as [Hk Hl]. constructor; [exact Hk | by apply IH].
Qed.

End FilterComparison.
